(** * Order lifecycle and conversation engine of elevator-pitch.api

    A shallow embedding of the Mongoose models (Order, Chat, User, Listing),
    the request validation rules and the order and chat controllers, followed
    by the properties of the natural-language specification that were checked
    against them.

    Conventions of the embedding.
    - A collection is a finite map from ObjectId (compared through
      [toString()] in the source, hence a string here) to documents.
    - Every controller is a function [Db -> ... -> Db * Response]; an early
      [return next(new AppError(..))] returns the database it was given, an
      exception raised after a [save()] returns the database as saved so far.
    - [new Date()], [Date.now()], [Math.random()] and freshly generated
      ObjectIds are inputs of the call (the record [Env]).
    - Text that a client supplies or a document stores is a JavaScript
      string, the sequence of its UTF-16 code units ([Js.String]);
      identifiers, enumerated values and the texts of responses are ASCII
      and are Rocq strings.
    - Integer Numbers (scores, counters, timestamps) are [Z]. Prices are
      only compared with 0 and stored: they are rationals ([Qc]), which every
      double is. The average of the ratings is computed: it is a double
      ([float]), with the additions and the division of IEEE 754.
    - Mongoose. A [save()] validates the document against its schema and
      then runs the pre('save') hooks of the schema (validation is the first
      hook registered); with [validateBeforeSave: false] only the hooks run.
      [populate] puts documents in the place of identifiers: where a handler
      dereferences a populated single reference ([listing.seller._id],
      [order.buyer._id], [chat.listing.seller]) a missing document is [null]
      and the access throws; where it calls [toString()] on a populated
      reference it gets the text of the document, not of its identifier.
    - Socket emissions are recorded in the response; authentication and rate
      limiting happen before the modelled code and are not part of it. *)

From stdpp Require Import gmap strings list fin_maps numbers.
From Stdlib Require Import ZArith QArith Qcanon String Ascii PrimFloat Uint63.

Open Scope string_scope.
Open Scope Z_scope.

Definition ObjectId := string.

(** All documents of a collection, as [Model.find({})] would list them. *)
Definition docs {A} (m : gmap ObjectId A) : list A := (map_to_list m).*2.

(** ** JavaScript values *)
Module Js.

(** A string is the sequence of its UTF-16 code units; [s.length] is the
    length of the sequence. *)
Definition String := list N.

(** The string of an ASCII text: string literals in positions that hold
    text supplied by a client or stored in a document are read this way. *)
Definition str (s : string) : String := (λ a, N_of_ascii a) <$> list_ascii_of_string s.

(** WhiteSpace and LineTerminator of ECMAScript: the code units that
    [String.prototype.trim] strips and that [\s] matches (tab to carriage
    return, space, U+00A0, U+1680, U+2000 to U+200A, U+2028, U+2029, U+202F,
    U+205F, U+3000, U+FEFF). *)
Definition is_space (u : N) : bool :=
  bool_decide (u ∈ [9; 10; 11; 12; 13; 32; 160; 5760; 8232; 8233; 8239; 8287; 12288; 65279]%N)
  || ((8192 <=? u) && (u <=? 8202))%N.

Fixpoint ltrim (s : String) : String :=
  match s with
  | [] => []
  | c :: s' => if is_space c then ltrim s' else s
  end.

Fixpoint rtrim (s : String) : String :=
  match s with
  | [] => []
  | c :: s' =>
      match rtrim s' with
      | [] => if is_space c then [] else [c]
      | r => c :: r
      end
  end.

(** [String.prototype.trim], which the schema option [trim: true] applies,
    and validator's [trim()], which strips [\s] at both ends. *)
Definition trim (s : String) : String := rtrim (ltrim s).

(** [s.substring(0, n)] *)
Definition substring0 (n : nat) (s : String) : String := take n s.

(** A word between double quotes, in the text of a response. *)
Definition quoted (s : string) : string :=
  String.String (ascii_of_nat 34) (s ++ String.String (ascii_of_nat 34) EmptyString).

Definition digit36 (d : N) : ascii :=
  if (d <? 10)%N then ascii_of_N (48 + d) else ascii_of_N (55 + d).

Fixpoint toString36_aux (fuel : nat) (n : N) (acc : string) : string :=
  match fuel with
  | O => acc
  | S f =>
      let acc' := String.String (digit36 (n mod 36)) acc in
      if (n / 36 =? 0)%N then acc' else toString36_aux f (n / 36)%N acc'
  end.

(** [n.toString(36).toUpperCase()] for a non-negative integer. *)
Definition toString36Upper (n : Z) : string :=
  let k := Z.to_N n in toString36_aux (S (N.to_nat (N.log2 k))) k EmptyString.

(** The Number (an IEEE 754 double) of an integer below 2^63 in absolute
    value, as scores and counts are; it is exact below 2^53. *)
Definition number (z : Z) : float :=
  if z <? 0 then PrimFloat.opp (PrimFloat.of_uint63 (Uint63.of_Z (- z)))
  else PrimFloat.of_uint63 (Uint63.of_Z z).

End Js.

Coercion Js.str : string >-> Js.String.

(** An optional text is written [Some "text"]. *)
Arguments Some {A}%_type_scope & a.

(** ** Errors and responses (error.middleware.js) *)

Record AppError := { message : string; statusCode : nat }.

Inductive Outcome :=
| Sent (code : nat) (msg : string)      (* res.status(code).json({success: true, message: msg, ..}) *)
| Failed (e : AppError)                 (* next(new AppError(..)) or a 400 of the validator *)
| Thrown (what : string).               (* exception caught by catchAsync *)

Record Emit := { room : ObjectId; event : string }.

Record Response := { outcome : Outcome; emitted : list Emit }.

Definition fail (msg : string) (code : nat) : Response :=
  {| outcome := Failed {| message := msg; statusCode := code |}; emitted := [] |}.

Definition throw (what : string) : Response :=
  {| outcome := Thrown what; emitted := [] |}.

Definition ok (code : nat) (msg : string) (ev : list Emit) : Response :=
  {| outcome := Sent code msg; emitted := ev |}.

Definition succeeded (r : Response) : bool :=
  match outcome r with Sent _ _ => true | _ => false end.

(** What the request carries besides its body: the authenticated user set by
    [protect], and the readings taken during the call: [now] is the clock
    (every [new Date()] and [Date.now()] of one call reads the same instant),
    [random] is the text of
    [Math.random().toString(36).substring(2, 7).toUpperCase()], and [newId]
    is the ObjectId generated for the document or subdocument created. *)
Inductive Role := student | admin.

Record ReqUser := { user_id : ObjectId; role : Role }.

Record Env := { now : Z; random : string; newId : ObjectId }.

(** ** User.model.js *)
Module UserModel.

Record UserRating := { average : float; count : Z }.

Record User := {
  rating : UserRating;
  orders : list ObjectId;
}.

Definition set_rating (r : UserRating) (u : User) : User :=
  {| rating := r; orders := orders u |}.

Definition push_order (oid : ObjectId) (u : User) : User :=
  {| rating := rating u; orders := orders u ++ [oid] |}.

End UserModel.

(** ** Listing.model.js *)
Module ListingModel.

Inductive ListingStatus := active | sold | reserved | inactive.

#[global] Instance ListingStatus_eq_dec : EqDecision ListingStatus.
Proof. solve_decision. Defined.

Record Image := { url : Js.String; publicId : Js.String }.

Record Listing := {
  title : Js.String;
  description : Js.String;
  category : Js.String;
  price : Qc;
  images : list Image;
  seller : ObjectId;
  status : ListingStatus;
}.

Definition set_status (s : ListingStatus) (l : Listing) : Listing :=
  {| title := title l; description := description l; category := category l;
     price := price l; images := images l; seller := seller l; status := s |}.

(** The pre('save') hook: between one and ten images. *)
Definition pre_save_ok (l : Listing) : bool :=
  negb (List.length (images l) =? 0)%nat && negb (10 <? List.length (images l))%nat.

End ListingModel.

(** ** Order.model.js *)
Module OrderModel.

Inductive OrderStatus :=
| pending | confirmed | meetup_scheduled | in_progress | completed | cancelled | disputed.

#[global] Instance OrderStatus_eq_dec : EqDecision OrderStatus.
Proof. solve_decision. Defined.

(** The string a status is stored and printed as. *)
Definition status_name (s : OrderStatus) : string :=
  match s with
  | pending => "pending"
  | confirmed => "confirmed"
  | meetup_scheduled => "meetup-scheduled"
  | in_progress => "in-progress"
  | completed => "completed"
  | cancelled => "cancelled"
  | disputed => "disputed"
  end.

Record ListingSnapshot := {
  snap_title : Js.String;
  snap_description : Js.String;
  snap_images : list Js.String;
  snap_category : Js.String;
}.

Record MeetupDetails := {
  location : option Js.String;
  date : option Z;
  time : option Js.String;
  additionalInfo : option Js.String;
}.

Record TimelineEntry := { tl_status : OrderStatus; tl_timestamp : Z; tl_note : Js.String }.

Record Rating := { score : Z; review : option Js.String; rated_at : Z }.

Record RatingSlots := { buyerRating : option Rating; sellerRating : option Rating }.

Record Cancellation := {
  cancelledBy : ObjectId; cancel_reason : Js.String; cancel_timestamp : Z }.

Inductive DisputeStatus := dispute_open | dispute_in_review | dispute_resolved.

Record Dispute := {
  initiatedBy : ObjectId;
  dispute_reason : Js.String;
  dispute_status : DisputeStatus;
  resolution : option Js.String;
  dispute_timestamp : Z;
}.

Record Notes := { buyer_note : option Js.String; seller_note : option Js.String }.

(** [orderNumber] is [None] while the path is not set. *)
Record Order := {
  orderNumber : option string;
  buyer : ObjectId;
  seller : ObjectId;
  listing : ObjectId;
  listingSnapshot : ListingSnapshot;
  price : Qc;
  negotiatedPrice : option Qc;
  finalPrice : Qc;
  status : OrderStatus;
  meetupDetails : option MeetupDetails;
  timeline : list TimelineEntry;
  rating : RatingSlots;
  cancellation : option Cancellation;
  dispute : option Dispute;
  notes : Notes;
}.

(** The document [o] with its mutable paths replaced; identity, parties,
    prices and snapshot are never assigned after creation. *)
Definition assign (o : Order) (st : OrderStatus) (md : option MeetupDetails)
    (tl : list TimelineEntry) (rt : RatingSlots) (cn : option Cancellation)
    (dp : option Dispute) (nt : Notes) : Order :=
  {| orderNumber := orderNumber o; buyer := buyer o; seller := seller o;
     listing := listing o; listingSnapshot := listingSnapshot o;
     price := price o; negotiatedPrice := negotiatedPrice o;
     finalPrice := finalPrice o; status := st; meetupDetails := md;
     timeline := tl; rating := rt; cancellation := cn; dispute := dp;
     notes := nt |}.

Definition generateOrderNumber (e : Env) : string :=
  "EP-" ++ Js.toString36Upper (now e) ++ "-" ++ random e.

(** pre('save'): the order number is generated when the document has none. *)
Definition pre_save (e : Env) (o : Order) : Order :=
  match orderNumber o with
  | Some _ => o
  | None =>
      {| orderNumber := Some (generateOrderNumber e); buyer := buyer o; seller := seller o;
         listing := listing o; listingSnapshot := listingSnapshot o;
         price := price o; negotiatedPrice := negotiatedPrice o;
         finalPrice := finalPrice o; status := status o; meetupDetails := meetupDetails o;
         timeline := timeline o; rating := rating o; cancellation := cancellation o;
         dispute := dispute o; notes := notes o |}
  end.

(** The [min: 0] of the three prices. *)
Definition prices_valid (o : Order) : bool :=
  bool_decide (0 <= price o)%Qc && bool_decide (0 <= finalPrice o)%Qc &&
  match negotiatedPrice o with
  | Some p => bool_decide (0 <= p)%Qc
  | None => true
  end.

(** Schema validation of a new order: [orderNumber] is [required], and the
    prices respect their minimum. The parties, the listing and the price are
    set by the handler. *)
Definition validate (o : Order) : bool :=
  bool_decide (is_Some (orderNumber o)) && prices_valid o.

(** [Order.create(doc)], that is [new Order(doc).save()]. Mongoose
    registers the validation of a schema as the first of its pre('save')
    hooks, so the document is validated before the hook above gives it a
    number. With [numbered] the document is taken to
    receive its number before it is validated, which is not what the
    program does: it is how orders are taken to have entered the collection
    (see [reachable]). The result is the error thrown or the order
    inserted. *)
Definition create (numbered : bool) (e : Env) (doc : Order) : string + Order :=
  let doc := if numbered then pre_save e doc else doc in
  if negb (validate doc) then inl "ValidationError"
  else inr (pre_save e doc).

(** Schema validator of a rating score: [min: 1, max: 5]. *)
Definition score_valid (s : Z) : bool := (1 <=? s) && (s <=? 5).

(** [updateStatus(newStatus, note = '')] *)
Definition updateStatus (this : Order) (newStatus : OrderStatus) (note : option Js.String)
    (e : Env) : Order :=
  assign this newStatus (meetupDetails this)
    (timeline this ++
       [{| tl_status := newStatus; tl_timestamp := now e; tl_note := default (Js.str EmptyString) note |}])
    (rating this) (cancellation this) (dispute this) (notes this).

(** [cancel(userId, reason)] *)
Definition cancel (this : Order) (userId : ObjectId) (reason : Js.String) (e : Env) : Order :=
  assign this cancelled (meetupDetails this)
    (timeline this ++
       [{| tl_status := cancelled; tl_timestamp := now e;
           tl_note := (Js.str "Cancelled by user. Reason: " ++ reason)%list |}])
    (rating this)
    (Some {| cancelledBy := userId; cancel_reason := reason; cancel_timestamp := now e |})
    (dispute this) (notes this).

(** [initiateDispute(userId, reason)] *)
Definition initiateDispute (this : Order) (userId : ObjectId) (reason : Js.String)
    (e : Env) : Order :=
  assign this disputed (meetupDetails this)
    (timeline this ++
       [{| tl_status := disputed; tl_timestamp := now e;
           tl_note := (Js.str "Dispute initiated: " ++ reason)%list |}])
    (rating this) (cancellation this)
    (Some {| initiatedBy := userId; dispute_reason := reason;
             dispute_status := dispute_open; resolution := None;
             dispute_timestamp := now e |})
    (notes this).

Definition canBeRated (this : Order) : bool := bool_decide (status this = completed).

Definition canBeCancelled (this : Order) : bool :=
  bool_decide (status this ∈ [pending; confirmed; meetup_scheduled]).

(** The first half of [addRating]: the slot of the acting party is assigned. *)
Definition setRatingSlot (this : Order) (userId : ObjectId) (sc : Z)
    (rv : option Js.String) (e : Env) : Order :=
  let r := {| score := sc; review := rv; rated_at := now e |} in
  let isBuyer := bool_decide (buyer this = userId) in
  assign this (status this) (meetupDetails this) (timeline this)
    (if isBuyer
     then {| buyerRating := Some r; sellerRating := sellerRating (rating this) |}
     else {| buyerRating := buyerRating (rating this); sellerRating := Some r |})
    (cancellation this) (dispute this) (notes this).

(** The query of [addRating]: completed orders in which [target] holds the
    rated role and the slot written by the other party has a score. *)
Definition ratedOrders (isBuyer : bool) (target : ObjectId)
    (orders : gmap ObjectId Order) : list Order :=
  filter (λ o,
      (if isBuyer then seller o else buyer o) = target ∧
      status o = completed ∧
      is_Some (if isBuyer then buyerRating (rating o) else sellerRating (rating o)))
    (docs orders).

(** The reducer of [addRating]: [sum + (rating || 0)], an addition of
    doubles. *)
Definition sumRatings (isBuyer : bool) (os : list Order) : float :=
  foldl (λ sum o,
      (sum + Js.number
               match (if isBuyer then buyerRating (rating o) else sellerRating (rating o)) with
               | Some r => score r
               | None => 0
               end)%float) 0%float os.

(** [totalRatings > 0 ? sumRatings / totalRatings : 0], a division of
    doubles. *)
Definition averageRating (isBuyer : bool) (os : list Order) : float :=
  let totalRatings := Z.of_nat (List.length os) in
  if 0 <? totalRatings
  then (sumRatings isBuyer os / Js.number totalRatings)%float
  else 0%float.

(** [addRating(userId, score, review)] on the order stored under [id]:
    [None] when [save()] rejects the score, otherwise the two collections
    after the save and after [User.findByIdAndUpdate]. *)
Definition addRating (id : ObjectId) (this : Order) (userId : ObjectId) (sc : Z)
    (rv : option Js.String) (e : Env)
    (orders : gmap ObjectId Order) (users : gmap ObjectId UserModel.User)
  : option (gmap ObjectId Order * gmap ObjectId UserModel.User) :=
  if score_valid sc then
    let isBuyer := bool_decide (buyer this = userId) in
    let orders' := <[id := setRatingSlot this userId sc rv e]> orders in
    let targetUser := if isBuyer then seller this else buyer this in
    let found := ratedOrders isBuyer targetUser orders' in
    let r := {| UserModel.average := averageRating isBuyer found;
                UserModel.count := Z.of_nat (List.length found) |} in
    Some (orders', alter (UserModel.set_rating r) targetUser users)
  else None.

End OrderModel.

(** ** Chat.model.js *)
Module ChatModel.

Inductive MessageType := text | image | offer.

#[global] Instance MessageType_eq_dec : EqDecision MessageType.
Proof. solve_decision. Defined.

Inductive OfferStatus := offer_pending | offer_accepted | offer_rejected | offer_withdrawn.

#[global] Instance OfferStatus_eq_dec : EqDecision OfferStatus.
Proof. solve_decision. Defined.

(** The nested [offer] path: [status] carries the schema default. *)
Record Offer := { amount : option Qc; offer_status : OfferStatus }.

Record Message := {
  _id : ObjectId;
  sender : ObjectId;
  content : Js.String;
  type : MessageType;
  image_payload : option ListingModel.Image;
  offer_payload : Offer;
  isRead : bool;
  readAt : option Z;
  createdAt : Z;
}.

Record LastMessage := {
  last_content : Js.String;
  last_sender : ObjectId;
  last_createdAt : option Z;
}.

Record Chat := {
  participants : list ObjectId;
  listing : ObjectId;
  messages : list Message;
  lastMessage : option LastMessage;
  unreadCount : gmap string Z;
  isActive : bool;
  blockedBy : list ObjectId;
}.

(** The document [c] with its mutable paths replaced. *)
Definition assign (c : Chat) (ms : list Message) (lm : option LastMessage)
    (uc : gmap string Z) (act : bool) (bl : list ObjectId) : Chat :=
  {| participants := participants c; listing := listing c; messages := ms;
     lastMessage := lm; unreadCount := uc; isActive := act; blockedBy := bl |}.

(** Schema validation, which [save()] runs first unless it is called with
    [validateBeforeSave: false]: every message has a content ([required])
    of at most 2000 code units ([maxlength]). The other paths are valid by
    their types. *)
Definition message_valid (m : Message) : bool :=
  negb (bool_decide (content m = [])) && (List.length (content m) <=? 2000)%nat.

Definition validate (c : Chat) : bool := forallb message_valid (messages c).

(** pre('save'): a chat has exactly two participants. *)
Definition pre_save_ok (c : Chat) : bool := (List.length (participants c) =? 2)%nat.

(** [updateLastMessage(message)]: the three properties read from [message]
    are its arguments; [msg_createdAt] is [None] when the object passed has
    no [createdAt] property. *)
Definition updateLastMessage (this : Chat) (msg_content : Js.String) (msg_sender : ObjectId)
    (msg_createdAt : option Z) : Chat :=
  assign this (messages this)
    (Some {| last_content := Js.substring0 100 msg_content;
             last_sender := msg_sender;
             last_createdAt := msg_createdAt |})
    (unreadCount this) (isActive this) (blockedBy this).

(** [unreadCount.get(k) || 0] *)
Definition unreadOf (this : Chat) (k : ObjectId) : Z := default 0 (unreadCount this !! k).

(** [incrementUnread(recipientId)] *)
Definition incrementUnread (this : Chat) (recipientId : ObjectId) : Chat :=
  let currentCount := unreadOf this recipientId in
  assign this (messages this) (lastMessage this)
    (<[recipientId := currentCount + 1]> (unreadCount this))
    (isActive this) (blockedBy this).

(** The test of the [forEach] body of [markAsRead]. *)
Definition unreadFor (userId : ObjectId) (m : Message) : bool :=
  negb (isRead m) && negb (bool_decide (sender m = userId)).

Definition readMessage (nw : Z) (m : Message) : Message :=
  {| _id := _id m; sender := sender m; content := content m; type := type m;
     image_payload := image_payload m; offer_payload := offer_payload m;
     isRead := true; readAt := Some nw; createdAt := createdAt m |}.

(** The body of the [forEach] of [markAsRead]. *)
Definition readBy (userId : ObjectId) (nw : Z) (m : Message) : Message :=
  if unreadFor userId m then readMessage nw m else m.

(** [markAsRead(userId)] *)
Definition markAsRead (this : Chat) (userId : ObjectId) (e : Env) : Chat :=
  let hasUnread := existsb (unreadFor userId) (messages this) in
  assign this
    (readBy userId (now e) <$> messages this)
    (lastMessage this)
    (if hasUnread then <[userId := 0]> (unreadCount this) else unreadCount this)
    (isActive this) (blockedBy this).

Definition isParticipant (this : Chat) (userId : ObjectId) : bool :=
  existsb (λ participant, bool_decide (participant = userId)) (participants this).

Definition isBlockedBy (this : Chat) (userId : ObjectId) : bool :=
  existsb (λ blocked, bool_decide (blocked = userId)) (blockedBy this).

(** The filter of [findOne] in [findOrCreate]:
    [{participants: {$all: [buyerId, sellerId]}, listing: listingId}]. *)
Definition matches (buyerId sellerId listingId : ObjectId) (c : Chat) : bool :=
  bool_decide (buyerId ∈ participants c) && bool_decide (sellerId ∈ participants c) &&
  bool_decide (listing c = listingId).

Definition newChat (buyerId sellerId listingId : ObjectId) : Chat :=
  {| participants := [buyerId; sellerId]; listing := listingId; messages := [];
     lastMessage := None;
     unreadCount := <[sellerId := 0]> (<[buyerId := 0]> ∅);
     isActive := true; blockedBy := [] |}.

(** [Chat.findOrCreate(buyerId, sellerId, listingId)]: the chat found, or the
    collection with the chat created under the fresh identifier; [None] when
    the insertion is refused (identifier already in use). *)
Definition findOrCreate (buyerId sellerId listingId : ObjectId) (e : Env)
    (chats : gmap ObjectId Chat) : option (gmap ObjectId Chat) :=
  match list_find (λ kc, matches buyerId sellerId listingId kc.2 = true) (map_to_list chats) with
  | Some _ => Some chats
  | None =>
      match chats !! newId e with
      | Some _ => None
      | None => Some (<[newId e := newChat buyerId sellerId listingId]> chats)
      end
  end.

End ChatModel.

(** ** The methods of a chat on a populated document

    [populate('participants')] and [populate('messages.sender')] put the
    user documents in the place of the identifiers: an element of
    [participants] without a user is dropped from the array, a [sender]
    without a user is [null]. The methods compare [x.toString()] with
    [userId.toString()]. On an ObjectId [toString()] is the hexadecimal text
    of the identifier; on a document it is [Document.prototype.toString],
    the inspected document, which is the text of no identifier. *)
Module Populated.
Import ChatModel.

Inductive Text :=
| Hex (id : ObjectId)        (* the text of an identifier *)
| Inspected (id : ObjectId). (* the text of the document stored under [id] *)

#[global] Instance Text_eq_dec : EqDecision Text.
Proof. solve_decision. Defined.

Definition participants (us : gmap ObjectId UserModel.User) (this : Chat) : list ObjectId :=
  filter (λ p, is_Some (us !! p)) (participants this).

(** [isParticipant(userId)] *)
Definition isParticipant (us : gmap ObjectId UserModel.User) (this : Chat)
    (userId : ObjectId) : bool :=
  existsb (λ participant, bool_decide (Inspected participant = Hex userId))
    (participants us this).

(** The test of the [forEach] body of [markAsRead]; [None] when
    [message.sender] is [null] and [toString()] is called on it. *)
Definition unreadFor (us : gmap ObjectId UserModel.User) (userId : ObjectId) (m : Message)
  : option bool :=
  if isRead m then Some false
  else
    match us !! sender m with
    | None => None
    | Some _ => Some (negb (bool_decide (Inspected (sender m) = Hex userId)))
    end.

Definition readBy (us : gmap ObjectId UserModel.User) (userId : ObjectId) (nw : Z)
    (m : Message) : option Message :=
  unread ← unreadFor us userId m;
  Some (if unread : bool then readMessage nw m else m).

(** [markAsRead(userId)]; [None] when the callback throws. *)
Definition markAsRead (us : gmap ObjectId UserModel.User) (this : Chat) (userId : ObjectId)
    (e : Env) : option Chat :=
  ms ← mapM (readBy us userId (now e)) (messages this);
  let hasUnread := existsb (λ m, default false (unreadFor us userId m)) (messages this) in
  Some (assign this ms (lastMessage this)
          (if hasUnread then <[userId := 0]> (unreadCount this) else unreadCount this)
          (isActive this) (blockedBy this)).

End Populated.

(** ** The database *)

Record Db := {
  listings : gmap ObjectId ListingModel.Listing;
  users : gmap ObjectId UserModel.User;
  orders : gmap ObjectId OrderModel.Order;
  chats : gmap ObjectId ChatModel.Chat;
}.

Definition with_listings (ls : gmap ObjectId ListingModel.Listing) (db : Db) : Db :=
  {| listings := ls; users := users db; orders := orders db; chats := chats db |}.

Definition with_users (us : gmap ObjectId UserModel.User) (db : Db) : Db :=
  {| listings := listings db; users := us; orders := orders db; chats := chats db |}.

Definition with_orders (os : gmap ObjectId OrderModel.Order) (db : Db) : Db :=
  {| listings := listings db; users := users db; orders := os; chats := chats db |}.

Definition with_chats (cs : gmap ObjectId ChatModel.Chat) (db : Db) : Db :=
  {| listings := listings db; users := users db; orders := orders db; chats := cs |}.

(** [order.save()] of a document loaded under [id]. The paths the schema
    constrains are the order number and the prices, which no handler
    assigns to a stored order, and the scores, which [OrderModel.addRating]
    checks as it assigns them. *)
Definition saveOrder (id : ObjectId) (o : OrderModel.Order) (db : Db) : Db :=
  with_orders (<[id := o]> (orders db)) db.

(** [chat.save({ validateBeforeSave: false })] of a document loaded under
    [id], as the methods of the model call it: the pre('save') hook runs,
    the schema validation does not. A handler that calls [chat.save()]
    checks [ChatModel.validate] first. *)
Definition saveChat (id : ObjectId) (c : ChatModel.Chat) (db : Db) : option Db :=
  if ChatModel.pre_save_ok c then Some (with_chats (<[id := c]> (chats db)) db) else None.

(** [Listing.findByIdAndUpdate(id, {status})]: no hook runs, a missing
    listing is left missing. *)
Definition setListingStatus (id : ObjectId) (s : ListingModel.ListingStatus) (db : Db) : Db :=
  with_listings (alter (ListingModel.set_status s) id (listings db)) db.

(** ** validation.middleware.js

    A rule chain either answers 400 itself or passes the sanitized body on.
    Identifiers are well-formed by their type ([isMongoId]), statuses and
    message types are members of their enumerations ([isIn]). *)
Module Validation.

Definition validation_failed : Response := fail "Validation failed" 400.

(** validator's [isLength] does not count code units: it takes [str.length]
    less the variation selectors U+FE0E and U+FE0F and less the surrogate
    pairs (the matches of [/[\uD800-\uDBFF][\uDC00-\uDFFF]/g], found from
    left to right), so that a pair counts for one character. *)
Definition is_selector (u : N) : bool := ((u =? 65038) || (u =? 65039))%N.

Definition is_high (u : N) : bool := ((55296 <=? u) && (u <=? 56319))%N.

Definition is_low (u : N) : bool := ((56320 <=? u) && (u <=? 57343))%N.

Fixpoint surrogatePairs (s : Js.String) : nat :=
  match s with
  | hi :: t =>
      match t with
      | lo :: r => if is_high hi && is_low lo then S (surrogatePairs r) else surrogatePairs t
      | [] => O
      end
  | [] => O
  end.

Definition charCount (s : Js.String) : Z :=
  Z.of_nat (List.length s) - Z.of_nat (List.length (filter (λ u, is_selector u = true) s))
  - Z.of_nat (surrogatePairs s).

(** [isLength({max})]: [min] is 0 when it is not given. *)
Definition isLength (max : Z) (s : Js.String) : bool :=
  (0 <=? charCount s) && (charCount s <=? max).

(** [optional().trim()] followed by [isLength({max})] *)
Definition optional_text (max : Z) (s : option Js.String) : option (option Js.String) :=
  match s with
  | None => Some None
  | Some t =>
      let t' := Js.trim t in
      if isLength max t' then Some (Some t') else None
  end.

(** [sendMessageValidation]: [trim()], [notEmpty()], [isLength({max: 2000})];
    the trimmed content, when it is accepted. *)
Definition sendMessageValidation (content : Js.String) : option Js.String :=
  let c := Js.trim content in
  if bool_decide (c = []) then None
  else if isLength 2000 c then Some c else None.

(** [addRatingValidation] *)
Definition addRatingValidation (score : Z) (review : option Js.String)
  : option (option Js.String) :=
  if (1 <=? score) && (score <=? 5) then optional_text 500 review else None.

(** [updateOrderStatusValidation] *)
Definition updateOrderStatusValidation (note : option Js.String) : option (option Js.String) :=
  optional_text 500 note.

(** [createOrderValidation]: [finalPrice] is a float not below 0, and a
    meetup location, when given, is not blank. *)
Definition createOrderValidation (finalPrice : Qc)
    (meetupDetails : option OrderModel.MeetupDetails)
  : option (option OrderModel.MeetupDetails) :=
  if bool_decide (0 <= finalPrice)%Qc then
    match meetupDetails with
    | None => Some None
    | Some md =>
        match OrderModel.location md with
        | None => Some (Some md)
        | Some l =>
            if bool_decide (Js.trim l = []) then None
            else Some (Some {| OrderModel.location := Some (Js.trim l);
                               OrderModel.date := OrderModel.date md;
                               OrderModel.time := OrderModel.time md;
                               OrderModel.additionalInfo := OrderModel.additionalInfo md |})
        end
    end
  else None.

End Validation.

(** ** order.controller.js *)
Module OrderController.
Import OrderModel.

Record CreateOrderBody := {
  listingId : ObjectId;
  body_finalPrice : Qc;
  body_negotiatedPrice : option Qc;
  body_meetupDetails : option MeetupDetails;
  body_notes : option Js.String;
}.

(** The object handed to [Order.create]: it has no [orderNumber]. *)
Definition orderToCreate (user : ReqUser) (e : Env) (b : CreateOrderBody)
    (l : ListingModel.Listing) : Order :=
  {| orderNumber := None;
     buyer := user_id user;
     seller := ListingModel.seller l;
     listing := listingId b;
     listingSnapshot :=
       {| snap_title := ListingModel.title l;
          snap_description := ListingModel.description l;
          snap_images := ListingModel.url <$> ListingModel.images l;
          snap_category := ListingModel.category l |};
     price := ListingModel.price l;
     negotiatedPrice := body_negotiatedPrice b;
     finalPrice := body_finalPrice b;
     status := pending;
     meetupDetails := body_meetupDetails b;
     timeline := [{| tl_status := pending; tl_timestamp := now e; tl_note := "Order created" |}];
     rating := {| buyerRating := None; sellerRating := None |};
     cancellation := None;
     dispute := None;
     notes := {| buyer_note := body_notes b; seller_note := None |} |}.

(** The unique indexes of the collection: [_id] and [orderNumber]. *)
Definition insertable (id : ObjectId) (o : Order) (os : gmap ObjectId Order) : bool :=
  bool_decide (os !! id = None) &&
  negb (existsb (λ o', bool_decide (orderNumber o' = orderNumber o)) (docs os)).

Definition pushOrder (uid oid : ObjectId) (db : Db) : Db :=
  with_users (alter (UserModel.push_order oid) uid (users db)) db.

Definition createOrderWith (numbered : bool) (db : Db) (user : ReqUser) (e : Env)
    (b : CreateOrderBody) : Db * Response :=
  match listings db !! listingId b with
  | None => (db, fail "Listing not found" 404)
  | Some l =>
      if negb (bool_decide (ListingModel.status l = ListingModel.active))
      then (db, fail "This listing is not available" 400)
      else
        match users db !! ListingModel.seller l with
        | None => (db, throw "TypeError")
        | Some _ =>
            if bool_decide (ListingModel.seller l = user_id user)
            then (db, fail "You cannot buy your own listing" 400)
            else if bool_decide (body_finalPrice b < 0)%Qc
            then (db, fail "Invalid price" 400)
            else
              match create numbered e (orderToCreate user e b l) with
              | inl error => (db, throw error)
              | inr order =>
                  if negb (insertable (newId e) order (orders db))
                  then (db, throw "MongoServerError")
                  else
                    let db1 := saveOrder (newId e) order db in
                    if negb (ListingModel.pre_save_ok l) then (db1, throw "Error")
                    else
                      let db2 :=
                        with_listings
                          (<[listingId b := ListingModel.set_status ListingModel.reserved l]>
                             (listings db1)) db1 in
                      let db3 := pushOrder (user_id user) (newId e) db2 in
                      let db4 := pushOrder (ListingModel.seller l) (newId e) db3 in
                      (db4, ok 201 "Order created successfully"
                              [{| room := ListingModel.seller l; event := "new-order" |}])
              end
        end
  end.

(** The handler of the program: the document is validated as it is handed
    over. *)
Definition createOrder (db : Db) (user : ReqUser) (e : Env) (b : CreateOrderBody)
  : Db * Response := createOrderWith false db user e b.

Definition validTransitions (s : OrderStatus) : list OrderStatus :=
  match s with
  | pending => [confirmed; cancelled]
  | confirmed => [meetup_scheduled; cancelled]
  | meetup_scheduled => [in_progress; cancelled]
  | in_progress => [completed; disputed]
  | completed => []
  | cancelled => []
  | disputed => [completed; cancelled]
  end.

Definition isAdmin (user : ReqUser) : bool :=
  match role user with admin => true | student => false end.

Definition updateOrderStatus (db : Db) (user : ReqUser) (e : Env) (id : ObjectId)
    (newStatus : OrderStatus) (note : option Js.String) : Db * Response :=
  match orders db !! id with
  | None => (db, fail "Order not found" 404)
  | Some order =>
      let isBuyer := bool_decide (buyer order = user_id user) in
      let isSeller := bool_decide (seller order = user_id user) in
      if negb isBuyer && negb isSeller && negb (isAdmin user)
      then (db, fail "Not authorized to update this order" 403)
      else if negb (bool_decide (newStatus ∈ validTransitions (status order)))
      then (db, fail ("Cannot change status from " ++ status_name (status order) ++
                      " to " ++ status_name newStatus) 400)
      else
        let db1 := saveOrder id (updateStatus order newStatus note e) db in
        let db2 := if bool_decide (newStatus = completed)
                   then setListingStatus (listing order) ListingModel.sold db1 else db1 in
        let db3 := if bool_decide (newStatus = cancelled)
                   then setListingStatus (listing order) ListingModel.active db2 else db2 in
        let recipientId := if isBuyer then seller order else buyer order in
        match users db3 !! recipientId with
        | None => (db3, throw "TypeError")
        | Some _ =>
            (db3, ok 200 "Order status updated successfully"
                    [{| room := recipientId; event := "order-status-update" |}])
        end
  end.

Definition updateMeetupDetails (db : Db) (user : ReqUser) (e : Env) (id : ObjectId)
    (md : MeetupDetails) : Db * Response :=
  match orders db !! id with
  | None => (db, fail "Order not found" 404)
  | Some order =>
      if negb (bool_decide (buyer order = user_id user)) &&
         negb (bool_decide (seller order = user_id user))
      then (db, fail "Not authorized to update this order" 403)
      else
        let order1 := assign order (status order) (Some md) (timeline order)
                        (rating order) (cancellation order) (dispute order) (notes order) in
        let order2 := if bool_decide (status order1 = confirmed)
                      then updateStatus order1 meetup_scheduled (Some (Js.str "Meetup details added")) e
                      else order1 in
        let recipientId := if bool_decide (user_id user = buyer order)
                           then seller order else buyer order in
        (saveOrder id order2 db,
         ok 200 "Meetup details updated successfully"
            [{| room := recipientId; event := "meetup-updated" |}])
  end.

(** [existingRating?.score] as a condition *)
Definition hasScore (slot : option Rating) : bool :=
  match slot with
  | Some r => negb (score r =? 0)
  | None => false
  end.

Definition addRating (db : Db) (user : ReqUser) (e : Env) (id : ObjectId)
    (sc : Z) (rv : option Js.String) : Db * Response :=
  match orders db !! id with
  | None => (db, fail "Order not found" 404)
  | Some order =>
      if negb (canBeRated order)
      then (db, fail "Only completed orders can be rated" 400)
      else
        let isBuyer := bool_decide (buyer order = user_id user) in
        let isSeller := bool_decide (seller order = user_id user) in
        if negb isBuyer && negb isSeller
        then (db, fail "Not authorized to rate this order" 403)
        else
          let existingRating := if isBuyer then buyerRating (rating order)
                                else sellerRating (rating order) in
          if hasScore existingRating
          then (db, fail "You have already rated this order" 400)
          else
            match OrderModel.addRating id order (user_id user) sc rv e (orders db) (users db) with
            | None => (db, throw "ValidationError")
            | Some (os, us) =>
                (with_users us (with_orders os db), ok 200 "Rating added successfully" [])
            end
  end.

Definition cancelOrder (db : Db) (user : ReqUser) (e : Env) (id : ObjectId)
    (reason : Js.String) : Db * Response :=
  if bool_decide (reason = EmptyString) then (db, fail "Cancellation reason is required" 400)
  else
    match orders db !! id with
    | None => (db, fail "Order not found" 404)
    | Some order =>
        if negb (bool_decide (buyer order = user_id user)) &&
           negb (bool_decide (seller order = user_id user))
        then (db, fail "Not authorized to cancel this order" 403)
        else if negb (canBeCancelled order)
        then (db, fail "This order cannot be cancelled at this stage" 400)
        else
          let db1 := saveOrder id (cancel order (user_id user) reason e) db in
          let db2 := setListingStatus (listing order) ListingModel.active db1 in
          let recipientId := if bool_decide (user_id user = buyer order)
                             then seller order else buyer order in
          (db2, ok 200 "Order cancelled successfully"
                  [{| room := recipientId; event := "order-cancelled" |}])
    end.

Definition initiateDispute (db : Db) (user : ReqUser) (e : Env) (id : ObjectId)
    (reason : Js.String) : Db * Response :=
  if bool_decide (reason = EmptyString) then (db, fail "Dispute reason is required" 400)
  else
    match orders db !! id with
    | None => (db, fail "Order not found" 404)
    | Some order =>
        if negb (bool_decide (buyer order = user_id user)) &&
           negb (bool_decide (seller order = user_id user))
        then (db, fail "Not authorized to dispute this order" 403)
        else if bool_decide (status order = disputed)
        then (db, fail "This order is already in dispute" 400)
        else
          (saveOrder id (OrderModel.initiateDispute order (user_id user) reason e) db,
           ok 200 "Dispute initiated. Our team will review and contact you shortly." [])
    end.

Definition addNotes (db : Db) (user : ReqUser) (id : ObjectId) (text : Js.String)
  : Db * Response :=
  if bool_decide (text = EmptyString) then (db, fail "Notes are required" 400)
  else
    match orders db !! id with
    | None => (db, fail "Order not found" 404)
    | Some order =>
        let isBuyer := bool_decide (buyer order = user_id user) in
        let isSeller := bool_decide (seller order = user_id user) in
        if negb isBuyer && negb isSeller
        then (db, fail "Not authorized to update this order" 403)
        else
          let nt := if isBuyer
                    then {| buyer_note := Some text; seller_note := seller_note (notes order) |}
                    else {| buyer_note := buyer_note (notes order); seller_note := Some text |} in
          (saveOrder id
             (assign order (status order) (meetupDetails order) (timeline order)
                (rating order) (cancellation order) (dispute order) nt) db,
           ok 200 "Notes updated successfully" [])
    end.

End OrderController.

(** ** chat.controller.js *)
Module ChatController.
Import ChatModel.

Record OfferBody := { body_amount : option Qc }.

Record SendMessageBody := {
  body_content : Js.String;
  body_type : option MessageType;
  body_image : option ListingModel.Image;
  body_offer : option OfferBody;
}.

Definition getOrCreateChat (db : Db) (user : ReqUser) (e : Env)
    (listingId sellerId : ObjectId) : Db * Response :=
  if bool_decide (listingId = EmptyString) || bool_decide (sellerId = EmptyString)
  then (db, fail "Listing ID and Seller ID are required" 400)
  else
    match listings db !! listingId with
    | None => (db, fail "Listing not found" 404)
    | Some l =>
        if bool_decide (sellerId = user_id user)
        then (db, fail "You cannot chat with yourself" 400)
        else if negb (bool_decide (ListingModel.seller l = sellerId))
        then (db, fail "Invalid seller for this listing" 400)
        else
          match findOrCreate (user_id user) sellerId listingId e (chats db) with
          | None => (db, throw "MongoServerError")
          | Some cs => (with_chats cs db, ok 200 EmptyString [])
          end
    end.

(** The chat is loaded with [participants] and [messages.sender] populated,
    and the two methods run on the populated document. *)
Definition getChatById (db : Db) (user : ReqUser) (e : Env) (id : ObjectId)
  : Db * Response :=
  match chats db !! id with
  | None => (db, fail "Chat not found" 404)
  | Some chat =>
      if negb (Populated.isParticipant (users db) chat (user_id user))
      then (db, fail "Not authorized to access this chat" 403)
      else
        match Populated.markAsRead (users db) chat (user_id user) e with
        | None => (db, throw "TypeError")
        | Some chat' =>
            match saveChat id chat' db with
            | None => (db, throw "Error")
            | Some db1 => (db1, ok 200 EmptyString [])
            end
        end
  end.

(** The chat is loaded as it is stored. *)
Definition markChatAsRead (db : Db) (user : ReqUser) (e : Env) (id : ObjectId)
  : Db * Response :=
  match chats db !! id with
  | None => (db, fail "Chat not found" 404)
  | Some chat =>
      if negb (isParticipant chat (user_id user))
      then (db, fail "Not authorized to access this chat" 403)
      else
        match saveChat id (markAsRead chat (user_id user) e) db with
        | None => (db, throw "Error")
        | Some db1 => (db1, ok 200 "Chat marked as read" [])
        end
  end.

(** The subdocument that [chat.messages.push(message)] casts the object
    literal into; its timestamp is set by the save that follows. *)
Definition newMessage (user : ReqUser) (e : Env) (b : SendMessageBody) : Message :=
  let type := default text (body_type b) in
  {| _id := newId e;
     sender := user_id user;
     content := Js.trim (body_content b);
     type := type;
     image_payload := if bool_decide (type = image) then body_image b else None;
     offer_payload :=
       match body_offer b with
       | Some o =>
           if bool_decide (type = offer)
           then {| amount := body_amount o; offer_status := offer_pending |}
           else {| amount := None; offer_status := offer_pending |}
       | None => {| amount := None; offer_status := offer_pending |}
       end;
     isRead := false;
     readAt := None;
     createdAt := now e |}.

(** [chat.participants.find((p) => p.toString() !== req.user._id.toString())] *)
Definition otherParticipant (chat : Chat) (user : ReqUser) : option ObjectId :=
  snd <$> list_find (λ p, p ≠ user_id user) (participants chat).

Definition sendMessage (db : Db) (user : ReqUser) (e : Env) (id : ObjectId)
    (b : SendMessageBody) : Db * Response :=
  match chats db !! id with
  | None => (db, fail "Chat not found" 404)
  | Some chat =>
      if negb (isParticipant chat (user_id user))
      then (db, fail "Not authorized to send messages in this chat" 403)
      else if isBlockedBy chat (user_id user)
      then (db, fail "You have blocked this chat" 403)
      else
        match otherParticipant chat user with
        | None =>
            (* [recipient] is undefined: [isBlockedBy] throws as soon as its
               callback runs, [incrementUnread] throws after the first save. *)
            match blockedBy chat with
            | _ :: _ => (db, throw "TypeError")
            | [] =>
                let chat1 := assign chat (messages chat ++ [newMessage user e b])
                               (lastMessage chat) (unreadCount chat) (isActive chat)
                               (blockedBy chat) in
                match saveChat id
                        (updateLastMessage chat1 (body_content b) (user_id user) None) db with
                | None => (db, throw "Error")
                | Some db1 => (db1, throw "TypeError")
                end
            end
        | Some recipient =>
            if isBlockedBy chat recipient
            then (db, fail "You cannot send messages to this user" 403)
            else
              let chat1 := assign chat (messages chat ++ [newMessage user e b])
                             (lastMessage chat) (unreadCount chat) (isActive chat)
                             (blockedBy chat) in
              (* [message] is the object literal: it has no [createdAt]. *)
              let chat2 := updateLastMessage chat1 (body_content b) (user_id user) None in
              match saveChat id chat2 db with
              | None => (db, throw "Error")
              | Some db1 =>
                  match saveChat id (incrementUnread chat2 recipient) db1 with
                  | None => (db1, throw "Error")
                  | Some db2 =>
                      (db2, ok 201 "Message sent successfully"
                              [{| room := recipient; event := "new-message" |}])
                  end
              end
        end
  end.

Definition deleteChat (db : Db) (user : ReqUser) (id : ObjectId) : Db * Response :=
  match chats db !! id with
  | None => (db, fail "Chat not found" 404)
  | Some chat =>
      if negb (isParticipant chat (user_id user))
      then (db, fail "Not authorized to delete this chat" 403)
      else if negb (validate chat) then (db, throw "ValidationError")
      else
        match saveChat id (assign chat (messages chat) (lastMessage chat)
                             (unreadCount chat) false (blockedBy chat)) db with
        | None => (db, throw "Error")
        | Some db1 => (db1, ok 200 "Chat deleted successfully" [])
        end
  end.

Definition toggleBlockChat (db : Db) (user : ReqUser) (id : ObjectId) : Db * Response :=
  match chats db !! id with
  | None => (db, fail "Chat not found" 404)
  | Some chat =>
      if negb (isParticipant chat (user_id user))
      then (db, fail "Not authorized to modify this chat" 403)
      else
        let isBlocked := isBlockedBy chat (user_id user) in
        let bl : list ObjectId :=
                  if isBlocked
                  then filter (λ i, i ≠ user_id user) (blockedBy chat)
                  else (blockedBy chat ++ [user_id user])%list in
        if negb (validate chat) then (db, throw "ValidationError")
        else
        match saveChat id (assign chat (messages chat) (lastMessage chat)
                             (unreadCount chat) (isActive chat) bl) db with
        | None => (db, throw "Error")
        | Some db1 =>
            (db1, ok 200 (if isBlocked then "Chat unblocked successfully"
                          else "Chat blocked successfully") [])
        end
  end.

(** The offer status a response string is stored as. *)
Definition responseStatus (status : string) : option OfferStatus :=
  if bool_decide (status = "accepted") then Some offer_accepted
  else if bool_decide (status = "rejected") then Some offer_rejected
  else None.

Definition setOfferStatus (s : OfferStatus) (m : Message) : Message :=
  {| _id := _id m; sender := sender m; content := content m; type := type m;
     image_payload := image_payload m;
     offer_payload := {| amount := amount (offer_payload m); offer_status := s |};
     isRead := isRead m; readAt := readAt m; createdAt := createdAt m |}.

Definition respondToOffer (db : Db) (user : ReqUser) (chatId messageId : ObjectId)
    (status : string) : Db * Response :=
  match responseStatus status with
  | None => (db, fail ("Invalid status. Use " ++ Js.quoted "accepted" ++ " or " ++ Js.quoted "rejected") 400)
  | Some st =>
      match chats db !! chatId with
      | None => (db, fail "Chat not found" 404)
      | Some chat =>
          match listings db !! listing chat with
          | None => (db, throw "TypeError")
          | Some l =>
              if negb (bool_decide (ListingModel.seller l = user_id user))
              then (db, fail "Only the seller can respond to offers" 403)
              else
                (* chat.messages.id(messageId) *)
                match list_find (λ m, _id m = messageId) (messages chat) with
                | None => (db, fail "Message not found" 404)
                | Some (i, message) =>
                    if negb (bool_decide (type message = offer))
                    then (db, fail "This message is not an offer" 400)
                    else if negb (bool_decide (offer_status (offer_payload message) = offer_pending))
                    then (db, fail "This offer has already been responded to" 400)
                    else if negb (validate chat) then (db, throw "ValidationError")
                    else
                      match saveChat chatId
                              (assign chat (<[i := setOfferStatus st message]> (messages chat))
                                 (lastMessage chat) (unreadCount chat) (isActive chat)
                                 (blockedBy chat)) db with
                      | None => (db, throw "Error")
                      | Some db1 =>
                          match otherParticipant chat user with
                          | None => (db1, throw "TypeError")
                          | Some buyer =>
                              (db1, ok 200 ("Offer " ++ status)
                                      [{| room := buyer; event := "offer-response" |}])
                          end
                      end
                end
          end
      end
  end.

End ChatController.

(** ** order.routes.js and chat.routes.js

    A request is answered by its validation chain followed by its handler;
    the handler sees the body as the chain sanitized it. *)

Inductive Request :=
| PostOrder (b : OrderController.CreateOrderBody)
| PutOrderStatus (id : ObjectId) (status : OrderModel.OrderStatus) (note : option Js.String)
| PutOrderMeetup (id : ObjectId) (md : OrderModel.MeetupDetails)
| PostOrderRating (id : ObjectId) (score : Z) (review : option Js.String)
| PostOrderCancel (id : ObjectId) (reason : Js.String)
| PostOrderDispute (id : ObjectId) (reason : Js.String)
| PutOrderNotes (id : ObjectId) (notes : Js.String)
| PostChat (listingId sellerId : ObjectId)
| GetChat (id : ObjectId)
| PostChatMessage (id : ObjectId) (b : ChatController.SendMessageBody)
| PutChatRead (id : ObjectId)
| DeleteChat (id : ObjectId)
| PutChatBlock (id : ObjectId)
| PutChatOffer (chatId messageId : ObjectId) (status : string).

Definition route (db : Db) (user : ReqUser) (e : Env) (rq : Request) : Db * Response :=
  match rq with
  | PostOrder b =>
      match Validation.createOrderValidation (OrderController.body_finalPrice b)
              (OrderController.body_meetupDetails b) with
      | None => (db, Validation.validation_failed)
      | Some md =>
          OrderController.createOrder db user e
            {| OrderController.listingId := OrderController.listingId b;
               OrderController.body_finalPrice := OrderController.body_finalPrice b;
               OrderController.body_negotiatedPrice := OrderController.body_negotiatedPrice b;
               OrderController.body_meetupDetails := md;
               OrderController.body_notes := OrderController.body_notes b |}
      end
  | PutOrderStatus id status note =>
      match Validation.updateOrderStatusValidation note with
      | None => (db, Validation.validation_failed)
      | Some note' => OrderController.updateOrderStatus db user e id status note'
      end
  | PutOrderMeetup id md => OrderController.updateMeetupDetails db user e id md
  | PostOrderRating id score review =>
      match Validation.addRatingValidation score review with
      | None => (db, Validation.validation_failed)
      | Some review' => OrderController.addRating db user e id score review'
      end
  | PostOrderCancel id reason => OrderController.cancelOrder db user e id reason
  | PostOrderDispute id reason => OrderController.initiateDispute db user e id reason
  | PutOrderNotes id notes => OrderController.addNotes db user id notes
  | PostChat listingId sellerId => ChatController.getOrCreateChat db user e listingId sellerId
  | GetChat id => ChatController.getChatById db user e id
  | PostChatMessage id b =>
      match Validation.sendMessageValidation (ChatController.body_content b) with
      | None => (db, Validation.validation_failed)
      | Some content' =>
          ChatController.sendMessage db user e id
            {| ChatController.body_content := content';
               ChatController.body_type := ChatController.body_type b;
               ChatController.body_image := ChatController.body_image b;
               ChatController.body_offer := ChatController.body_offer b |}
      end
  | PutChatRead id => ChatController.markChatAsRead db user e id
  | DeleteChat id => ChatController.deleteChat db user id
  | PutChatBlock id => ChatController.toggleBlockChat db user id
  | PutChatOffer chatId messageId status =>
      ChatController.respondToOffer db user chatId messageId status
  end.

(** The databases the server can be in: it starts without orders and chats,
    answers requests one after the other, and the listing registry and the
    user profiles may be rewritten by the parts of the application that are
    not modelled (listing, user and auth controllers).

    [createOrder] as it stands stores no order. So that what is proved of
    stored orders says something, orders are taken to enter the collection
    the way the handler would store them if the order number were assigned
    before the validation ([reach_order]): every database the program can
    reach is reachable in this sense. *)
Inductive reachable : Db -> Prop :=
| reach_start ls us :
    reachable {| listings := ls; users := us; orders := ∅; chats := ∅ |}
| reach_request db user e rq :
    reachable db -> reachable (route db user e rq).1
| reach_order db user e b :
    reachable db -> reachable (OrderController.createOrderWith true db user e b).1
| reach_registry db ls us :
    reachable db -> reachable (with_users us (with_listings ls db)).

(** ** Properties of documents *)

(** The status of the last timeline entry. *)
Definition lastTimelineStatus (o : OrderModel.Order) : option OrderModel.OrderStatus :=
  OrderModel.tl_status <$> list.last (OrderModel.timeline o).

Definition slot_ok (slot : option OrderModel.Rating) : Prop :=
  ∀ r, slot = Some r → 1 <= OrderModel.score r <= 5.

Definition order_ok (o : OrderModel.Order) : Prop :=
  lastTimelineStatus o = Some (OrderModel.status o) ∧
  slot_ok (OrderModel.buyerRating (OrderModel.rating o)) ∧
  slot_ok (OrderModel.sellerRating (OrderModel.rating o)).

(** The number of messages that [u] has not read. *)
Definition unreadMessages (u : ObjectId) (ms : list ChatModel.Message) : Z :=
  Z.of_nat (List.length (filter (λ m, ChatModel.isRead m = false ∧ ChatModel.sender m ≠ u) ms)).

Definition chat_ok (c : ChatModel.Chat) : Prop :=
  (∃ a b, ChatModel.participants c = [a; b] ∧ a ≠ b) ∧
  Forall (λ m, ChatModel.sender m ∈ ChatModel.participants c) (ChatModel.messages c) ∧
  ∀ u, u ∈ ChatModel.participants c →
       ChatModel.unreadOf c u = unreadMessages u (ChatModel.messages c).

Definition db_ok (db : Db) : Prop :=
  map_Forall (λ _ o, order_ok o) (orders db) ∧
  map_Forall (λ _ c, chat_ok c) (chats db).

(** ** The specification's words *)

(** The transition table of the order state machine. *)
Inductive transition : OrderModel.OrderStatus -> OrderModel.OrderStatus -> Prop :=
| t_pending_confirmed : transition OrderModel.pending OrderModel.confirmed
| t_pending_cancelled : transition OrderModel.pending OrderModel.cancelled
| t_confirmed_scheduled : transition OrderModel.confirmed OrderModel.meetup_scheduled
| t_confirmed_cancelled : transition OrderModel.confirmed OrderModel.cancelled
| t_scheduled_progress : transition OrderModel.meetup_scheduled OrderModel.in_progress
| t_scheduled_cancelled : transition OrderModel.meetup_scheduled OrderModel.cancelled
| t_progress_completed : transition OrderModel.in_progress OrderModel.completed
| t_progress_disputed : transition OrderModel.in_progress OrderModel.disputed
| t_disputed_completed : transition OrderModel.disputed OrderModel.completed
| t_disputed_cancelled : transition OrderModel.disputed OrderModel.cancelled.

(** A listing is the listing [l] with the status [s], nothing else changed. *)
Definition flipped (s : ListingModel.ListingStatus) (l l' : ListingModel.Listing) : Prop :=
  ListingModel.status l' = s ∧
  ListingModel.title l' = ListingModel.title l ∧
  ListingModel.description l' = ListingModel.description l ∧
  ListingModel.category l' = ListingModel.category l ∧
  ListingModel.price l' = ListingModel.price l ∧
  ListingModel.images l' = ListingModel.images l ∧
  ListingModel.seller l' = ListingModel.seller l.

(** The acting user is the buyer or the seller of the order. *)
Definition party (user : ReqUser) (o : OrderModel.Order) : Prop :=
  OrderModel.buyer o = user_id user ∨ OrderModel.seller o = user_id user.

(** The rating slot the acting user writes. *)
Definition slotOf (user : ReqUser) (o : OrderModel.Order) : option OrderModel.Rating :=
  if bool_decide (OrderModel.buyer o = user_id user)
  then OrderModel.buyerRating (OrderModel.rating o)
  else OrderModel.sellerRating (OrderModel.rating o).

Definition scoreOf (slot : option OrderModel.Rating) : list Z :=
  match slot with Some r => [OrderModel.score r] | None => [] end.

(** Scores [u] has received as the seller of a completed order (from its
    buyer), and as the buyer of a completed order (from its seller). *)
Definition scoresAsSeller (os : gmap ObjectId OrderModel.Order) (u : ObjectId) : list Z :=
  docs os ≫= λ o,
    if bool_decide (OrderModel.status o = OrderModel.completed ∧ OrderModel.seller o = u)
    then scoreOf (OrderModel.buyerRating (OrderModel.rating o)) else [].

Definition scoresAsBuyer (os : gmap ObjectId OrderModel.Order) (u : ObjectId) : list Z :=
  docs os ≫= λ o,
    if bool_decide (OrderModel.status o = OrderModel.completed ∧ OrderModel.buyer o = u)
    then scoreOf (OrderModel.sellerRating (OrderModel.rating o)) else [].

(** All scores [u] has received across all completed orders. *)
Definition scoresReceived (os : gmap ObjectId OrderModel.Order) (u : ObjectId) : list Z :=
  docs os ≫= λ o,
    if bool_decide (OrderModel.status o = OrderModel.completed)
    then ((if bool_decide (OrderModel.seller o = u)
           then scoreOf (OrderModel.buyerRating (OrderModel.rating o)) else []) ++
          (if bool_decide (OrderModel.buyer o = u)
           then scoreOf (OrderModel.sellerRating (OrderModel.rating o)) else []))%list
    else [].

(** The sum and the mean of a list of scores as doubles compute them: the
    scores are added one after the other, starting from 0, and the sum is
    divided by their number. *)
Definition total (l : list Z) : float := foldl (λ sum x, sum + Js.number x)%float 0%float l.

Definition mean (l : list Z) : float :=
  (total l / Js.number (Z.of_nat (List.length l)))%float.

(** A message of [ms'] is the message of [ms] at the same place: when it
    was an unread message of somebody else than [u] it is now flagged read
    with the read time [t], otherwise its flag and its read time are as they
    were; its other fields are kept. *)
Definition markedRead (u : ObjectId) (t : Z) (m m' : ChatModel.Message) : Prop :=
  ChatModel._id m' = ChatModel._id m ∧
  ChatModel.sender m' = ChatModel.sender m ∧
  ChatModel.content m' = ChatModel.content m ∧
  ChatModel.type m' = ChatModel.type m ∧
  ChatModel.image_payload m' = ChatModel.image_payload m ∧
  ChatModel.offer_payload m' = ChatModel.offer_payload m ∧
  ChatModel.createdAt m' = ChatModel.createdAt m ∧
  if bool_decide (ChatModel.sender m ≠ u ∧ ChatModel.isRead m = false)
  then ChatModel.isRead m' = true ∧ ChatModel.readAt m' = Some t
  else ChatModel.isRead m' = ChatModel.isRead m ∧ ChatModel.readAt m' = ChatModel.readAt m.

(** The content of a message as the preview keeps it. *)
Definition truncated (s : Js.String) : Js.String := Js.substring0 100 s.

(** The scores the handler's query concerns: those received as seller when
    the buyer rates, as buyer when the seller rates. *)
Definition scoresAs (byBuyer : bool) (os : gmap ObjectId OrderModel.Order) (u : ObjectId)
  : list Z :=
  if byBuyer then scoresAsSeller os u else scoresAsBuyer os u.

(** The chat after a message of [user] has been stored: the message is
    appended, the preview is refreshed from the object literal, and the
    counter of [recipient] is incremented. *)
Definition sent (c : ChatModel.Chat) (user : ReqUser) (e : Env)
    (b : ChatController.SendMessageBody) (recipient : ObjectId) : ChatModel.Chat :=
  ChatModel.incrementUnread
    (ChatModel.updateLastMessage
       (ChatModel.assign c (ChatModel.messages c ++ [ChatController.newMessage user e b])
          (ChatModel.lastMessage c) (ChatModel.unreadCount c) (ChatModel.isActive c)
          (ChatModel.blockedBy c))
       (ChatController.body_content b) (user_id user) None)
    recipient.

(** The body as the validation chain hands it to the handler. *)
Definition sanitized (b : ChatController.SendMessageBody) : ChatController.SendMessageBody :=
  {| ChatController.body_content := Js.trim (ChatController.body_content b);
     ChatController.body_type := ChatController.body_type b;
     ChatController.body_image := ChatController.body_image b;
     ChatController.body_offer := ChatController.body_offer b |}.

(** ** What a request may do to a collection *)

(** [o'] continues [o]: it is consistent when [o] was, and its timeline
    extends the timeline of [o]. *)
Definition continues (o o' : OrderModel.Order) : Prop :=
  (order_ok o → order_ok o') ∧
  OrderModel.timeline o `prefix_of` OrderModel.timeline o'.

(** At most one order is written, as a continuation of the one stored
    under the same identifier. *)
Definition order_step (os os' : gmap ObjectId OrderModel.Order) : Prop :=
  os' = os ∨
  ∃ k o', os' = <[k := o']> os ∧
          match os !! k with
          | Some o => continues o o'
          | None => order_ok o'
          end.

(** What [chat_ok] looks at in a message. *)
Definition shape (m : ChatModel.Message) : ObjectId * bool :=
  (ChatModel.sender m, ChatModel.isRead m).

Definition chat_step (cs cs' : gmap ObjectId ChatModel.Chat) : Prop :=
  cs' = cs ∨
  ∃ k c', cs' = <[k := c']> cs ∧
          match cs !! k with
          | Some c => chat_ok c → chat_ok c'
          | None => chat_ok c'
          end.

(** ** Scenarios

    Databases obtained by answering requests from an empty start, used to
    exercise the handlers on concrete inputs. *)
Module Scenario.

Definition alice : ReqUser := {| user_id := "alice"; role := student |}.
Definition bob : ReqUser := {| user_id := "bob"; role := student |}.

Definition profile : UserModel.User :=
  {| UserModel.rating := {| UserModel.average := 0%float; UserModel.count := 0 |};
     UserModel.orders := [] |}.

Definition photo : ListingModel.Image :=
  {| ListingModel.url := "https://img/1"; ListingModel.publicId := "img1" |}.

(** Bob sells a lamp, Alice sells a book. *)
Definition lamp : ListingModel.Listing :=
  {| ListingModel.title := "Lamp"; ListingModel.description := "A desk lamp";
     ListingModel.category := "furniture"; ListingModel.price := Qc_of_Z 45;
     ListingModel.images := [photo]; ListingModel.seller := "bob";
     ListingModel.status := ListingModel.active |}.

Definition book : ListingModel.Listing :=
  {| ListingModel.title := "Book"; ListingModel.description := "A textbook";
     ListingModel.category := "textbooks"; ListingModel.price := Qc_of_Z 20;
     ListingModel.images := [photo]; ListingModel.seller := "alice";
     ListingModel.status := ListingModel.active |}.

Definition start : Db :=
  {| listings := <["L1" := lamp]> (<["L2" := book]> ∅);
     users := <["alice" := profile]> (<["bob" := profile]> ∅);
     orders := ∅; chats := ∅ |}.

Definition at_ (t : Z) (id : ObjectId) : Env :=
  {| now := t; random := "7K2QX"; newId := id |}.

(** The database after a sequence of requests. *)
Definition run (db : Db) (steps : list (ReqUser * Env * Request)) : Db :=
  foldl (λ d s, (route d s.1.1 s.1.2 s.2).1) db steps.

Definition offerFor (l : ObjectId) (p : Z) : OrderController.CreateOrderBody :=
  {| OrderController.listingId := l;
     OrderController.body_finalPrice := Qc_of_Z p;
     OrderController.body_negotiatedPrice := None;
     OrderController.body_meetupDetails := None;
     OrderController.body_notes := None |}.

(** The database after an order has entered the collection. *)
Definition place (db : Db) (user : ReqUser) (e : Env) (b : OrderController.CreateOrderBody)
  : Db := (OrderController.createOrderWith true db user e b).1.

(** Alice has ordered the lamp: order "o1" is pending. *)
Definition ordered : Db := place start alice (at_ 1000 "o1") (offerFor "L1" 45).

Definition complete (id : ObjectId) (who : ReqUser) (t : Z)
  : list (ReqUser * Env * Request) :=
  [(who, at_ t "-", PutOrderStatus id OrderModel.confirmed None);
   (who, at_ (t + 1) "-", PutOrderStatus id OrderModel.meetup_scheduled None);
   (who, at_ (t + 2) "-", PutOrderStatus id OrderModel.in_progress None);
   (who, at_ (t + 3) "-", PutOrderStatus id OrderModel.completed None)].

(** Order "o1" has been completed. *)
Definition completed1 : Db := run ordered (complete "o1" bob 2000).

(** Alice has rated Bob 5 for the lamp; then Bob has bought Alice's book
    (order "o2") and that order has been completed as well. *)
Definition twoOrders : Db :=
  run (place (run completed1 [(alice, at_ 3000 "-", PostOrderRating "o1" 5 (Some "great"))])
         bob (at_ 4000 "o2") (offerFor "L2" 20))
    (complete "o2" alice 5000).

(** Alice and Bob talk about the lamp in chat "c1". *)
Definition talking : Db := run start [(alice, at_ 1000 "c1", PostChat "L1" "bob")].

Definition say (s : Js.String) (t : option ChatModel.MessageType)
  : ChatController.SendMessageBody :=
  {| ChatController.body_content := s; ChatController.body_type := t;
     ChatController.body_image := None; ChatController.body_offer := None |}.

Definition bid (s : Js.String) (a : Z) : ChatController.SendMessageBody :=
  {| ChatController.body_content := s; ChatController.body_type := Some ChatModel.offer;
     ChatController.body_image := None;
     ChatController.body_offer := Some {| ChatController.body_amount := Some (Qc_of_Z a) |} |}.

(** Alice has offered 40 for the lamp (message "m1"). *)
Definition offered : Db :=
  run talking [(alice, at_ 2000 "m1", PostChatMessage "c1" (bid "Would you take 40?" 40))].

End Scenario.

(** ** Handlers that only read *)
Module Reads.

(** order.controller.js, [getOrderById]: the order is populated before the
    caller is checked, and [&&] stops at the first identifier that is the
    caller's. *)
Definition getOrderById (db : Db) (user : ReqUser) (id : ObjectId) : Response :=
  match orders db !! id with
  | None => fail "Order not found" 404
  | Some order =>
      match users db !! OrderModel.buyer order with
      | None => throw "TypeError"
      | Some _ =>
          if bool_decide (OrderModel.buyer order = user_id user) then ok 200 EmptyString []
          else
            match users db !! OrderModel.seller order with
            | None => throw "TypeError"
            | Some _ =>
                if bool_decide (OrderModel.seller order = user_id user)
                then ok 200 EmptyString []
                else if OrderController.isAdmin user then ok 200 EmptyString []
                else fail "Not authorized to view this order" 403
            end
      end
  end.

(** The filter [{participants: req.user._id, isActive: true}]. *)
Definition activeChatOf (u : ObjectId) (c : ChatModel.Chat) : Prop :=
  u ∈ ChatModel.participants c ∧ ChatModel.isActive c = true.

#[global] Instance activeChatOf_dec u c : Decision (activeChatOf u c).
Proof. unfold activeChatOf. apply _. Defined.

(** chat.controller.js, [getUnreadCount]: the [unreadCount] of the payload;
    the handler always answers 200. *)
Definition getUnreadCount (db : Db) (user : ReqUser) : Z :=
  foldl (λ sum chat, sum + ChatModel.unreadOf chat (user_id user)) 0
    (filter (activeChatOf (user_id user)) (docs (chats db))).

End Reads.

(** ** What a request may do to an order *)

(** The fields of an order that are assigned at creation only. *)
Definition same_identity (o o' : OrderModel.Order) : Prop :=
  OrderModel.orderNumber o' = OrderModel.orderNumber o ∧
  OrderModel.buyer o' = OrderModel.buyer o ∧
  OrderModel.seller o' = OrderModel.seller o ∧
  OrderModel.listing o' = OrderModel.listing o ∧
  OrderModel.listingSnapshot o' = OrderModel.listingSnapshot o ∧
  OrderModel.price o' = OrderModel.price o ∧
  OrderModel.negotiatedPrice o' = OrderModel.negotiatedPrice o ∧
  OrderModel.finalPrice o' = OrderModel.finalPrice o.

(** The status moves the handlers perform: an edge of the table, or the
    opening of a dispute on an order that is not disputed. *)
Definition lawful (s t : OrderModel.OrderStatus) : Prop :=
  transition s t ∨ (t = OrderModel.disputed ∧ s ≠ OrderModel.disputed).

(** Every two consecutive statuses of a history are a lawful move. *)
Fixpoint chain (l : list OrderModel.OrderStatus) : Prop :=
  match l with
  | s :: r => match r with t :: _ => lawful s t | [] => True end ∧ chain r
  | [] => True
  end.

(** The statuses an order went through, oldest first. *)
Definition history (o : OrderModel.Order) : list OrderModel.OrderStatus :=
  OrderModel.tl_status <$> OrderModel.timeline o.

(** A rating slot is kept, or it had no score, the order is completed and
    the slot receives a score between 1 and 5. *)
Definition slot_moves (o : OrderModel.Order) (old new : option OrderModel.Rating) : Prop :=
  new = old ∨
  (OrderController.hasScore old = false ∧
   OrderModel.status o = OrderModel.completed ∧
   ∃ r, new = Some r ∧ 1 <= OrderModel.score r <= 5).

Definition evolves (o o' : OrderModel.Order) : Prop :=
  same_identity o o' ∧
  ((OrderModel.status o' = OrderModel.status o ∧
    OrderModel.timeline o' = OrderModel.timeline o) ∨
   (∃ x, OrderModel.timeline o' = (OrderModel.timeline o ++ [x])%list ∧
         OrderModel.tl_status x = OrderModel.status o' ∧
         lawful (OrderModel.status o) (OrderModel.status o'))) ∧
  slot_moves o (OrderModel.buyerRating (OrderModel.rating o))
    (OrderModel.buyerRating (OrderModel.rating o')) ∧
  slot_moves o (OrderModel.sellerRating (OrderModel.rating o))
    (OrderModel.sellerRating (OrderModel.rating o')).

(** An order as [createOrder] inserts it. *)
Definition created (o : OrderModel.Order) : Prop :=
  OrderModel.buyer o ≠ OrderModel.seller o ∧
  (∃ t, OrderModel.timeline o =
        [{| OrderModel.tl_status := OrderModel.pending; OrderModel.tl_timestamp := t;
            OrderModel.tl_note := "Order created" |}]) ∧
  OrderModel.rating o = {| OrderModel.buyerRating := None; OrderModel.sellerRating := None |}.

Definition order_moves (os os' : gmap ObjectId OrderModel.Order) : Prop :=
  os' = os ∨
  ∃ k o', os' = <[k := o']> os ∧
          match os !! k with
          | Some o => evolves o o'
          | None => created o'
          end.

(** Parties are distinct, the timeline opens with the creation entry, and
    the history is a chain of lawful moves. *)
Definition order_wf (o : OrderModel.Order) : Prop :=
  OrderModel.buyer o ≠ OrderModel.seller o ∧
  (∃ t rest, OrderModel.timeline o =
             {| OrderModel.tl_status := OrderModel.pending; OrderModel.tl_timestamp := t;
                OrderModel.tl_note := "Order created" |} :: rest) ∧
  chain (history o).

(** ** What a request may do to a chat *)

(** The fields of a stored message that no handler assigns. *)
Definition same_message (m m' : ChatModel.Message) : Prop :=
  ChatModel._id m' = ChatModel._id m ∧
  ChatModel.sender m' = ChatModel.sender m ∧
  ChatModel.content m' = ChatModel.content m ∧
  ChatModel.type m' = ChatModel.type m ∧
  ChatModel.image_payload m' = ChatModel.image_payload m ∧
  ChatModel.amount (ChatModel.offer_payload m') = ChatModel.amount (ChatModel.offer_payload m) ∧
  ChatModel.createdAt m' = ChatModel.createdAt m.

(** A stored message keeps its fields; once read it stays read with the
    same time; its offer status is kept, or it is a pending offer that is
    accepted or rejected. *)
Definition message_moves (m m' : ChatModel.Message) : Prop :=
  same_message m m' ∧
  (ChatModel.isRead m = true →
   ChatModel.isRead m' = true ∧ ChatModel.readAt m' = ChatModel.readAt m) ∧
  (ChatModel.offer_status (ChatModel.offer_payload m') =
   ChatModel.offer_status (ChatModel.offer_payload m) ∨
   (ChatModel.type m = ChatModel.offer ∧
    ChatModel.offer_status (ChatModel.offer_payload m) = ChatModel.offer_pending ∧
    (ChatModel.offer_status (ChatModel.offer_payload m') = ChatModel.offer_accepted ∨
     ChatModel.offer_status (ChatModel.offer_payload m') = ChatModel.offer_rejected))).

(** A content as [sendMessageValidation] lets it through. *)
Definition valid_content (s : Js.String) : Prop :=
  Js.trim s = s ∧ s ≠ [] ∧ Validation.charCount s <= 2000.

Definition message_wf (m : ChatModel.Message) : Prop :=
  valid_content (ChatModel.content m) ∧
  (ChatModel.isRead m = true ↔ is_Some (ChatModel.readAt m)) ∧
  ChatModel.offer_status (ChatModel.offer_payload m) ≠ ChatModel.offer_withdrawn ∧
  (ChatModel.type m ≠ ChatModel.offer →
   ChatModel.offer_status (ChatModel.offer_payload m) = ChatModel.offer_pending).

(** The preview [updateLastMessage] derives from a message handed over by
    [sendMessage]. *)
Definition preview (m : ChatModel.Message) : ChatModel.LastMessage :=
  {| ChatModel.last_content := truncated (ChatModel.content m);
     ChatModel.last_sender := ChatModel.sender m;
     ChatModel.last_createdAt := None |}.

Definition chat_wf (c : ChatModel.Chat) : Prop :=
  ChatModel.lastMessage c = preview <$> list.last (ChatModel.messages c) ∧
  Forall message_wf (ChatModel.messages c).

Definition chat_moves (c c' : ChatModel.Chat) : Prop :=
  ChatModel.participants c' = ChatModel.participants c ∧
  ChatModel.listing c' = ChatModel.listing c ∧
  (ChatModel.isActive c = false → ChatModel.isActive c' = false) ∧
  ∃ ms tail, ChatModel.messages c' = (ms ++ tail)%list ∧
             Forall2 message_moves (ChatModel.messages c) ms.

(** At most one chat is written: a stored chat moves on, or a chat is
    created for two distinct users about a listing for which they had none. *)
Definition chat_writes (cs cs' : gmap ObjectId ChatModel.Chat) : Prop :=
  cs' = cs ∨
  ∃ k c', cs' = <[k := c']> cs ∧
          match cs !! k with
          | Some c => chat_ok c → chat_moves c c' ∧ (chat_wf c → chat_wf c')
          | None =>
              ∃ b s l, c' = ChatModel.newChat b s l ∧ b ≠ s ∧
                       ∀ k0 c0, cs !! k0 = Some c0 → ChatModel.matches b s l c0 = false
          end.

(** Two chats are the same conversation: same listing, same participants. *)
Definition same_conversation (c1 c2 : ChatModel.Chat) : Prop :=
  ChatModel.listing c1 = ChatModel.listing c2 ∧
  ∀ u, u ∈ ChatModel.participants c1 ↔ u ∈ ChatModel.participants c2.

Definition chats_unique (cs : gmap ObjectId ChatModel.Chat) : Prop :=
  ∀ k1 k2 c1 c2, cs !! k1 = Some c1 → cs !! k2 = Some c2 →
                 same_conversation c1 c2 → k1 = k2.

(** The unread messages addressed to [u] in the chats [getUnreadCount] scans. *)
Definition unreadTotal (db : Db) (u : ObjectId) : Z :=
  foldr Z.add 0
    ((λ c, unreadMessages u (ChatModel.messages c)) <$>
       filter (Reads.activeChatOf u) (docs (chats db))).

(** What one chat adds to the count of [u]. *)
Definition badge (u : ObjectId) (c : ChatModel.Chat) : Z :=
  if decide (Reads.activeChatOf u c) then ChatModel.unreadOf c u else 0.

(** ** Further scenarios *)
Module Cases.

Definition root : ReqUser := {| user_id := "root"; role := admin |}.

End Cases.

(** * Auxiliary facts *)

Section Trim.

Lemma ltrim_fixed c s : Js.is_space c = false → Js.ltrim (c :: s) = c :: s.
Proof. intros H. simpl. by rewrite H. Qed.

Lemma rtrim_head c s :
  Js.is_space c = false → ∃ s', Js.rtrim (c :: s) = c :: s'.
Proof.
  intros H. simpl. destruct (Js.rtrim s); rewrite ?H; eauto.
Qed.

Lemma rtrim_idem s : Js.rtrim (Js.rtrim s) = Js.rtrim s.
Proof.
  induction s as [|c s IH]; [done|].
  simpl. destruct (Js.rtrim s) as [|d r] eqn:E.
  - destruct (Js.is_space c) eqn:Hc; simpl; by rewrite ?Hc.
  - simpl in *. by rewrite IH.
Qed.

Lemma ltrim_head s :
  Js.ltrim s = [] ∨ ∃ c s', Js.ltrim s = c :: s' ∧ Js.is_space c = false.
Proof.
  induction s as [|c s IH]; [by left|].
  simpl. destruct (Js.is_space c) eqn:Hc; [done|]. right. eauto.
Qed.

Lemma trim_idem s : Js.trim (Js.trim s) = Js.trim s.
Proof.
  unfold Js.trim. destruct (ltrim_head s) as [->|(c & s' & -> & Hc)]; [done|].
  destruct (rtrim_head c s' Hc) as [r Hr]. rewrite Hr.
  rewrite (ltrim_fixed c r Hc), <- Hr. apply rtrim_idem.
Qed.

(** Selectors and surrogates are distinct code units, and a pair takes two
    of them: the count of [isLength] is never negative. *)
Lemma charCount_bounds_aux s :
  (List.length (filter (λ u, Validation.is_selector u = true) s)
   + Validation.surrogatePairs s <= List.length s)%nat ∧
  ∀ c, (List.length (filter (λ u, Validation.is_selector u = true) (c :: s))
        + Validation.surrogatePairs (c :: s) <= S (List.length s))%nat.
Proof.
  induction s as [|d s [IH1 IH2]].
  - split; [done|]. intros c. rewrite filter_cons. simpl. case_decide; simpl; lia.
  - split; [apply IH2|]. intros c.
    assert (∀ l : Js.String,
              (List.length (filter (λ u, Validation.is_selector u = true) l)
               <= List.length l)%nat) as Hfl.
    { intros l. apply length_filter. }
    rewrite filter_cons.
    change (Validation.surrogatePairs (c :: d :: s)) with
      (if Validation.is_high c && Validation.is_low d
       then S (Validation.surrogatePairs s) else Validation.surrogatePairs (d :: s)).
    destruct (Validation.is_high c && Validation.is_low d) eqn:E.
    + apply andb_true_iff in E as [Hc Hd].
      assert (Validation.is_selector c = false) as Hsc.
      { unfold Validation.is_high, Validation.is_selector in *.
        apply andb_true_iff in Hc as [H1%N.leb_le H2%N.leb_le].
        apply orb_false_iff. split; apply N.eqb_neq; lia. }
      assert (Validation.is_selector d = false) as Hsd.
      { unfold Validation.is_low, Validation.is_selector in *.
        apply andb_true_iff in Hd as [H1%N.leb_le H2%N.leb_le].
        apply orb_false_iff. split; apply N.eqb_neq; lia. }
      rewrite decide_False by (by rewrite Hsc).
      rewrite filter_cons, decide_False by (by rewrite Hsd). simpl. lia.
    + specialize (IH2 d). case_decide; simpl in *; lia.
Qed.

Lemma charCount_nonneg s : 0 <= Validation.charCount s.
Proof.
  unfold Validation.charCount. destruct (charCount_bounds_aux s) as [H _].
  unfold Js.String in *. lia.
Qed.

Lemma charCount_length s : Validation.charCount s <= Z.of_nat (List.length s).
Proof. unfold Validation.charCount. lia. Qed.

Lemma isLength_spec max s :
  Validation.isLength max s = true ↔ Validation.charCount s <= max.
Proof.
  unfold Validation.isLength. pose proof (charCount_nonneg s).
  rewrite andb_true_iff, !Z.leb_le. tauto.
Qed.

End Trim.

(** ** Populated documents never compare equal to an identifier *)

Lemma populated_isParticipant us c u : Populated.isParticipant us c u = false.
Proof.
  unfold Populated.isParticipant.
  induction (Populated.participants us c) as [|p ps IH]; [done|].
  simpl. exact IH.
Qed.

Lemma getChatById_refuses db user e id :
  ChatController.getChatById db user e id =
  (db, match chats db !! id with
       | None => fail "Chat not found" 404
       | Some _ => fail "Not authorized to access this chat" 403
       end).
Proof.
  unfold ChatController.getChatById. destruct (chats db !! id); [|done].
  by rewrite populated_isParticipant.
Qed.

Lemma transition_validTransitions s t :
  transition s t ↔ t ∈ OrderController.validTransitions s.
Proof.
  split.
  - destruct 1; simpl; set_solver.
  - destruct s; simpl; intros H; set_unfold in H; 
      repeat (destruct H as [->|H]; [constructor|]); done.
Qed.

(** ** Orders: every handler writes at most one order, by appending *)

Section OrderSteps.

Lemma continues_assign o st md tl rt cn dp nt x :
  tl = (OrderModel.timeline o ++ [x])%list → OrderModel.tl_status x = st →
  rt = OrderModel.rating o →
  continues o (OrderModel.assign o st md tl rt cn dp nt).
Proof.
  intros -> <- ->. split.
  - intros (_ & Hb & Hs). split_and!; [|done..].
    unfold lastTimelineStatus. simpl. by rewrite last_snoc.
  - simpl. by apply prefix_app_r.
Qed.

Lemma continues_keep o md rt cn dp nt :
  slot_ok (OrderModel.buyerRating rt) → slot_ok (OrderModel.sellerRating rt) →
  continues o (OrderModel.assign o (OrderModel.status o) md (OrderModel.timeline o) rt cn dp nt).
Proof. intros Hb Hs. split; [|done]. intros (Hl & _ & _). by split_and!. Qed.

Lemma continues_keep_rating o md cn dp nt :
  continues o (OrderModel.assign o (OrderModel.status o) md (OrderModel.timeline o)
                 (OrderModel.rating o) cn dp nt).
Proof. split; [|done]. intros (Hl & ? & ?). by split_and!. Qed.

Lemma continues_trans o1 o2 o3 : continues o1 o2 → continues o2 o3 → continues o1 o3.
Proof. intros [H1 P1] [H2 P2]. split; [tauto|]. by etrans. Qed.

Lemma continues_updateStatus o s note e : continues o (OrderModel.updateStatus o s note e).
Proof. by eapply continues_assign. Qed.

Lemma continues_cancel o u r e : continues o (OrderModel.cancel o u r e).
Proof. by eapply continues_assign. Qed.

Lemma continues_initiateDispute o u r e : continues o (OrderModel.initiateDispute o u r e).
Proof. by eapply continues_assign. Qed.

Lemma score_valid_spec sc : OrderModel.score_valid sc = true ↔ 1 <= sc <= 5.
Proof. unfold OrderModel.score_valid. rewrite andb_true_iff, !Z.leb_le. done. Qed.

Lemma continues_setRatingSlot o u sc rv e :
  OrderModel.score_valid sc = true → continues o (OrderModel.setRatingSlot o u sc rv e).
Proof.
  intros Hsc%score_valid_spec. split; [|done].
  intros (Hl & Hb & Hs). unfold OrderModel.setRatingSlot.
  split_and!; [done|..]; case_bool_decide; simpl; try done; intros r [= <-]; done.
Qed.

Lemma order_ok_orderToCreate user e b l : order_ok (OrderController.orderToCreate user e b l).
Proof. split_and!; [done|..]; by intros r. Qed.

Lemma pre_save_idem e o : OrderModel.pre_save e (OrderModel.pre_save e o) = OrderModel.pre_save e o.
Proof. by destruct o as [[n|]]. Qed.

Lemma order_ok_pre_save e o : order_ok o → order_ok (OrderModel.pre_save e o).
Proof. by destruct o as [[n|]]. Qed.

Lemma create_inr n e doc o :
  OrderModel.create n e doc = inr o →
  o = OrderModel.pre_save e doc ∧ OrderModel.prices_valid doc = true.
Proof.
  unfold OrderModel.create, OrderModel.validate. destruct n.
  - rewrite pre_save_idem. case_match eqn:E; [done|]. intros [= <-]. split; [done|].
    apply negb_false_iff, andb_true_iff in E as [_ E]. revert E.
    by destruct doc as [[n|]].
  - case_match eqn:E; [done|]. intros [= <-]. split; [done|].
    by apply negb_false_iff, andb_true_iff in E as [_ E].
Qed.

(** The handler of the program stops at [Order.create]. *)
Lemma create_orderToCreate user e b l :
  OrderModel.create false e (OrderController.orderToCreate user e b l) = inl "ValidationError".
Proof.
  unfold OrderModel.create, OrderModel.validate.
  rewrite bool_decide_eq_false_2; [done|]. by intros [? ?].
Qed.

Lemma order_step_save k o o' db :
  orders db !! k = Some o → continues o o' → order_step (orders db) (orders (saveOrder k o' db)).
Proof. intros Hk Hc. right. exists k, o'. by rewrite Hk. Qed.

Lemma orders_setListingStatus k s db : orders (setListingStatus k s db) = orders db.
Proof. done. Qed.

Lemma createOrderWith_order_step n db user e b :
  order_step (orders db) (orders (OrderController.createOrderWith n db user e b).1).
Proof.
  unfold OrderController.createOrderWith.
  destruct (listings db !! _) as [l|]; [|by left].
  destruct (negb (bool_decide (ListingModel.status l = _))); [by left|].
  destruct (users db !! _); [|by left].
  destruct (bool_decide (ListingModel.seller l = _)); [by left|].
  destruct (bool_decide (_ < _)%Qc); [by left|].
  destruct (OrderModel.create _ _ _) as [err|o] eqn:Hcr; [by left|].
  apply create_inr in Hcr as [-> _].
  destruct (negb (OrderController.insertable _ _ _)) eqn:Hins; [by left|].
  apply negb_false_iff, andb_true_iff in Hins as [Hins%bool_decide_eq_true _].
  assert (order_ok (OrderModel.pre_save e (OrderController.orderToCreate user e b l))) as Hok
    by apply order_ok_pre_save, order_ok_orderToCreate.
  destruct (negb (ListingModel.pre_save_ok l)); simpl;
    right; eexists _, _; (split; [done|]); by rewrite Hins.
Qed.

Lemma createOrder_order_step db user e b :
  order_step (orders db) (orders (OrderController.createOrder db user e b).1).
Proof. apply createOrderWith_order_step. Qed.

Lemma updateOrderStatus_order_step db user e id s note :
  order_step (orders db) (orders (OrderController.updateOrderStatus db user e id s note).1).
Proof.
  unfold OrderController.updateOrderStatus.
  destruct (orders db !! id) as [o|] eqn:Ho; [|by left].
  repeat (case_match; try by left); simpl.
  all: by eapply order_step_save, continues_updateStatus.
Qed.

Lemma updateMeetupDetails_order_step db user e id md :
  order_step (orders db) (orders (OrderController.updateMeetupDetails db user e id md).1).
Proof.
  unfold OrderController.updateMeetupDetails.
  destruct (orders db !! id) as [o|] eqn:Ho; [|by left].
  case_match; [by left|]. simpl.
  eapply order_step_save; [done|].
  destruct (bool_decide (OrderModel.status o = OrderModel.confirmed)).
  - eapply continues_trans; [apply continues_keep_rating|apply continues_updateStatus].
  - apply continues_keep_rating.
Qed.

Lemma addRating_order_step db user e id sc rv :
  order_step (orders db) (orders (OrderController.addRating db user e id sc rv).1).
Proof.
  unfold OrderController.addRating, OrderModel.addRating.
  destruct (orders db !! id) as [o|] eqn:Ho; [|by left].
  repeat (case_match; try by left); simplify_eq/=.
  all: right; eexists _, _; split; [done|]; rewrite Ho; by apply continues_setRatingSlot.
Qed.

Lemma cancelOrder_order_step db user e id r :
  order_step (orders db) (orders (OrderController.cancelOrder db user e id r).1).
Proof.
  unfold OrderController.cancelOrder.
  case_match; [by left|].
  destruct (orders db !! id) as [o|] eqn:Ho; [|by left].
  repeat (case_match; try by left); simpl.
  all: by eapply order_step_save, continues_cancel.
Qed.

Lemma initiateDispute_order_step db user e id r :
  order_step (orders db) (orders (OrderController.initiateDispute db user e id r).1).
Proof.
  unfold OrderController.initiateDispute.
  case_match; [by left|].
  destruct (orders db !! id) as [o|] eqn:Ho; [|by left].
  repeat (case_match; try by left); simpl.
  all: by eapply order_step_save, continues_initiateDispute.
Qed.

Lemma addNotes_order_step db user id t :
  order_step (orders db) (orders (OrderController.addNotes db user id t).1).
Proof.
  unfold OrderController.addNotes.
  case_match; [by left|].
  destruct (orders db !! id) as [o|] eqn:Ho; [|by left].
  repeat (case_match; try by left); simpl.
  all: eapply order_step_save; [done|]; apply continues_keep_rating.
Qed.

Lemma route_order_step db user e rq :
  order_step (orders db) (orders (route db user e rq).1).
Proof.
  destruct rq; simpl.
  - case_match; [apply createOrder_order_step|by left].
  - case_match; [apply updateOrderStatus_order_step|by left].
  - apply updateMeetupDetails_order_step.
  - case_match; [apply addRating_order_step|by left].
  - apply cancelOrder_order_step.
  - apply initiateDispute_order_step.
  - apply addNotes_order_step.
  - unfold ChatController.getOrCreateChat. repeat (case_match; try by left).
  - rewrite getChatById_refuses. by left.
  - unfold ChatController.sendMessage, saveChat.
    repeat (case_match; simplify_eq/=; try by left).
  - unfold ChatController.markChatAsRead, saveChat.
    repeat (case_match; simplify_eq/=; try by left).
  - unfold ChatController.deleteChat, saveChat.
    repeat (case_match; simplify_eq/=; try by left).
  - unfold ChatController.toggleBlockChat, saveChat.
    repeat (case_match; simplify_eq/=; try by left).
  - unfold ChatController.respondToOffer, saveChat.
    repeat (case_match; simplify_eq/=; try by left).
Qed.

Lemma order_step_ok os os' :
  order_step os os' → map_Forall (λ _ o, order_ok o) os → map_Forall (λ _ o, order_ok o) os'.
Proof.
  intros [->|(k & o' & -> & Hk)] Hok; [done|].
  apply map_Forall_insert_2; [|done].
  destruct (os !! k) as [o|] eqn:Ho; [|done].
  apply Hk. by eapply (Hok k).
Qed.

Lemma order_step_prefix os os' k o :
  order_step os os' → os !! k = Some o →
  ∃ o', os' !! k = Some o' ∧ OrderModel.timeline o `prefix_of` OrderModel.timeline o'.
Proof.
  intros [->|(k' & o' & -> & Hk)] Ho; [by exists o|].
  destruct (decide (k' = k)) as [->|Hne].
  - rewrite Ho in Hk. exists o'. rewrite lookup_insert_eq. split; [done|apply Hk].
  - exists o. by rewrite lookup_insert_ne.
Qed.

End OrderSteps.

(** ** Chats: every handler keeps the unread counters exact *)

Section Unread.
Import ChatModel.

Implicit Types (u v : ObjectId) (m : Message) (ms : list Message).

Lemma unreadMessages_nil u : unreadMessages u [] = 0.
Proof. done. Qed.

Lemma unreadMessages_cons u m ms :
  unreadMessages u (m :: ms) =
  (if bool_decide (isRead m = false ∧ sender m ≠ u) then 1 else 0) + unreadMessages u ms.
Proof.
  unfold unreadMessages. rewrite filter_cons.
  case_bool_decide; case_decide; try tauto; simpl; lia.
Qed.

Lemma unreadMessages_app u ms1 ms2 :
  unreadMessages u (ms1 ++ ms2) = unreadMessages u ms1 + unreadMessages u ms2.
Proof.
  induction ms1 as [|m ms1 IH]; [unfold unreadMessages; simpl; lia|].
  simpl. rewrite !unreadMessages_cons, IH. lia.
Qed.

Lemma unreadMessages_shape u ms ms' :
  shape <$> ms = shape <$> ms' → unreadMessages u ms = unreadMessages u ms'.
Proof.
  revert ms'. induction ms as [|m ms IH]; intros [|m' ms'] [=]; [done|].
  rewrite !unreadMessages_cons, (IH ms') by done.
  destruct m, m'; simplify_eq/=. done.
Qed.

Lemma senders_shape (P : ObjectId → Prop) ms ms' :
  shape <$> ms = shape <$> ms' → Forall (λ m, P (sender m)) ms → Forall (λ m, P (sender m)) ms'.
Proof.
  revert ms'. induction ms as [|m ms IH]; intros [|m' ms'] [=]; [done|].
  inversion 1; subst. constructor; [congruence|by apply IH].
Qed.

Lemma unreadFor_spec u m : unreadFor u m = true ↔ isRead m = false ∧ sender m ≠ u.
Proof.
  unfold unreadFor. rewrite andb_true_iff, !negb_true_iff, bool_decide_eq_false. done.
Qed.

Lemma unreadMessages_none u ms :
  existsb (unreadFor u) ms = false → unreadMessages u ms = 0.
Proof.
  induction ms as [|m ms IH]; [done|]. simpl.
  intros [Hm Hms]%orb_false_iff. rewrite unreadMessages_cons, IH by done.
  case_bool_decide as H; [|done]. apply unreadFor_spec in H. congruence.
Qed.

Lemma sender_readBy u t m : sender (readBy u t m) = sender m.
Proof. unfold readBy. by case_match. Qed.

Lemma unreadMessages_readBy u t ms : unreadMessages u (readBy u t <$> ms) = 0.
Proof.
  induction ms as [|m ms IH]; [done|].
  rewrite fmap_cons, unreadMessages_cons, IH, sender_readBy.
  case_bool_decide as H; [|done]. exfalso. destruct H as [Hr Hs].
  unfold readBy in Hr. destruct (unreadFor u m) eqn:E; [done|].
  apply not_true_iff_false in E. apply E, unreadFor_spec. done.
Qed.

Lemma unreadMessages_readBy_other u v t ms :
  u ≠ v → Forall (λ m, sender m = u ∨ sender m = v) ms →
  unreadMessages v (readBy u t <$> ms) = unreadMessages v ms.
Proof.
  intros Huv. induction 1 as [|m ms Hm _ IH]; [done|].
  rewrite fmap_cons, !unreadMessages_cons, IH, sender_readBy. f_equal.
  destruct Hm as [Hm|Hm].
  - assert (readBy u t m = m) as ->; [|done].
    unfold readBy, unreadFor. rewrite (bool_decide_eq_true_2 _ Hm), andb_false_r. done.
  - rewrite !bool_decide_eq_false_2; [done|tauto..].
Qed.

End Unread.

Section ChatOk.
Import ChatModel.
Implicit Types (c : Chat) (u v : ObjectId).

Lemma elem_of_pair (u a b : ObjectId) : u ∈ [a; b] ↔ u = a ∨ u = b.
Proof. rewrite !elem_of_cons, elem_of_nil. tauto. Qed.

Lemma chat_ok_same_shape c ms lm act bl :
  chat_ok c → shape <$> messages c = shape <$> ms →
  chat_ok (assign c ms lm (unreadCount c) act bl).
Proof.
  intros (Hp & Hs & Hu) Hsh. split_and!; [done|..]; simpl.
  - by eapply (senders_shape (λ s, s ∈ participants c)).
  - intros u Hin. rewrite <- (unreadMessages_shape u _ _ Hsh). by apply Hu.
Qed.

Lemma chat_ok_newChat b s l : b ≠ s → chat_ok (newChat b s l).
Proof.
  intros Hne. split_and!; [by exists b, s|by constructor|].
  intros u Hu. unfold unreadOf. simpl in *.
  apply elem_of_pair in Hu as [-> | ->].
  - by rewrite lookup_insert_ne, lookup_insert_eq.
  - by rewrite lookup_insert_eq.
Qed.

Lemma chat_ok_two c u :
  chat_ok c → u ∈ participants c →
  ∃ v, u ≠ v ∧ v ∈ participants c ∧ (∀ w, w ∈ participants c ↔ w = u ∨ w = v) ∧
       snd <$> list_find (λ p, p ≠ u) (participants c) = Some v.
Proof.
  intros ((a & b & Hp & Hab) & _) Hu. rewrite Hp in *.
  apply elem_of_pair in Hu as [-> | ->].
  - exists b. split_and!; [done|by apply elem_of_pair; right|intros w; apply elem_of_pair|].
    simpl. rewrite decide_False by (intros H; by apply H).
    simpl. by rewrite decide_True.
  - exists a. split_and!; [done|by apply elem_of_pair; left|
                           intros w; rewrite elem_of_pair; tauto|].
    simpl. by rewrite decide_True.
Qed.

Lemma markAsRead_messages c u e :
  messages (markAsRead c u e) = readBy u (now e) <$> messages c.
Proof. done. Qed.

Lemma unreadOf_markAsRead_other c u v e :
  u ≠ v → unreadOf (markAsRead c u e) v = unreadOf c v.
Proof.
  intros Huv. unfold unreadOf, markAsRead. simpl.
  destruct (existsb _ _); [by rewrite lookup_insert_ne|done].
Qed.

Lemma unreadOf_markAsRead_self c u e :
  unreadOf c u = unreadMessages u (messages c) → unreadOf (markAsRead c u e) u = 0.
Proof.
  intros Hc. unfold unreadOf, markAsRead. simpl.
  destruct (existsb _ _) eqn:E; [by rewrite lookup_insert_eq|].
  rewrite (unreadMessages_none u _ E) in Hc. exact Hc.
Qed.

Lemma chat_ok_markAsRead c u e :
  chat_ok c → u ∈ participants c → chat_ok (markAsRead c u e).
Proof.
  intros Hok Hu. destruct (chat_ok_two c u Hok Hu) as (v & Huv & Hv & Hall & _).
  destruct Hok as (Hp & Hs & Hc). split_and!; [exact Hp|..].
  - rewrite markAsRead_messages. apply Forall_fmap.
    eapply list.Forall_impl; [exact Hs|]. intros m Hm. unfold compose.
    by rewrite sender_readBy.
  - intros w Hw. rewrite markAsRead_messages.
    apply Hall in Hw as [-> | ->].
    + rewrite unreadMessages_readBy. by apply unreadOf_markAsRead_self, Hc.
    + rewrite unreadOf_markAsRead_other by done.
      rewrite (unreadMessages_readBy_other u v (now e)); [by apply Hc|done|].
      eapply list.Forall_impl; [exact Hs|]. intros m Hm. by apply Hall.
Qed.

Lemma unreadOf_markAsRead c u e :
  chat_ok c → u ∈ participants c → unreadOf (markAsRead c u e) u = 0.
Proof.
  intros (_ & _ & Hc) Hu. by apply unreadOf_markAsRead_self, Hc.
Qed.

Lemma chat_ok_send c c' u r m :
  chat_ok c → u ∈ participants c → r ∈ participants c → u ≠ r →
  sender m = u → isRead m = false →
  participants c' = participants c →
  messages c' = (messages c ++ [m])%list →
  unreadCount c' = <[r := unreadOf c r + 1]> (unreadCount c) →
  chat_ok c'.
Proof.
  intros (Hp & Hs & Hc) Hu Hr Hur Hsm Hrm Ep Em Ec.
  unfold chat_ok, unreadOf. rewrite Ep, Em, Ec. split_and!; [done|..].
  - apply Forall_app. split; [done|]. constructor; [by rewrite Hsm|done].
  - intros w Hw.
    rewrite unreadMessages_app, unreadMessages_cons, unreadMessages_nil, Hsm.
    destruct (decide (w = r)) as [->|Hne].
    + rewrite lookup_insert_eq. simpl. rewrite bool_decide_eq_true_2 by done.
      rewrite <- (Hc r Hr). lia.
    + rewrite lookup_insert_ne by done.
      destruct Hp as (a & b & Hab & Hne').
      assert (w = u) as ->.
      { rewrite Hab in *. apply elem_of_pair in Hw, Hu, Hr.
        destruct Hw, Hu, Hr; congruence. }
      rewrite bool_decide_eq_false_2 by tauto.
      rewrite <- (Hc u Hu). unfold unreadOf. lia.
Qed.

End ChatOk.

Section ChatSteps.
Import ChatModel.
Implicit Types (db : Db) (c : Chat) (u v : ObjectId).

Lemma isParticipant_spec c u : isParticipant c u = true ↔ u ∈ participants c.
Proof.
  unfold isParticipant. rewrite existsb_exists. split.
  - intros (p & Hp%list_elem_of_In & <-%bool_decide_eq_true). done.
  - intros Hu. exists u. rewrite bool_decide_eq_true. by split; [apply list_elem_of_In|].
Qed.

Lemma isBlockedBy_spec c u : isBlockedBy c u = true ↔ u ∈ blockedBy c.
Proof.
  unfold isBlockedBy. rewrite existsb_exists. split.
  - intros (p & Hp%list_elem_of_In & <-%bool_decide_eq_true). done.
  - intros Hu. exists u. rewrite bool_decide_eq_true. by split; [apply list_elem_of_In|].
Qed.

Lemma saveChat_Some k c db db1 :
  saveChat k c db = Some db1 → db1 = with_chats (<[k := c]> (chats db)) db.
Proof. unfold saveChat. case_match; congruence. Qed.

Lemma chat_step_save k c c' db db1 :
  chats db !! k = Some c → (chat_ok c → chat_ok c') → saveChat k c' db = Some db1 →
  chat_step (chats db) (chats db1).
Proof.
  intros Hk Hc ->%saveChat_Some. right. exists k, c'. by rewrite Hk.
Qed.

Lemma getOrCreateChat_chat_step db user e l s :
  chat_step (chats db) (chats (ChatController.getOrCreateChat db user e l s).1).
Proof.
  unfold ChatController.getOrCreateChat, findOrCreate.
  repeat (case_match; simplify_eq/=; try by left).
  right. eexists _, _. split; [done|].
  match goal with H : chats db !! _ = None |- _ => rewrite H end.
  apply chat_ok_newChat.
  match goal with H : bool_decide (s = _) = false |- _ =>
    apply bool_decide_eq_false in H end.
  congruence.
Qed.

Lemma markChatAsRead_chat_step db user e id :
  chat_step (chats db) (chats (ChatController.markChatAsRead db user e id).1).
Proof.
  unfold ChatController.markChatAsRead.
  destruct (chats db !! id) as [c|] eqn:Hc; [|by left].
  destruct (isParticipant c (user_id user)) eqn:Hp; [|by left]. simpl.
  destruct (saveChat _ _ _) eqn:Hs; [|by left]. simpl.
  eapply chat_step_save; [done| |done].
  intros Hok. by apply chat_ok_markAsRead, isParticipant_spec.
Qed.

Lemma otherParticipant_ok c user :
  chat_ok c → user_id user ∈ participants c →
  ∃ r, ChatController.otherParticipant c user = Some r ∧ r ∈ participants c ∧ user_id user ≠ r.
Proof.
  intros Hok Hu. destruct (chat_ok_two c _ Hok Hu) as (v & Huv & Hv & _ & Hf).
  exists v. done.
Qed.

Lemma sendMessage_chat_step db user e id b :
  chat_step (chats db) (chats (ChatController.sendMessage db user e id b).1).
Proof.
  unfold ChatController.sendMessage.
  destruct (chats db !! id) as [c|] eqn:Hc; [|by left].
  destruct (isParticipant c (user_id user)) eqn:Hp; [|by left]. simpl.
  apply isParticipant_spec in Hp.
  destruct (isBlockedBy c (user_id user)); [by left|].
  destruct (ChatController.otherParticipant c user) as [r|] eqn:Hr.
  - destruct (isBlockedBy c r); [by left|].
    destruct (saveChat _ _ db) as [db1|] eqn:Hs1; [|by left].
    destruct (saveChat _ _ db1) as [db2|] eqn:Hs2; simpl.
    + apply saveChat_Some in Hs1 as ->. apply saveChat_Some in Hs2 as ->. simpl.
      rewrite insert_insert_eq. right. eexists _, _. split; [done|]. rewrite Hc.
      intros Hok. destruct (otherParticipant_ok c user Hok Hp) as (r' & Hr' & Hin & Hne).
      simplify_eq. eapply (chat_ok_send c _ (user_id user) r); try done; reflexivity.
    + exfalso. unfold saveChat, pre_save_ok in Hs1, Hs2. simpl in Hs1, Hs2.
      destruct (_ =? 2)%nat; simplify_eq.
  - destruct (blockedBy c); [|by left].
    destruct (saveChat _ _ db) as [db1|] eqn:Hs1; [|by left]. simpl.
    eapply chat_step_save; [done| |done].
    intros Hok. destruct (otherParticipant_ok c user Hok Hp) as (r' & Hr' & Hin & Hne).
    congruence.
Qed.

Lemma deleteChat_chat_step db user id :
  chat_step (chats db) (chats (ChatController.deleteChat db user id).1).
Proof.
  unfold ChatController.deleteChat.
  destruct (chats db !! id) as [c|] eqn:Hc; [|by left].
  destruct (isParticipant c (user_id user)); [|by left]. simpl.
  destruct (validate c); [|by left]. simpl.
  destruct (saveChat _ _ _) eqn:Hs; [|by left]. simpl.
  eapply chat_step_save; [done| |done].
  intros Hok. by apply chat_ok_same_shape.
Qed.

Lemma toggleBlockChat_chat_step db user id :
  chat_step (chats db) (chats (ChatController.toggleBlockChat db user id).1).
Proof.
  unfold ChatController.toggleBlockChat.
  destruct (chats db !! id) as [c|] eqn:Hc; [|by left].
  destruct (isParticipant c (user_id user)); [|by left]. simpl.
  destruct (validate c); [|by left]. simpl.
  destruct (saveChat _ _ _) eqn:Hs; [|by left]. simpl.
  eapply chat_step_save; [done| |done].
  intros Hok. by apply chat_ok_same_shape.
Qed.

Lemma shape_setOfferStatus st m : shape (ChatController.setOfferStatus st m) = shape m.
Proof. done. Qed.

Lemma shape_insert (ms : list Message) (i : nat) m m' :
  ms !! i = Some m → shape m' = shape m → shape <$> <[i := m']> ms = shape <$> ms.
Proof.
  intros Hi Hsh. rewrite list_fmap_insert, Hsh. apply list_insert_id.
  by rewrite list_lookup_fmap, Hi.
Qed.

Lemma respondToOffer_chat_step db user cid mid st :
  chat_step (chats db) (chats (ChatController.respondToOffer db user cid mid st).1).
Proof.
  unfold ChatController.respondToOffer.
  destruct (ChatController.responseStatus st); [|by left].
  destruct (chats db !! cid) as [c|] eqn:Hc; [|by left].
  destruct (listings db !! listing c); [|by left].
  case_match; [by left|].
  destruct (list_find _ _) as [[i m]|] eqn:Hf; [|by left].
  apply list_find_Some in Hf as (Hi & _ & _).
  do 3 (case_match; [by left|]).
  destruct (saveChat _ _ _) as [db1|] eqn:Hs; [|by left].
  assert (chat_step (chats db) (chats db1)).
  { eapply chat_step_save; [done| |done].
    intros Hok. apply chat_ok_same_shape; [done|].
    symmetry. by eapply shape_insert. }
  by case_match.
Qed.

Lemma chats_createOrderWith n db user e b :
  chats (OrderController.createOrderWith n db user e b).1 = chats db.
Proof. unfold OrderController.createOrderWith. by repeat case_match. Qed.

Lemma route_chat_step db user e rq :
  chat_step (chats db) (chats (route db user e rq).1).
Proof.
  destruct rq; simpl.
  - case_match; [|by left]. left. apply chats_createOrderWith.
  - unfold OrderController.updateOrderStatus. repeat (case_match; try by left).
  - unfold OrderController.updateMeetupDetails. repeat (case_match; try by left).
  - unfold OrderController.addRating. repeat (case_match; try by left).
  - unfold OrderController.cancelOrder. repeat (case_match; try by left).
  - unfold OrderController.initiateDispute. repeat (case_match; try by left).
  - unfold OrderController.addNotes. repeat (case_match; try by left).
  - apply getOrCreateChat_chat_step.
  - rewrite getChatById_refuses. by left.
  - case_match; [apply sendMessage_chat_step|by left].
  - apply markChatAsRead_chat_step.
  - apply deleteChat_chat_step.
  - apply toggleBlockChat_chat_step.
  - apply respondToOffer_chat_step.
Qed.

Lemma chat_step_ok cs cs' :
  chat_step cs cs' → map_Forall (λ _ c, chat_ok c) cs → map_Forall (λ _ c, chat_ok c) cs'.
Proof.
  intros [->|(k & c' & -> & Hk)] Hok; [done|].
  apply map_Forall_insert_2; [|done].
  destruct (cs !! k) as [c|] eqn:Hc; [|done].
  apply Hk. by eapply (Hok k).
Qed.

End ChatSteps.

(** ** Reachable databases are consistent *)

Lemma reachable_ok db : reachable db → db_ok db.
Proof.
  induction 1 as [ls us|db user e rq _ [IHo IHc]|db user e b _ [IHo IHc]|db ls us _ IH].
  - split; apply map_Forall_empty.
  - split.
    + eapply order_step_ok; [apply route_order_step|done].
    + eapply chat_step_ok; [apply route_chat_step|done].
  - split.
    + eapply order_step_ok; [apply createOrderWith_order_step|done].
    + by rewrite chats_createOrderWith.
  - done.
Qed.

Lemma reachable_run db steps : reachable db → reachable (Scenario.run db steps).
Proof.
  revert db. induction steps as [|[[u e] rq] steps IH]; intros db Hdb; [done|].
  apply IH. by apply reach_request.
Qed.

(** The scenarios are reachable. *)
Lemma reachable_ordered : reachable Scenario.ordered.
Proof. apply reach_order, reach_start. Qed.

Lemma reachable_completed1 : reachable Scenario.completed1.
Proof. apply reachable_run, reachable_ordered. Qed.

Lemma reachable_twoOrders : reachable Scenario.twoOrders.
Proof. apply reachable_run, reach_order, reachable_run, reachable_completed1. Qed.

Lemma reachable_talking : reachable Scenario.talking.
Proof. apply reachable_run, reach_start. Qed.

Lemma reachable_offered : reachable Scenario.offered.
Proof. apply reachable_run, reachable_talking. Qed.

(** * Properties of the specification *)

(** C2. In every database the server can reach, the status of each order is
    the status of the last entry of its timeline; and whatever request is
    answered next (create, update status, cancel, dispute, rate, meetup
    details, notes, or any chat request), each stored order is still stored
    and its former timeline is a prefix of its new one: entries are only
    appended. *)
Theorem status_mirrors_timeline db :
  reachable db →
  (∀ id o, orders db !! id = Some o →
           lastTimelineStatus o = Some (OrderModel.status o)) ∧
  (∀ user e rq id o, orders db !! id = Some o →
     ∃ o', orders (route db user e rq).1 !! id = Some o' ∧
           OrderModel.timeline o `prefix_of` OrderModel.timeline o').
Proof.
  intros [Hok _]%reachable_ok. split.
  - intros id o Ho. by destruct (Hok id o Ho).
  - intros user e rq id o Ho. eapply order_step_prefix; [apply route_order_step|done].
Qed.

(** C2 on the database in which Alice's order of the lamp has been completed. *)
Lemma status_mirrors_timeline_witness :
  (∀ id o, orders Scenario.completed1 !! id = Some o →
           lastTimelineStatus o = Some (OrderModel.status o)) ∧
  (∀ user e rq id o, orders Scenario.completed1 !! id = Some o →
     ∃ o', orders (route Scenario.completed1 user e rq).1 !! id = Some o' ∧
           OrderModel.timeline o `prefix_of` OrderModel.timeline o').
Proof.
  apply (status_mirrors_timeline Scenario.completed1).
  apply reachable_completed1.
Defined.

(** C1, as the specification states it, fails: Alice disputes the order she
    has just placed. The order is pending, pending -> disputed is not a
    transition of the table, yet the call succeeds and the order is disputed. *)
Lemma dispute_from_pending :
  let r := OrderController.initiateDispute Scenario.ordered Scenario.alice
             (Scenario.at_ 2000 "-") "o1" "never shipped" in
  OrderModel.status <$> orders Scenario.ordered !! "o1" = Some OrderModel.pending ∧
  ¬ transition OrderModel.pending OrderModel.disputed ∧
  succeeded r.2 = true ∧
  OrderModel.status <$> orders r.1 !! "o1" = Some OrderModel.disputed.
Proof.
  split_and!; [vm_compute; reflexivity | inversion 1 | vm_compute; reflexivity..].
Qed.

(** C1, amended. For an order stored under [id]:
    - [updateOrderStatus] towards a status that is not a transition of the
      table leaves the database as it was, and answers the buyer, the seller
      or an admin with the 400 error that names the current and the requested
      status;
    - [cancelOrder] of an order whose status has no transition to cancelled
      leaves the database as it was and fails, for a party that gives a
      reason with a 400 error of fixed text;
    - [initiateDispute] by a party that gives a reason is refused only when
      the order is already disputed (database as it was); from every other
      status it succeeds and stores the order as disputed, with the dispute
      record opened by the caller. *)
Theorem invalid_transition_rejected db user e id o :
  orders db !! id = Some o →
  (∀ target note,
     ¬ transition (OrderModel.status o) target →
     (OrderController.updateOrderStatus db user e id target note).1 = db ∧
     (party user o ∨ role user = admin →
      (OrderController.updateOrderStatus db user e id target note).2 =
      fail ("Cannot change status from " ++ OrderModel.status_name (OrderModel.status o) ++
            " to " ++ OrderModel.status_name target) 400)) ∧
  (∀ reason : Js.String,
     ¬ transition (OrderModel.status o) OrderModel.cancelled →
     (OrderController.cancelOrder db user e id reason).1 = db ∧
     succeeded (OrderController.cancelOrder db user e id reason).2 = false ∧
     (party user o → reason ≠ EmptyString →
      (OrderController.cancelOrder db user e id reason).2 =
      fail "This order cannot be cancelled at this stage" 400)) ∧
  (∀ reason : Js.String,
     party user o → reason ≠ EmptyString →
     (OrderModel.status o = OrderModel.disputed →
      OrderController.initiateDispute db user e id reason =
      (db, fail "This order is already in dispute" 400)) ∧
     (OrderModel.status o ≠ OrderModel.disputed →
      ∃ o', (OrderController.initiateDispute db user e id reason).1 = saveOrder id o' db ∧
            succeeded (OrderController.initiateDispute db user e id reason).2 = true ∧
            OrderModel.status o' = OrderModel.disputed ∧
            OrderModel.timeline o' =
              (OrderModel.timeline o ++
                 [{| OrderModel.tl_status := OrderModel.disputed;
                     OrderModel.tl_timestamp := now e;
                     OrderModel.tl_note := (Js.str "Dispute initiated: " ++ reason)%list |}])%list ∧
            OrderModel.initiatedBy <$> OrderModel.dispute o' = Some (user_id user))).
Proof.
  intros Ho. split_and!.
  - intros target note Hnt. rewrite transition_validTransitions in Hnt.
    unfold OrderController.updateOrderStatus. rewrite Ho.
    rewrite (bool_decide_eq_false_2 _ Hnt). simpl.
    split; [by case_match|].
    intros Hauth. case_match eqn:E; [|done]. exfalso.
    rewrite !andb_true_iff, !negb_true_iff, !bool_decide_eq_false in E.
    destruct E as [[Hb Hs] Ha]. unfold OrderController.isAdmin in Ha.
    destruct Hauth as [[?|?]|Hr]; [done..|]. by rewrite Hr in Ha.
  - intros reason Hnt.
    assert (OrderModel.canBeCancelled o = false) as Hcc.
    { apply bool_decide_eq_false. intros Hin. apply Hnt.
      destruct (OrderModel.status o); set_unfold in Hin;
        (repeat destruct Hin as [Hin|Hin]); try done; constructor. }
    unfold OrderController.cancelOrder. rewrite Ho, Hcc. simpl.
    split_and!.
    + repeat case_match; done.
    + repeat case_match; done.
    + intros [Hp|Hp] Hr; rewrite (bool_decide_eq_false_2 _ Hr),
        (bool_decide_eq_true_2 _ Hp), ?andb_false_r; done.
  - intros reason Hp Hr. unfold OrderController.initiateDispute.
    rewrite Ho, (bool_decide_eq_false_2 _ Hr).
    assert (negb (bool_decide (OrderModel.buyer o = user_id user)) &&
            negb (bool_decide (OrderModel.seller o = user_id user)) = false) as ->.
    { destruct Hp as [Hp|Hp]; rewrite (bool_decide_eq_true_2 _ Hp), ?andb_false_r; done. }
    split.
    + intros Hd. by rewrite (bool_decide_eq_true_2 _ Hd).
    + intros Hd. rewrite (bool_decide_eq_false_2 _ Hd). eexists. simpl.
      split_and!; reflexivity.
Qed.

(** C1 on a completed order: Bob asks to move it back to pending. *)
Lemma invalid_transition_rejected_witness :
  ∃ o, orders Scenario.completed1 !! "o1" = Some o ∧
       (OrderController.updateOrderStatus Scenario.completed1 Scenario.bob
          (Scenario.at_ 3000 "-") "o1" OrderModel.pending None).1 = Scenario.completed1 ∧
       (OrderController.updateOrderStatus Scenario.completed1 Scenario.bob
          (Scenario.at_ 3000 "-") "o1" OrderModel.pending None).2 =
       fail "Cannot change status from completed to pending" 400.
Proof.
  eexists. split; [reflexivity|].
  pose proof (invalid_transition_rejected Scenario.completed1 Scenario.bob
                (Scenario.at_ 3000 "-") "o1" _ eq_refl) as (Hupd & _ & _).
  destruct (Hupd OrderModel.pending None) as [Hdb Hresp]; [inversion 1|].
  split; [exact Hdb|]. apply Hresp. left. right. reflexivity.
Defined.

Lemma listings_pushOrder u o db : listings (OrderController.pushOrder u o db) = listings db.
Proof. done. Qed.

Lemma orders_pushOrder u o db : orders (OrderController.pushOrder u o db) = orders db.
Proof. done. Qed.

Lemma setListingStatus_lookup k s db l :
  listings db !! k = Some l →
  listings (setListingStatus k s db) !! k = Some (ListingModel.set_status s l).
Proof. intros H. simpl. by rewrite lookup_alter_eq, H. Qed.

Lemma flipped_set_status s l : flipped s l (ListingModel.set_status s l).
Proof. by split_and!. Qed.

Lemma updateOrderStatus_stores db user e id o target note :
  orders db !! id = Some o →
  party user o ∨ role user = admin →
  transition (OrderModel.status o) target →
  (OrderController.updateOrderStatus db user e id target note).1 =
  (if bool_decide (target = OrderModel.cancelled)
   then setListingStatus (OrderModel.listing o) ListingModel.active else λ d, d)
    ((if bool_decide (target = OrderModel.completed)
      then setListingStatus (OrderModel.listing o) ListingModel.sold else λ d, d)
       (saveOrder id (OrderModel.updateStatus o target note e) db)).
Proof.
  intros Ho Hauth Ht%transition_validTransitions.
  unfold OrderController.updateOrderStatus. rewrite Ho.
  assert (negb (bool_decide (OrderModel.buyer o = user_id user)) &&
          negb (bool_decide (OrderModel.seller o = user_id user)) &&
          negb (OrderController.isAdmin user) = false) as ->.
  { unfold OrderController.isAdmin.
    destruct Hauth as [[Hp|Hp]|Hr];
      rewrite ?(bool_decide_eq_true_2 _ Hp), ?Hr, ?andb_false_r; done. }
  rewrite (bool_decide_eq_true_2 _ Ht). simpl.
  by repeat case_match.
Qed.

Lemma cancelOrder_stores db user e id o (reason : Js.String) :
  orders db !! id = Some o → party user o → reason ≠ EmptyString →
  OrderModel.canBeCancelled o = true →
  OrderController.cancelOrder db user e id reason =
  (setListingStatus (OrderModel.listing o) ListingModel.active
     (saveOrder id (OrderModel.cancel o (user_id user) reason e) db),
   ok 200 "Order cancelled successfully"
      [{| room := if bool_decide (user_id user = OrderModel.buyer o)
                  then OrderModel.seller o else OrderModel.buyer o;
          event := "order-cancelled" |}]).
Proof.
  intros Ho Hp Hr Ht. unfold OrderController.cancelOrder.
  rewrite (bool_decide_eq_false_2 _ Hr), Ho.
  assert (negb (bool_decide (OrderModel.buyer o = user_id user)) &&
          negb (bool_decide (OrderModel.seller o = user_id user)) = false) as ->.
  { destruct Hp as [Hp|Hp]; rewrite (bool_decide_eq_true_2 _ Hp), ?andb_false_r; done. }
  by rewrite Ht.
Qed.

Lemma createOrder_writes_nothing db user e b :
  (OrderController.createOrder db user e b).1 = db ∧
  succeeded (OrderController.createOrder db user e b).2 = false.
Proof.
  unfold OrderController.createOrder, OrderController.createOrderWith.
  repeat (case_match; try done).
  all: match goal with H : OrderModel.create false _ _ = inr _ |- _ =>
         by rewrite create_orderToCreate in H end.
Qed.

Lemma createOrder_throws db user e b l :
  listings db !! OrderController.listingId b = Some l →
  ListingModel.status l = ListingModel.active →
  ListingModel.seller l ≠ user_id user →
  (0 <= OrderController.body_finalPrice b)%Qc →
  OrderController.createOrder db user e b =
  (db, throw (match users db !! ListingModel.seller l with
              | Some _ => "ValidationError"
              | None => "TypeError"
              end)).
Proof.
  intros Hl Hs Hsel Hp.
  unfold OrderController.createOrder, OrderController.createOrderWith.
  rewrite Hl, (bool_decide_eq_true_2 _ Hs). cbn [negb].
  destruct (users db !! ListingModel.seller l) as [u|]; [|done].
  rewrite (bool_decide_eq_false_2 _ Hsel).
  rewrite bool_decide_eq_false_2 by by apply Qcle_not_lt.
  by rewrite create_orderToCreate.
Qed.

(** C5. The listing does not follow the creation of an order, it does
    follow the rest of its life.
    - [createOrder] never stores an order and never writes a listing. Under
      the conditions of the claim (an active listing, a buyer who is not its
      seller, a final price that is not negative) the call throws: the
      document handed to [Order.create] has no order number, and it is
      validated before the hook that would give it one runs. The listing is
      still active.
    - For an order stored under [id] whose listing exists, [updateOrderStatus]
      by the buyer, the seller or an admin along a transition of the table
      stores the order with the new status; when the new status is completed
      the listing is now sold, when it is cancelled the listing is now
      active, otherwise the listing is as it was. Nothing else of the listing
      changes.
    - [cancelOrder] by the buyer or the seller who gives a reason, on an
      order that can be cancelled (pending, confirmed or meetup-scheduled),
      succeeds: the order is cancelled and the listing is active, nothing
      else of it changed. *)
Theorem listing_follows_order_after_creation db user e :
  (∀ b, (OrderController.createOrder db user e b).1 = db ∧
        succeeded (OrderController.createOrder db user e b).2 = false) ∧
  (∀ b l,
     listings db !! OrderController.listingId b = Some l →
     ListingModel.status l = ListingModel.active →
     ListingModel.seller l ≠ user_id user →
     (0 <= OrderController.body_finalPrice b)%Qc →
     (∃ what, (OrderController.createOrder db user e b).2 = throw what) ∧
     (is_Some (users db !! ListingModel.seller l) →
      (OrderController.createOrder db user e b).2 = throw "ValidationError") ∧
     orders (OrderController.createOrder db user e b).1 !! newId e = orders db !! newId e ∧
     ListingModel.status <$>
       listings (OrderController.createOrder db user e b).1 !! OrderController.listingId b
       = Some ListingModel.active) ∧
  (∀ id o note l (target : OrderModel.OrderStatus),
     orders db !! id = Some o →
     listings db !! OrderModel.listing o = Some l →
     party user o ∨ role user = admin →
     transition (OrderModel.status o) target →
     ∃ o' l',
       orders (OrderController.updateOrderStatus db user e id target note).1 !! id = Some o' ∧
       OrderModel.status o' = target ∧
       listings (OrderController.updateOrderStatus db user e id target note).1
         !! OrderModel.listing o = Some l' ∧
       (target = OrderModel.completed → flipped ListingModel.sold l l') ∧
       (target = OrderModel.cancelled → flipped ListingModel.active l l') ∧
       (target ≠ OrderModel.completed → target ≠ OrderModel.cancelled → l' = l)) ∧
  (∀ id o (reason : Js.String) l,
     orders db !! id = Some o →
     listings db !! OrderModel.listing o = Some l →
     party user o → reason ≠ EmptyString →
     OrderModel.canBeCancelled o = true →
     succeeded (OrderController.cancelOrder db user e id reason).2 = true ∧
     ∃ o' l',
       orders (OrderController.cancelOrder db user e id reason).1 !! id = Some o' ∧
       OrderModel.status o' = OrderModel.cancelled ∧
       listings (OrderController.cancelOrder db user e id reason).1 !! OrderModel.listing o
         = Some l' ∧
       flipped ListingModel.active l l').
Proof.
  split_and!.
  - intros b. apply createOrder_writes_nothing.
  - intros b l Hl Hs Hsel Hp.
    rewrite (createOrder_throws db user e b l Hl Hs Hsel Hp). simpl. rewrite Hl. simpl.
    split_and!; [by eexists| |done|by rewrite Hs].
    by intros [u ->].
  - intros id o note l target Ho Hl Hauth Ht.
    rewrite (updateOrderStatus_stores db user e id o target note Ho Hauth Ht).
    exists (OrderModel.updateStatus o target note e).
    destruct (decide (target = OrderModel.completed)) as [->|Hc];
      [|destruct (decide (target = OrderModel.cancelled)) as [->|Hx]].
    + exists (ListingModel.set_status ListingModel.sold l). simpl.
      rewrite lookup_insert_eq, lookup_alter_eq, Hl.
      split_and!; [done|done|done|intros _; apply flipped_set_status|done|done].
    + exists (ListingModel.set_status ListingModel.active l). simpl.
      rewrite lookup_insert_eq, lookup_alter_eq, Hl.
      split_and!; [done|done|done|done|intros _; apply flipped_set_status|done].
    + exists l. rewrite !bool_decide_eq_false_2 by done. simpl.
      rewrite lookup_insert_eq. by split_and!.
  - intros id o reason l Ho Hl Hp Hr Ht.
    rewrite (cancelOrder_stores db user e id o reason Ho Hp Hr Ht). simpl.
    split; [done|].
    exists (OrderModel.cancel o (user_id user) reason e),
      (ListingModel.set_status ListingModel.active l).
    rewrite lookup_insert_eq, lookup_alter_eq, Hl.
    split_and!; [done|done|done|apply flipped_set_status].
Qed.

(** C5 on Alice ordering Bob's lamp: the call throws, no order is stored
    and the lamp is still active. With the order in the collection and the
    lamp reserved, Alice cancels and the lamp is active again; when the
    order has gone as far as in-progress, Bob completes it and the lamp is
    sold. *)
Lemma listing_follows_order_after_creation_witness :
  ((∃ what, (OrderController.createOrder Scenario.start Scenario.alice (Scenario.at_ 1000 "o1")
              (Scenario.offerFor "L1" 45)).2 = throw what) ∧
   (OrderController.createOrder Scenario.start Scenario.alice (Scenario.at_ 1000 "o1")
      (Scenario.offerFor "L1" 45)).2 = throw "ValidationError" ∧
   orders (OrderController.createOrder Scenario.start Scenario.alice (Scenario.at_ 1000 "o1")
             (Scenario.offerFor "L1" 45)).1 !! "o1" = None ∧
   ListingModel.status <$>
     listings (OrderController.createOrder Scenario.start Scenario.alice (Scenario.at_ 1000 "o1")
                 (Scenario.offerFor "L1" 45)).1 !! "L1" = Some ListingModel.active) ∧
  (∃ l o' l',
     listings Scenario.ordered !! "L1" = Some l ∧
     ListingModel.status l = ListingModel.reserved ∧
     orders (OrderController.cancelOrder Scenario.ordered Scenario.alice (Scenario.at_ 2000 "-")
               "o1" "changed my mind").1 !! "o1" = Some o' ∧
     OrderModel.status o' = OrderModel.cancelled ∧
     listings (OrderController.cancelOrder Scenario.ordered Scenario.alice (Scenario.at_ 2000 "-")
                 "o1" "changed my mind").1 !! "L1" = Some l' ∧
     flipped ListingModel.active l l') ∧
  (∃ l o' l',
     listings (Scenario.run Scenario.ordered (take 3 (Scenario.complete "o1" Scenario.bob 2000)))
       !! "L1" = Some l ∧
     ListingModel.status l = ListingModel.reserved ∧
     orders (OrderController.updateOrderStatus
               (Scenario.run Scenario.ordered (take 3 (Scenario.complete "o1" Scenario.bob 2000)))
               Scenario.bob (Scenario.at_ 2003 "-") "o1" OrderModel.completed None).1 !! "o1"
       = Some o' ∧
     OrderModel.status o' = OrderModel.completed ∧
     listings (OrderController.updateOrderStatus
                 (Scenario.run Scenario.ordered (take 3 (Scenario.complete "o1" Scenario.bob 2000)))
                 Scenario.bob (Scenario.at_ 2003 "-") "o1" OrderModel.completed None).1 !! "L1"
       = Some l' ∧
     flipped ListingModel.sold l l').
Proof.
  split; [|split].
  - destruct (listing_follows_order_after_creation Scenario.start Scenario.alice
                (Scenario.at_ 1000 "o1")) as (_ & Hcreate & _).
    destruct (Hcreate (Scenario.offerFor "L1" 45) Scenario.lamp) as (H1 & H2 & H3 & H4).
    + vm_compute. reflexivity.
    + reflexivity.
    + discriminate.
    + vm_compute. discriminate.
    + split; [exact H1|]. split; [apply H2; vm_compute; eexists; reflexivity|].
      split; [etransitivity; [exact H3|vm_compute; reflexivity]|exact H4].
  - destruct (listing_follows_order_after_creation Scenario.ordered Scenario.alice
                (Scenario.at_ 2000 "-")) as (_ & _ & _ & Hcancel).
    eexists. 
    edestruct Hcancel with (id := "o1") (reason := Js.str "changed my mind")
      as (_ & o' & l' & H1 & H2 & H3 & H4).
    + vm_compute. reflexivity.
    + vm_compute. reflexivity.
    + left. vm_compute. reflexivity.
    + discriminate.
    + vm_compute. reflexivity.
    + exists o', l'. split; [vm_compute; reflexivity|].
      split; [reflexivity|]. split; [exact H1|]. split; [exact H2|]. split; [exact H3|exact H4].
  - destruct (listing_follows_order_after_creation 
                (Scenario.run Scenario.ordered (take 3 (Scenario.complete "o1" Scenario.bob 2000)))
                Scenario.bob (Scenario.at_ 2003 "-")) as (_ & _ & Hupd & _).
    eexists.
    edestruct Hupd with (id := "o1") (note := @None Js.String) (target := OrderModel.completed)
      as (o' & l' & H1 & H2 & H3 & H4 & _).
    + vm_compute. reflexivity.
    + vm_compute. reflexivity.
    + left. right. vm_compute. reflexivity.
    + vm_compute. constructor.
    + exists o', l'. split; [vm_compute; reflexivity|].
      split; [reflexivity|]. split; [exact H1|]. split; [exact H2|]. split; [exact H3|].
      apply H4. reflexivity.
Defined.

Section Ratings.
Import OrderModel.

Lemma ratedOrders_scores_from (b : bool) (t : ObjectId) (l : list Order) (a : float) :
  foldl (λ (sum : float) (o : Order),
      (sum + Js.number
               match (if b then buyerRating (rating o) else sellerRating (rating o)) with
               | Some r => score r
               | None => 0
               end)%float) a
    (filter (λ o,
       (if b then seller o else buyer o) = t ∧ status o = completed ∧
       is_Some (if b then buyerRating (rating o) else sellerRating (rating o))) l)
  = foldl (λ sum x, sum + Js.number x)%float a
      (l ≫= λ o,
         if b
         then (if bool_decide (status o = completed ∧ seller o = t)
               then scoreOf (buyerRating (rating o)) else [])
         else (if bool_decide (status o = completed ∧ buyer o = t)
               then scoreOf (sellerRating (rating o)) else [])) ∧
  List.length
    (filter (λ o,
       (if b then seller o else buyer o) = t ∧ status o = completed ∧
       is_Some (if b then buyerRating (rating o) else sellerRating (rating o))) l)
  = List.length
      (l ≫= λ o,
         if b
         then (if bool_decide (status o = completed ∧ seller o = t)
               then scoreOf (buyerRating (rating o)) else [])
         else (if bool_decide (status o = completed ∧ buyer o = t)
               then scoreOf (sellerRating (rating o)) else [])).
Proof.
  revert a. induction l as [|o l IH]; intros a; [done|].
  rewrite filter_cons, bind_cons, foldl_app, length_app.
  case_decide as HP.
  - destruct HP as (Hr & Hs & [r Hsl]). destruct b.
    + rewrite bool_decide_eq_true_2 by done. rewrite Hsl. simpl. rewrite Hsl.
      destruct (IH (a + Js.number (score r))%float) as [-> ->]. done.
    + rewrite bool_decide_eq_true_2 by done. rewrite Hsl. simpl. rewrite Hsl.
      destruct (IH (a + Js.number (score r))%float) as [-> ->]. done.
  - assert ((if b
             then (if bool_decide (status o = completed ∧ seller o = t)
                   then scoreOf (buyerRating (rating o)) else [])
             else (if bool_decide (status o = completed ∧ buyer o = t)
                   then scoreOf (sellerRating (rating o)) else [])) = []) as ->.
    { destruct b; case_bool_decide as HQ; try done.
      - destruct (buyerRating (rating o)) eqn:E; [|done].
        exfalso. apply HP. destruct HQ. by split_and!.
      - destruct (sellerRating (rating o)) eqn:E; [|done].
        exfalso. apply HP. destruct HQ. by split_and!. }
    simpl. apply IH.
Qed.

Lemma ratedOrders_scores b t (os : gmap ObjectId Order) :
  sumRatings b (ratedOrders b t os) = total (scoresAs b os t) ∧
  List.length (ratedOrders b t os) = List.length (scoresAs b os t).
Proof.
  unfold sumRatings, ratedOrders, total, scoresAs, scoresAsSeller, scoresAsBuyer.
  destruct (ratedOrders_scores_from b t (docs os) 0%float) as [Hs Hl].
  destruct b; by rewrite Hs, Hl.
Qed.

Lemma averageRating_mean b t (os : gmap ObjectId Order) :
  ratedOrders b t os ≠ [] →
  averageRating b (ratedOrders b t os) = mean (scoresAs b os t).
Proof.
  intros Hne. unfold averageRating, mean.
  destruct (ratedOrders_scores b t os) as [-> <-].
  case_match eqn:E; [done|].
  apply Z.ltb_ge in E. destruct (ratedOrders b t os); [done|simpl in E; lia].
Qed.

(** The order that has just been rated is one of those the query finds. *)
Lemma ratedOrders_rated o u sc rv e id (os : gmap ObjectId Order) :
  status o = completed →
  ratedOrders (bool_decide (buyer o = u))
    (if bool_decide (buyer o = u) then seller o else buyer o)
    (<[id := setRatingSlot o u sc rv e]> os) ≠ [].
Proof.
  intros Hs Hnil.
  assert (setRatingSlot o u sc rv e ∈
          ratedOrders (bool_decide (buyer o = u))
            (if bool_decide (buyer o = u) then seller o else buyer o)
            (<[id := setRatingSlot o u sc rv e]> os)) as Hin.
  { unfold ratedOrders. apply list_elem_of_filter. split.
    - unfold setRatingSlot. simpl. by destruct (bool_decide (buyer o = u)); split_and!.
    - unfold docs. apply list_elem_of_fmap. exists (id, setRatingSlot o u sc rv e).
      split; [done|]. apply elem_of_map_to_list, lookup_insert_eq. }
  rewrite Hnil in Hin. by apply elem_of_nil in Hin.
Qed.

End Ratings.

(** C4 at the failing input. Bob sold a lamp to Alice, who rated him 5; he
    then bought a book from Alice, who now rates him 1. Bob has received
    the scores 5 and 1 over his completed orders, with mean 3, but his
    profile says average 1 over 1 rating. *)
Lemma rating_ignores_other_role :
  let r := route Scenario.twoOrders Scenario.alice (Scenario.at_ 6000 "-")
             (PostOrderRating "o2" 1 None) in
  succeeded r.2 = true ∧
  scoresReceived (orders r.1) "bob" = [5; 1] ∧
  mean (scoresReceived (orders r.1) "bob") = 3%float ∧
  (λ p, UserModel.count (UserModel.rating p)) <$> users r.1 !! "bob" = Some 1 ∧
  (λ p, UserModel.average (UserModel.rating p)) <$> users r.1 !! "bob" = Some 1%float.
Proof. split_and!; vm_compute; reflexivity. Qed.

(** C4. What [addRating] leaves on the profile. After a successful
    [addRating] the profile of the counterparty, when it exists, holds the
    mean (the sum of the scores divided by their number, both in doubles)
    and the number of the scores that party has received in the role in
    which it was just rated: as seller (from the buyers of its completed
    orders) when the buyer rates, as buyer (from the sellers of its
    completed orders) when the seller rates. The rest of the profile is as
    it was. Scores received in the other role are not counted, although the
    profile has one rating for both. *)
Theorem rating_recomputed_per_role db user e id sc rv o p byBuyer target :
  orders db !! id = Some o →
  succeeded (OrderController.addRating db user e id sc rv).2 = true →
  byBuyer = bool_decide (OrderModel.buyer o = user_id user) →
  target = (if byBuyer then OrderModel.seller o else OrderModel.buyer o) →
  users db !! target = Some p →
  ∃ p',
    users (OrderController.addRating db user e id sc rv).1 !! target = Some p' ∧
    UserModel.average (UserModel.rating p') =
      mean (scoresAs byBuyer (orders (OrderController.addRating db user e id sc rv).1) target) ∧
    UserModel.count (UserModel.rating p') =
      Z.of_nat (List.length
        (scoresAs byBuyer (orders (OrderController.addRating db user e id sc rv).1) target)) ∧
    UserModel.orders p' = UserModel.orders p.
Proof.
  intros Ho. unfold OrderController.addRating, OrderModel.addRating. rewrite Ho.
  destruct (OrderModel.canBeRated o) eqn:Hc; [|done]. cbn [negb].
  destruct (negb _ && negb _); [done|].
  destruct (OrderController.hasScore _); [done|].
  destruct (OrderModel.score_valid sc); [|done].
  simpl. intros _ -> -> Hp.
  rewrite lookup_alter_eq, Hp. simpl. eexists. split; [done|]. simpl.
  apply bool_decide_eq_true in Hc.
  rewrite averageRating_mean by by apply ratedOrders_rated.
  by destruct (ratedOrders_scores (bool_decide (OrderModel.buyer o = user_id user))
    (if bool_decide (OrderModel.buyer o = user_id user)
     then OrderModel.seller o else OrderModel.buyer o)
    (<[id:=OrderModel.setRatingSlot o (user_id user) sc rv e]> (orders db))) as [_ ->].
Qed.

(** C4 on Alice rating Bob, the buyer of her book: his profile now counts
    the one score he received as a buyer. *)
Lemma rating_recomputed_per_role_witness :
  ∃ p, users Scenario.twoOrders !! "bob" = Some p ∧
  ∃ p',
    users (OrderController.addRating Scenario.twoOrders Scenario.alice
             (Scenario.at_ 6000 "-") "o2" 1 None).1 !! "bob" = Some p' ∧
    UserModel.average (UserModel.rating p') =
      mean (scoresAs false
              (orders (OrderController.addRating Scenario.twoOrders Scenario.alice
                         (Scenario.at_ 6000 "-") "o2" 1 None).1) "bob") ∧
    UserModel.count (UserModel.rating p') =
      Z.of_nat (List.length
        (scoresAs false
           (orders (OrderController.addRating Scenario.twoOrders Scenario.alice
                      (Scenario.at_ 6000 "-") "o2" 1 None).1) "bob")) ∧
    UserModel.orders p' = UserModel.orders p.
Proof.
  eexists. split; [vm_compute; reflexivity|].
  eapply (rating_recomputed_per_role Scenario.twoOrders Scenario.alice
            (Scenario.at_ 6000 "-") "o2" 1 None _ _ false "bob").
  - vm_compute. reflexivity.
  - vm_compute. reflexivity.
  - vm_compute. reflexivity.
  - vm_compute. reflexivity.
  - vm_compute. reflexivity.
Defined.

Lemma addRating_success db user e id sc rv :
  succeeded (OrderController.addRating db user e id sc rv).2 = true →
  ∃ o us,
    orders db !! id = Some o ∧
    OrderModel.canBeRated o = true ∧
    negb (bool_decide (OrderModel.buyer o = user_id user)) &&
    negb (bool_decide (OrderModel.seller o = user_id user)) = false ∧
    OrderController.hasScore (slotOf user o) = false ∧
    OrderModel.score_valid sc = true ∧
    OrderController.addRating db user e id sc rv =
    (with_users us
       (with_orders (<[id := OrderModel.setRatingSlot o (user_id user) sc rv e]> (orders db)) db),
     ok 200 "Rating added successfully" []).
Proof.
  unfold OrderController.addRating, OrderModel.addRating, slotOf.
  destruct (orders db !! id) as [o|] eqn:Ho; [|done].
  destruct (OrderModel.canBeRated o) eqn:Hc; [|done]. simpl.
  destruct (negb _ && negb _) eqn:Hp; [done|].
  destruct (OrderController.hasScore _) eqn:Hs; [done|].
  destruct (OrderModel.score_valid sc) eqn:Hv; [|done]. simpl. intros _.
  by eexists o, _.
Qed.

Lemma addRating_again db user e id sc rv o :
  orders db !! id = Some o →
  OrderModel.canBeRated o = true →
  negb (bool_decide (OrderModel.buyer o = user_id user)) &&
  negb (bool_decide (OrderModel.seller o = user_id user)) = false →
  OrderController.hasScore (slotOf user o) = true →
  OrderController.addRating db user e id sc rv =
  (db, fail "You have already rated this order" 400).
Proof.
  intros Ho Hc Hp Hs. unfold OrderController.addRating.
  rewrite Ho, Hc. simpl. rewrite Hp. unfold slotOf in Hs. by rewrite Hs.
Qed.

(** C8. In a reachable database, when [addRating] succeeds the order is
    completed, the caller is its buyer or its seller, and the caller's
    rating slot was unset; the slot now holds the score, which lies between
    1 and 5. Any further [addRating] by the same caller on the same order is
    answered with the 400 error "You have already rated this order" and
    leaves the database, hence the order and both of its slots, as it is. *)
Theorem rating_once db user e id sc rv :
  reachable db →
  succeeded (OrderController.addRating db user e id sc rv).2 = true →
  ∃ o o',
    orders db !! id = Some o ∧
    OrderModel.status o = OrderModel.completed ∧
    party user o ∧
    slotOf user o = None ∧
    orders (OrderController.addRating db user e id sc rv).1 !! id = Some o' ∧
    OrderModel.score <$> slotOf user o' = Some sc ∧
    1 <= sc <= 5 ∧
    ∀ e2 sc2 rv2,
      OrderController.addRating (OrderController.addRating db user e id sc rv).1
        user e2 id sc2 rv2
      = ((OrderController.addRating db user e id sc rv).1,
         fail "You have already rated this order" 400).
Proof.
  intros [Hok _]%reachable_ok Hsucc.
  destruct (addRating_success _ _ _ _ _ _ Hsucc) as (o & us & Ho & Hc & Hp & Hs & Hv & Heq).
  rewrite Heq. simpl. apply score_valid_spec in Hv.
  assert (party user o) as Hparty.
  { apply andb_false_iff in Hp as [Hp|Hp]; apply negb_false_iff, bool_decide_eq_true in Hp;
      [by left|by right]. }
  exists o, (OrderModel.setRatingSlot o (user_id user) sc rv e).
  split; [done|]. split; [by apply bool_decide_eq_true in Hc|]. split; [done|].
  split; [|split; [apply lookup_insert_eq|split; [|split; [done|]]]].
  - destruct (Hok id o Ho) as (_ & Hb & Hsl). unfold slotOf in *.
    destruct (bool_decide (OrderModel.buyer o = user_id user)),
      (OrderModel.buyerRating (OrderModel.rating o)) as [rb|],
      (OrderModel.sellerRating (OrderModel.rating o)) as [rs|]; try done;
      simpl in Hs; apply negb_false_iff, Z.eqb_eq in Hs.
    all: first [ specialize (Hb _ eq_refl); lia | specialize (Hsl _ eq_refl); lia ].
  - unfold slotOf, OrderModel.setRatingSlot. simpl.
    by destruct (bool_decide (OrderModel.buyer o = user_id user)).
  - intros e2 sc2 rv2.
    apply (addRating_again _ user e2 id sc2 rv2
             (OrderModel.setRatingSlot o (user_id user) sc rv e)).
    + apply lookup_insert_eq.
    + exact Hc.
    + exact Hp.
    + unfold slotOf, OrderModel.setRatingSlot. simpl.
      destruct (bool_decide (OrderModel.buyer o = user_id user)); simpl;
        apply negb_true_iff, Z.eqb_neq; lia.
Qed.

(** C8 on Alice rating the completed order of the lamp. *)
Lemma rating_once_witness :
  ∃ o o',
    orders Scenario.completed1 !! "o1" = Some o ∧
    OrderModel.status o = OrderModel.completed ∧
    party Scenario.alice o ∧
    slotOf Scenario.alice o = None ∧
    orders (OrderController.addRating Scenario.completed1 Scenario.alice
              (Scenario.at_ 3000 "-") "o1" 5 (Some "great")).1 !! "o1" = Some o' ∧
    OrderModel.score <$> slotOf Scenario.alice o' = Some 5 ∧
    1 <= 5 <= 5 ∧
    ∀ e2 sc2 rv2,
      OrderController.addRating
        (OrderController.addRating Scenario.completed1 Scenario.alice
           (Scenario.at_ 3000 "-") "o1" 5 (Some "great")).1
        Scenario.alice e2 "o1" sc2 rv2
      = ((OrderController.addRating Scenario.completed1 Scenario.alice
            (Scenario.at_ 3000 "-") "o1" 5 (Some "great")).1,
         fail "You have already rated this order" 400).
Proof.
  apply (rating_once Scenario.completed1 Scenario.alice (Scenario.at_ 3000 "-") "o1" 5
           (Some "great")).
  - apply reachable_completed1.
  - vm_compute. reflexivity.
Defined.

Section Reading.
Import ChatModel.
Implicit Types (c : Chat) (u : ObjectId) (m : Message).

Lemma chat_ok_pre_save c : chat_ok c → pre_save_ok c = true.
Proof. intros ((a & b & Hp & _) & _). unfold pre_save_ok. by rewrite Hp. Qed.

Lemma markChatAsRead_participant db user e id c :
  chat_ok c → chats db !! id = Some c → user_id user ∈ participants c →
  ChatController.markChatAsRead db user e id =
  (with_chats (<[id := markAsRead c (user_id user) e]> (chats db)) db,
   ok 200 "Chat marked as read" []).
Proof.
  intros Hok Hc Hu%isParticipant_spec. unfold ChatController.markChatAsRead, saveChat.
  rewrite Hc, Hu. simpl.
  assert (pre_save_ok (markAsRead c (user_id user) e) = true) as ->; [|done].
  exact (chat_ok_pre_save c Hok).
Qed.

Lemma unreadFor_readBy u t m : unreadFor u (readBy u t m) = false.
Proof.
  unfold readBy. destruct (unreadFor u m) eqn:E; [|done].
  unfold unreadFor. done.
Qed.

Lemma readBy_readBy u t1 t2 m : readBy u t2 (readBy u t1 m) = readBy u t1 m.
Proof. unfold readBy at 1. by rewrite unreadFor_readBy. Qed.

Lemma existsb_unreadFor_readBy u t (ms : list Message) :
  existsb (unreadFor u) (readBy u t <$> ms) = false.
Proof.
  induction ms as [|m ms IH]; [done|].
  rewrite fmap_cons. simpl. by rewrite unreadFor_readBy, IH.
Qed.

Lemma markAsRead_twice c u e1 e2 :
  markAsRead (markAsRead c u e1) u e2 = markAsRead c u e1.
Proof.
  unfold markAsRead at 1. rewrite markAsRead_messages, existsb_unreadFor_readBy.
  assert (readBy u (now e2) <$> (readBy u (now e1) <$> messages c)
          = readBy u (now e1) <$> messages c) as ->; [|done].
  induction (messages c) as [|m ms IH]; [done|].
  rewrite !fmap_cons, readBy_readBy. by f_equal.
Qed.

Lemma markedRead_readBy u t m : markedRead u t m (readBy u t m).
Proof.
  unfold markedRead, readBy.
  destruct (unreadFor u m) eqn:E.
  - apply unreadFor_spec in E. rewrite bool_decide_eq_true_2; [by split_and!|tauto].
  - rewrite bool_decide_eq_false_2; [by split_and!|].
    intros [? ?]. apply not_true_iff_false in E. apply E, unreadFor_spec. done.
Qed.

Lemma markAsRead_marked c u e :
  Forall2 (markedRead u (now e)) (messages c) (messages (markAsRead c u e)).
Proof.
  rewrite markAsRead_messages. apply Forall2_fmap_r, Forall_Forall2_diag, Forall_forall.
  intros m _. apply markedRead_readBy.
Qed.

Lemma markAsRead_others_read c u e m :
  m ∈ messages (markAsRead c u e) → sender m ≠ u → isRead m = true.
Proof.
  rewrite markAsRead_messages. intros (m0 & -> & _)%list_elem_of_fmap Hs.
  pose proof (unreadFor_readBy u (now e) m0) as H. unfold unreadFor in H.
  rewrite bool_decide_eq_false_2 in H by done. simpl in H.
  rewrite andb_true_r in H. by apply negb_false_iff in H.
Qed.

End Reading.

(** C3. For a participant of a chat of a reachable database,
    [markChatAsRead] succeeds and stores the chat in which every message
    that was unread and written by somebody else has its read flag set and
    the time of the call as its read time, every other message keeping its
    flag and read time, and all of them their other fields; the caller's
    unread counter is zero. Calling it again right away succeeds and gives
    back the very same database: the counter is still zero and no message
    has changed. *)
Theorem markAsRead_idempotent db user e1 e2 id c :
  reachable db → chats db !! id = Some c → user_id user ∈ ChatModel.participants c →
  ∃ c1,
    ChatController.markChatAsRead db user e1 id =
      (with_chats (<[id := c1]> (chats db)) db, ok 200 "Chat marked as read" []) ∧
    Forall2 (markedRead (user_id user) (now e1)) (ChatModel.messages c) (ChatModel.messages c1) ∧
    ChatModel.unreadOf c1 (user_id user) = 0 ∧
    ChatController.markChatAsRead (with_chats (<[id := c1]> (chats db)) db) user e2 id =
      (with_chats (<[id := c1]> (chats db)) db, ok 200 "Chat marked as read" []).
Proof.
  intros [_ Hok]%reachable_ok Hc Hu. specialize (Hok id c Hc). simpl in Hok.
  exists (ChatModel.markAsRead c (user_id user) e1). split_and!.
  - by apply markChatAsRead_participant.
  - apply markAsRead_marked.
  - by apply unreadOf_markAsRead.
  - erewrite markChatAsRead_participant; [| |apply lookup_insert_eq|exact Hu].
    + rewrite markAsRead_twice. unfold with_chats. simpl. by rewrite insert_insert_eq.
    + by apply chat_ok_markAsRead.
Qed.

(** C3 on Bob reading the chat in which Alice has made an offer. *)
Lemma markAsRead_idempotent_witness :
  ∃ c, chats Scenario.offered !! "c1" = Some c ∧
  ∃ c1,
    ChatController.markChatAsRead Scenario.offered Scenario.bob (Scenario.at_ 3000 "-") "c1" =
      (with_chats (<["c1" := c1]> (chats Scenario.offered)) Scenario.offered,
       ok 200 "Chat marked as read" []) ∧
    Forall2 (markedRead (user_id Scenario.bob) (now (Scenario.at_ 3000 "-")))
      (ChatModel.messages c) (ChatModel.messages c1) ∧
    ChatModel.unreadOf c1 (user_id Scenario.bob) = 0 ∧
    ChatController.markChatAsRead
      (with_chats (<["c1" := c1]> (chats Scenario.offered)) Scenario.offered)
      Scenario.bob (Scenario.at_ 4000 "-") "c1" =
      (with_chats (<["c1" := c1]> (chats Scenario.offered)) Scenario.offered,
       ok 200 "Chat marked as read" []).
Proof.
  eexists. split; [vm_compute; reflexivity|].
  apply (markAsRead_idempotent Scenario.offered Scenario.bob (Scenario.at_ 3000 "-")
           (Scenario.at_ 4000 "-") "c1").
  - apply reachable_offered.
  - vm_compute. reflexivity.
  - apply isParticipant_spec. vm_compute. reflexivity.
Defined.

(** C10. Fetching a chat does not mark it read. [getChatById] loads the
    chat with its participants populated and then asks [isParticipant],
    which compares [participant.toString()] with the caller's identifier: on
    a populated participant that is the text of a document, so the test
    fails for everybody. For every stored chat and every caller, a
    participant or not, the answer is the 403 error "Not authorized to
    access this chat" and the database is as it was: the chat is stored
    unchanged, no message is flagged read and the unread counters keep
    their values. The same caller is served by [markChatAsRead], which
    loads the chat as it is stored. *)
Theorem getChatById_never_marks_read db user e id c :
  chats db !! id = Some c →
  ChatController.getChatById db user e id =
    (db, fail "Not authorized to access this chat" 403) ∧
  chats (ChatController.getChatById db user e id).1 !! id = Some c ∧
  (reachable db → user_id user ∈ ChatModel.participants c →
   succeeded (ChatController.markChatAsRead db user e id).2 = true).
Proof.
  intros Hc. rewrite getChatById_refuses, Hc. split_and!; [done|done|].
  intros [_ Hok]%reachable_ok Hu.
  by rewrite (markChatAsRead_participant db user e id c (Hok id c Hc) Hc Hu).
Qed.

(** C10 on Bob fetching the chat in which Alice has made an offer: he is
    refused and the offer is still unread, although [markChatAsRead] would
    serve him. *)
Lemma getChatById_never_marks_read_witness :
  ∃ c, chats Scenario.offered !! "c1" = Some c ∧
    user_id Scenario.bob ∈ ChatModel.participants c ∧
    ChatModel.unreadOf c (user_id Scenario.bob) = 1 ∧
    ChatController.getChatById Scenario.offered Scenario.bob (Scenario.at_ 3000 "-") "c1" =
      (Scenario.offered, fail "Not authorized to access this chat" 403) ∧
    chats (ChatController.getChatById Scenario.offered Scenario.bob
             (Scenario.at_ 3000 "-") "c1").1 !! "c1" = Some c ∧
    succeeded (ChatController.markChatAsRead Scenario.offered Scenario.bob
                 (Scenario.at_ 3000 "-") "c1").2 = true.
Proof.
  eexists. split; [vm_compute; reflexivity|].
  split; [apply isParticipant_spec; vm_compute; reflexivity|].
  split; [vm_compute; reflexivity|].
  match goal with
  | |- _ ∧ _ !! _ = Some ?c ∧ _ =>
      assert (chats Scenario.offered !! "c1" = Some c) as Hc by (vm_compute; reflexivity);
      destruct (getChatById_never_marks_read Scenario.offered Scenario.bob
                  (Scenario.at_ 3000 "-") "c1" c Hc) as (H1 & H2 & H3)
  end.
  split; [exact H1|]. split; [exact H2|].
  apply H3; [apply reachable_offered|apply isParticipant_spec; vm_compute; reflexivity].
Defined.

Section Sending.
Import ChatModel.
Implicit Types (c : Chat) (u : ObjectId) (m : Message).

Lemma saveChat_same_participants k c c' db :
  pre_save_ok c = true → participants c' = participants c →
  saveChat k c' db = Some (with_chats (<[k := c']> (chats db)) db).
Proof. intros Hs Hp. unfold saveChat, pre_save_ok in *. by rewrite Hp, Hs. Qed.

Lemma sendMessage_success db user e id b :
  succeeded (ChatController.sendMessage db user e id b).2 = true →
  ∃ c r,
    chats db !! id = Some c ∧
    isParticipant c (user_id user) = true ∧
    isBlockedBy c (user_id user) = false ∧
    ChatController.otherParticipant c user = Some r ∧
    isBlockedBy c r = false ∧
    ChatController.sendMessage db user e id b =
      (with_chats (<[id := sent c user e b r]> (chats db)) db,
       ok 201 "Message sent successfully" [{| room := r; event := "new-message" |}]).
Proof.
  unfold ChatController.sendMessage.
  destruct (chats db !! id) as [c|] eqn:Hc; [|done].
  destruct (isParticipant c (user_id user)) eqn:Hp; [|done]. simpl.
  destruct (isBlockedBy c (user_id user)) eqn:Hb; [done|].
  destruct (ChatController.otherParticipant c user) as [r|] eqn:Hr.
  - destruct (isBlockedBy c r) eqn:Hbr; [done|].
    unfold saveChat, pre_save_ok. simpl.
    destruct (_ =? 2)%nat; [|done]. simpl. intros _.
    exists c, r. split_and!; try done.
    unfold with_chats. simpl. by rewrite insert_insert_eq.
  - destruct (blockedBy c); [|done]. destruct (saveChat _ _ _); done.
Qed.

Lemma sendMessage_accepts db user e id b c r :
  chats db !! id = Some c →
  isParticipant c (user_id user) = true →
  isBlockedBy c (user_id user) = false →
  ChatController.otherParticipant c user = Some r →
  isBlockedBy c r = false →
  pre_save_ok c = true →
  ChatController.sendMessage db user e id b =
    (with_chats (<[id := sent c user e b r]> (chats db)) db,
     ok 201 "Message sent successfully" [{| room := r; event := "new-message" |}]).
Proof.
  intros Hc Hp Hb Hr Hbr Hs. unfold ChatController.sendMessage.
  rewrite Hc, Hp, Hb, Hr, Hbr. simpl.
  rewrite !(saveChat_same_participants _ c) by done. simpl.
  unfold with_chats. simpl. by rewrite insert_insert_eq.
Qed.

Lemma sendMessage_rejects db user e id b c :
  chat_ok c → chats db !! id = Some c →
  succeeded (ChatController.sendMessage db user e id b).2 = false →
  (ChatController.sendMessage db user e id b).1 = db.
Proof.
  intros Hok Hc. unfold ChatController.sendMessage. rewrite Hc.
  destruct (isParticipant c (user_id user)) eqn:Hp; [|done]. simpl.
  destruct (isBlockedBy c (user_id user)); [done|].
  apply isParticipant_spec in Hp.
  destruct (otherParticipant_ok c user Hok Hp) as (r & -> & _ & _).
  destruct (isBlockedBy c r); [done|].
  simpl. by rewrite !(saveChat_same_participants _ c) by (done || by apply chat_ok_pre_save).
Qed.

Lemma sendMessageValidation_spec s :
  Validation.sendMessageValidation s =
  if bool_decide (Js.trim s ≠ EmptyString ∧ Validation.charCount (Js.trim s) <= 2000)
  then Some (Js.trim s) else None.
Proof.
  unfold Validation.sendMessageValidation.
  change (Js.str EmptyString) with (@nil N).
  destruct (decide (Js.trim s = [])) as [He|He].
  - rewrite (bool_decide_eq_true_2 _ He), bool_decide_eq_false_2; [done|tauto].
  - rewrite (bool_decide_eq_false_2 _ He).
    destruct (Validation.isLength 2000 (Js.trim s)) eqn:E.
    + apply isLength_spec in E. by rewrite bool_decide_eq_true_2.
    + rewrite bool_decide_eq_false_2; [done|]. intros [_ Hl%isLength_spec]. congruence.
Qed.

Lemma route_sendMessage db user e id b :
  route db user e (PostChatMessage id b) =
  if bool_decide (Js.trim (ChatController.body_content b) ≠ EmptyString ∧
                  Validation.charCount (Js.trim (ChatController.body_content b)) <= 2000)
  then ChatController.sendMessage db user e id (sanitized b)
  else (db, Validation.validation_failed).
Proof. simpl. rewrite sendMessageValidation_spec. by case_bool_decide. Qed.

End Sending.

(** C6. What a successful [sendMessage] request stores: the new message is
    the last one, written by the caller, created at the time of the call,
    with a pending offer status; the counter of the other participant is one
    more than before; the preview holds the first 100 code units of the new
    message and its sender. Its timestamp, however, is unset: it is read from
    the object literal, which has no [createdAt], and not from the stored
    message. *)
Theorem lastMessage_timestamp_unset db user e id b :
  succeeded (route db user e (PostChatMessage id b)).2 = true →
  ∃ c c' m r lm,
    chats db !! id = Some c ∧
    chats (route db user e (PostChatMessage id b)).1 !! id = Some c' ∧
    ChatModel.messages c' = (ChatModel.messages c ++ [m])%list ∧
    ChatModel.sender m = user_id user ∧
    ChatModel.content m = Js.trim (ChatController.body_content b) ∧
    ChatModel.createdAt m = now e ∧
    ChatModel.offer_status (ChatModel.offer_payload m) = ChatModel.offer_pending ∧
    ChatController.otherParticipant c user = Some r ∧
    ChatModel.unreadOf c' r = ChatModel.unreadOf c r + 1 ∧
    ChatModel.lastMessage c' = Some lm ∧
    ChatModel.last_content lm = truncated (ChatModel.content m) ∧
    ChatModel.last_sender lm = ChatModel.sender m ∧
    ChatModel.last_createdAt lm = None.
Proof.
  rewrite route_sendMessage. case_bool_decide as Hv; [|done].
  intros (c & r & Hc & _ & _ & Hr & _ & ->)%sendMessage_success.
  exists c, (sent c user e (sanitized b) r), (ChatController.newMessage user e (sanitized b)), r.
  eexists. split; [done|]. split; [apply lookup_insert_eq|].
  split; [done|]. split; [done|]. split; [apply trim_idem|]. split; [done|].
  split; [simpl; by repeat case_match|]. split; [done|].
  split; [unfold ChatModel.unreadOf at 1; simpl; by rewrite lookup_insert_eq|].
  split; [done|]. split; [|done]. simpl. unfold truncated. by rewrite trim_idem.
Qed.

(** C6 on Alice saying hello in the chat about the lamp. *)
Lemma lastMessage_timestamp_unset_witness :
  ∃ c c' m r lm,
    chats Scenario.talking !! "c1" = Some c ∧
    chats (route Scenario.talking Scenario.alice (Scenario.at_ 2000 "m1")
             (PostChatMessage "c1" (Scenario.say "hello" None))).1 !! "c1" = Some c' ∧
    ChatModel.messages c' = (ChatModel.messages c ++ [m])%list ∧
    ChatModel.sender m = user_id Scenario.alice ∧
    ChatModel.content m = Js.trim (ChatController.body_content (Scenario.say "hello" None)) ∧
    ChatModel.createdAt m = now (Scenario.at_ 2000 "m1") ∧
    ChatModel.offer_status (ChatModel.offer_payload m) = ChatModel.offer_pending ∧
    ChatController.otherParticipant c Scenario.alice = Some r ∧
    ChatModel.unreadOf c' r = ChatModel.unreadOf c r + 1 ∧
    ChatModel.lastMessage c' = Some lm ∧
    ChatModel.last_content lm = truncated (ChatModel.content m) ∧
    ChatModel.last_sender lm = ChatModel.sender m ∧
    ChatModel.last_createdAt lm = None.
Proof.
  apply (lastMessage_timestamp_unset Scenario.talking Scenario.alice (Scenario.at_ 2000 "m1")
           "c1" (Scenario.say "hello" None)).
  vm_compute. reflexivity.
Defined.

(** C9, as the specification states it, fails: a message of type image
    without an image, and a message of type offer without an amount, are
    both accepted and stored. *)
Lemma payload_not_required :
  let picture := Scenario.say "look at this" (Some ChatModel.image) in
  let offer := Scenario.say "my offer" (Some ChatModel.offer) in
  let r1 := route Scenario.talking Scenario.alice (Scenario.at_ 2000 "m1")
              (PostChatMessage "c1" picture) in
  let r2 := route Scenario.talking Scenario.alice (Scenario.at_ 2000 "m1")
              (PostChatMessage "c1" offer) in
  ChatController.body_image picture = None ∧
  succeeded r1.2 = true ∧
  (λ c, ChatModel.image_payload <$> ChatModel.messages c) <$> chats r1.1 !! "c1"
    = Some [None] ∧
  ChatController.body_offer offer = None ∧
  succeeded r2.2 = true ∧
  (λ c, (λ m, ChatModel.amount (ChatModel.offer_payload m)) <$> ChatModel.messages c)
    <$> chats r2.1 !! "c1" = Some [None].
Proof. split_and!; vm_compute; reflexivity. Qed.

Section Blocking.
Import ChatModel.

Lemma not_blocked_spec c :
  chat_ok c → ∀ user r,
  user_id user ∈ participants c →
  ChatController.otherParticipant c user = Some r →
  (isBlockedBy c (user_id user) = false ∧ isBlockedBy c r = false) ↔
  (∀ p, p ∈ participants c → p ∉ blockedBy c).
Proof.
  intros Hok user r Hu Hr.
  destruct (chat_ok_two c _ Hok Hu) as (v & Huv & Hv & Hall & Hf).
  unfold ChatController.otherParticipant in Hr. rewrite Hf in Hr. simplify_eq.
  rewrite <- !not_true_iff_false, !isBlockedBy_spec. split.
  - intros [H1 H2] p [-> | ->]%Hall; done.
  - intros H. split; apply H; [done|done].
Qed.

End Blocking.

Section SendIff.
Import ChatModel.

Lemma sendMessage_succeeds_iff db user e id b :
  reachable db →
  succeeded (route db user e (PostChatMessage id b)).2 = true ↔
  ∃ c, chats db !! id = Some c ∧
       user_id user ∈ participants c ∧
       (∀ p, p ∈ participants c → p ∉ blockedBy c) ∧
       Js.trim (ChatController.body_content b) ≠ EmptyString ∧
       Validation.charCount (Js.trim (ChatController.body_content b)) <= 2000.
Proof.
  intros [_ Hok]%reachable_ok. rewrite route_sendMessage. split.
  - case_bool_decide as Hv; [|done].
    intros (c & r & Hc & Hp%isParticipant_spec & Hb & Hr & Hbr & _)%sendMessage_success.
    exists c. split_and!; [done|done| |tauto..].
    by apply (not_blocked_spec c (Hok id c Hc) user r).
  - intros (c & Hc & Hp & Hnb & Hv). rewrite (bool_decide_eq_true_2 _ Hv).
    specialize (Hok id c Hc). simpl in Hok.
    destruct (otherParticipant_ok c user Hok Hp) as (r & Hr & _ & _).
    apply (not_blocked_spec c Hok user r Hp Hr) in Hnb as [Hb Hbr].
    by rewrite (sendMessage_accepts db user e id (sanitized b) c r Hc
                  (proj2 (isParticipant_spec c _) Hp) Hb Hr Hbr (chat_ok_pre_save c Hok)).
Qed.

Lemma toggleBlockChat_participant db user id c :
  chat_ok c → chats db !! id = Some c → user_id user ∈ participants c →
  validate c = true →
  (ChatController.toggleBlockChat db user id).1 =
  with_chats
    (<[id := assign c (messages c) (lastMessage c) (unreadCount c) (isActive c)
               (if isBlockedBy c (user_id user)
                then filter (λ i, i ≠ user_id user) (blockedBy c)
                else (blockedBy c ++ [user_id user])%list)]> (chats db)) db.
Proof.
  intros Hok Hc Hp%isParticipant_spec Hv. unfold ChatController.toggleBlockChat.
  rewrite Hc, Hp, Hv. simpl.
  by rewrite (saveChat_same_participants _ c) by (done || by apply chat_ok_pre_save).
Qed.

(** What a stored message holds of the request. *)
Lemma newMessage_payload user e b :
  let m := ChatController.newMessage user e b in
  content m = Js.trim (ChatController.body_content b) ∧
  type m = default text (ChatController.body_type b) ∧
  image_payload m =
    (if bool_decide (type m = image) then ChatController.body_image b else None) ∧
  amount (offer_payload m) =
    (if bool_decide (type m = offer)
     then ChatController.body_offer b ≫= ChatController.body_amount else None).
Proof.
  simpl. split_and!; try done.
  destruct (ChatController.body_offer b) as [o|]; simpl; by case_bool_decide.
Qed.

End SendIff.

(** C9, amended. In a reachable database a [sendMessage] request succeeds
    exactly when the chat exists, the caller is one of its participants, no
    participant has blocked it, and the content, once trimmed of white
    space, is not empty and counts at most 2000 characters (as [isLength]
    counts them). Neither an image nor an offer amount is required, whatever
    the type; when the request succeeds the message appended holds the
    trimmed content and the type of the request (text when none is given),
    the image of the request when the type is image and no image otherwise,
    the amount of the request when the type is offer and no amount
    otherwise. A request that does not succeed leaves the database as it
    was, so no message is appended. With a valid content, a participant who
    writes to a chat that a participant has blocked is answered 403; once
    the only blocker has toggled the block off (which needs the stored
    messages to pass the validation of the schema), the same request
    succeeds. *)
Theorem sendMessage_preconditions db user e id b :
  reachable db →
  (succeeded (route db user e (PostChatMessage id b)).2 = true ↔
   ∃ c, chats db !! id = Some c ∧
        user_id user ∈ ChatModel.participants c ∧
        (∀ p, p ∈ ChatModel.participants c → p ∉ ChatModel.blockedBy c) ∧
        Js.trim (ChatController.body_content b) ≠ EmptyString ∧
        Validation.charCount (Js.trim (ChatController.body_content b)) <= 2000) ∧
  (succeeded (route db user e (PostChatMessage id b)).2 = true →
   ∃ c c' m,
     chats db !! id = Some c ∧
     chats (route db user e (PostChatMessage id b)).1 !! id = Some c' ∧
     ChatModel.messages c' = (ChatModel.messages c ++ [m])%list ∧
     ChatModel.content m = Js.trim (ChatController.body_content b) ∧
     ChatModel.type m = default ChatModel.text (ChatController.body_type b) ∧
     ChatModel.image_payload m =
       (if bool_decide (ChatModel.type m = ChatModel.image)
        then ChatController.body_image b else None) ∧
     ChatModel.amount (ChatModel.offer_payload m) =
       (if bool_decide (ChatModel.type m = ChatModel.offer)
        then ChatController.body_offer b ≫= ChatController.body_amount else None)) ∧
  (succeeded (route db user e (PostChatMessage id b)).2 = false →
   (route db user e (PostChatMessage id b)).1 = db) ∧
  (∀ c (blocker : ReqUser),
     chats db !! id = Some c →
     user_id user ∈ ChatModel.participants c →
     Js.trim (ChatController.body_content b) ≠ EmptyString →
     Validation.charCount (Js.trim (ChatController.body_content b)) <= 2000 →
     user_id blocker ∈ ChatModel.participants c →
     user_id blocker ∈ ChatModel.blockedBy c →
     (∃ msg, (route db user e (PostChatMessage id b)).2 = fail msg 403) ∧
     ((∀ p, p ∈ ChatModel.blockedBy c → p = user_id blocker) →
      ChatModel.validate c = true →
      ∀ e', succeeded (route (route db blocker e' (PutChatBlock id)).1 user e
                         (PostChatMessage id b)).2 = true)).
Proof.
  intros Hreach. split; [by apply sendMessage_succeeds_iff|].
  pose proof (reachable_ok _ Hreach) as [_ Hok]. split; [|split].
  - rewrite route_sendMessage. case_bool_decide as Hv; [|done].
    intros (c & r & Hc & _ & _ & Hr & _ & ->)%sendMessage_success.
    exists c, (sent c user e (sanitized b) r), (ChatController.newMessage user e (sanitized b)).
    split; [done|]. split; [apply lookup_insert_eq|]. split; [done|].
    destruct (newMessage_payload user e (sanitized b)) as (H1 & H2 & H3 & H4).
    split; [simpl; apply trim_idem|]. split; [exact H2|]. split; [exact H3|exact H4].
  - rewrite route_sendMessage. case_bool_decide; [|done].
    destruct (chats db !! id) as [c|] eqn:Hc.
    + apply (sendMessage_rejects _ _ _ _ _ c); [exact (Hok id c Hc)|done].
    + unfold ChatController.sendMessage. by rewrite Hc.
  - intros c blocker Hc Hp Hne Hlen Hbp Hbb.
    specialize (Hok id c Hc). simpl in Hok. split.
    + rewrite route_sendMessage, bool_decide_eq_true_2 by done.
      unfold ChatController.sendMessage. rewrite Hc.
      rewrite (proj2 (isParticipant_spec c _) Hp). simpl.
      destruct (ChatModel.isBlockedBy c (user_id user)) eqn:Hb; [by eexists|].
      destruct (chat_ok_two c _ Hok Hp) as (v & Huv & Hv & Hall & Hf).
      unfold ChatController.otherParticipant. rewrite Hf. simpl.
      assert (ChatModel.isBlockedBy c v = true) as ->; [|by eexists].
      apply isBlockedBy_spec. apply Hall in Hbp as [Hbu| <-]; [|done].
      exfalso. apply not_true_iff_false in Hb. apply Hb, isBlockedBy_spec. by rewrite <- Hbu.
    + intros Honly Hval e'. apply sendMessage_succeeds_iff; [by apply reach_request|].
      simpl. rewrite (toggleBlockChat_participant _ _ _ c) by done.
      eexists. split; [apply lookup_insert_eq|]. simpl.
      split_and!; [done| |done..].
      rewrite (proj2 (isBlockedBy_spec c _) Hbb).
      intros p _ [Hpne Hpb]%list_elem_of_filter. by apply Hpne, Honly.
Qed.

(** C9 on Alice saying hello in the chat about the lamp: the request
    succeeds and the text message is stored trimmed, without image or
    amount. Once Bob has blocked the chat she is answered 403, and when he
    has unblocked it the request succeeds. *)
Lemma sendMessage_preconditions_witness :
  (succeeded (route Scenario.talking Scenario.alice (Scenario.at_ 2000 "m1")
                (PostChatMessage "c1" (Scenario.say "  hello " None))).2 = true ∧
   ∃ c c' m,
     chats Scenario.talking !! "c1" = Some c ∧
     chats (route Scenario.talking Scenario.alice (Scenario.at_ 2000 "m1")
              (PostChatMessage "c1" (Scenario.say "  hello " None))).1 !! "c1" = Some c' ∧
     ChatModel.messages c' = (ChatModel.messages c ++ [m])%list ∧
     ChatModel.content m = "hello" ∧
     ChatModel.type m = ChatModel.text ∧
     ChatModel.image_payload m = None ∧
     ChatModel.amount (ChatModel.offer_payload m) = None) ∧
  (∃ msg, (route (route Scenario.talking Scenario.bob (Scenario.at_ 1500 "-")
                    (PutChatBlock "c1")).1
             Scenario.alice (Scenario.at_ 2000 "m1")
             (PostChatMessage "c1" (Scenario.say "  hello " None))).2 = fail msg 403) ∧
  succeeded (route (route (route Scenario.talking Scenario.bob (Scenario.at_ 1500 "-")
                             (PutChatBlock "c1")).1
                      Scenario.bob (Scenario.at_ 1800 "-") (PutChatBlock "c1")).1
               Scenario.alice (Scenario.at_ 2000 "m1")
               (PostChatMessage "c1" (Scenario.say "  hello " None))).2 = true.
Proof.
  split.
  - destruct (sendMessage_preconditions Scenario.talking Scenario.alice (Scenario.at_ 2000 "m1")
                "c1" (Scenario.say "  hello " None) reachable_talking) as (Hiff & Hstored & _ & _).
    assert (succeeded (route Scenario.talking Scenario.alice (Scenario.at_ 2000 "m1")
                (PostChatMessage "c1" (Scenario.say "  hello " None))).2 = true) as Hok.
    { apply Hiff. eexists. split; [vm_compute; reflexivity|].
      split; [apply isParticipant_spec; vm_compute; reflexivity|].
      split; [intros p _ Hp; vm_compute in Hp; by apply elem_of_nil in Hp|].
      split; [vm_compute; discriminate|vm_compute; discriminate]. }
    split; [exact Hok|].
    destruct (Hstored Hok) as (c & c' & m & H1 & H2 & H3 & H4 & H5 & H6 & H7).
    exists c, c', m. split; [exact H1|]. split; [exact H2|]. split; [exact H3|].
    split; [rewrite H4; vm_compute; reflexivity|]. split; [exact H5|].
    split; [by rewrite H6, H5|by rewrite H7, H5].
  - destruct (sendMessage_preconditions
                (route Scenario.talking Scenario.bob (Scenario.at_ 1500 "-") (PutChatBlock "c1")).1
                Scenario.alice (Scenario.at_ 2000 "m1") "c1" (Scenario.say "  hello " None))
      as (_ & _ & _ & Hblocked).
    { apply reach_request, reachable_talking. }
    edestruct Hblocked with (blocker := Scenario.bob) as (H403 & Hunblock).
    + vm_compute. reflexivity.
    + apply isParticipant_spec. vm_compute. reflexivity.
    + vm_compute. discriminate.
    + vm_compute. discriminate.
    + apply isParticipant_spec. vm_compute. reflexivity.
    + apply isBlockedBy_spec. vm_compute. reflexivity.
    + split; [exact H403|]. apply Hunblock.
      * intros p Hp. vm_compute in Hp. by apply list_elem_of_singleton in Hp.
      * vm_compute. reflexivity.
Defined.

Section Offers.
Import ChatModel.

Lemma responseStatus_Some status st :
  ChatController.responseStatus status = Some st ↔
  (status = "accepted" ∧ st = offer_accepted) ∨ (status = "rejected" ∧ st = offer_rejected).
Proof.
  unfold ChatController.responseStatus. split.
  - repeat case_bool_decide; intros Heq; simplify_eq; auto.
  - intros [[-> ->]|[-> ->]]; done.
Qed.

Lemma orders_respondToOffer db user cid mid status :
  orders (ChatController.respondToOffer db user cid mid status).1 = orders db.
Proof.
  unfold ChatController.respondToOffer, saveChat.
  repeat (case_match; simplify_eq/=; try done).
Qed.

Lemma find_after_response (ms : list Message) i m mid st :
  list_find (λ m, _id m = mid) ms = Some (i, m) →
  list_find (λ m, _id m = mid) (<[i := ChatController.setOfferStatus st m]> ms)
  = Some (i, ChatController.setOfferStatus st m).
Proof.
  intros (Hi & Hid & Hbefore)%list_find_Some. apply list_find_Some. split_and!.
  - apply list_lookup_insert_eq. by eapply lookup_lt_Some.
  - done.
  - intros j y Hj Hlt. rewrite list_lookup_insert_ne in Hj by lia. by eapply Hbefore.
Qed.

Lemma respondToOffer_resolved db user cid mid status c l i m st :
  chats db !! cid = Some c →
  listings db !! listing c = Some l →
  ListingModel.seller l = user_id user →
  list_find (λ m, _id m = mid) (messages c) = Some (i, m) →
  type m = offer →
  offer_status (offer_payload m) ≠ offer_pending →
  ChatController.responseStatus status = Some st →
  ChatController.respondToOffer db user cid mid status =
  (db, fail "This offer has already been responded to" 400).
Proof.
  intros Hc Hl Hs Hf Ht Hp Hst. unfold ChatController.respondToOffer.
  rewrite Hst, Hc, Hl, (bool_decide_eq_true_2 _ Hs). simpl.
  rewrite Hf, (bool_decide_eq_true_2 _ Ht), (bool_decide_eq_false_2 _ Hp). done.
Qed.

Lemma respondToOffer_success db user cid mid status :
  succeeded (ChatController.respondToOffer db user cid mid status).2 = true →
  ∃ c l i m st r,
    ChatController.responseStatus status = Some st ∧
    chats db !! cid = Some c ∧
    listings db !! listing c = Some l ∧
    ListingModel.seller l = user_id user ∧
    list_find (λ m, _id m = mid) (messages c) = Some (i, m) ∧
    type m = offer ∧
    offer_status (offer_payload m) = offer_pending ∧
    ChatController.respondToOffer db user cid mid status =
    (with_chats
       (<[cid := assign c (<[i := ChatController.setOfferStatus st m]> (messages c))
                   (lastMessage c) (unreadCount c) (isActive c) (blockedBy c)]> (chats db)) db,
     ok 200 ("Offer " ++ status) [{| room := r; event := "offer-response" |}]).
Proof.
  unfold ChatController.respondToOffer.
  destruct (ChatController.responseStatus status) as [st|] eqn:Hst; [|done].
  destruct (chats db !! cid) as [c|] eqn:Hc; [|done].
  destruct (listings db !! listing c) as [l|] eqn:Hl; [|done].
  destruct (bool_decide (ListingModel.seller l = user_id user)) eqn:Hs; [|done]. simpl.
  destruct (list_find _ _) as [[i m]|] eqn:Hf; [|done].
  destruct (bool_decide (type m = offer)) eqn:Ht; [|done]. simpl.
  destruct (bool_decide (_ = offer_pending)) eqn:Hpend; [|done]. simpl.
  destruct (validate c); [|done]. simpl.
  destruct (saveChat _ _ _) as [db1|] eqn:Hsave; [|done].
  apply saveChat_Some in Hsave as ->.
  destruct (ChatController.otherParticipant c user) as [r|]; [|done]. simpl. intros _.
  apply bool_decide_eq_true in Hs, Ht, Hpend.
  by exists c, l, i, m, st, r.
Qed.

End Offers.

(** C7. [respondToOffer] never writes the order collection. When it
    succeeds, the response is accepted or rejected, the caller is the seller
    of the chat's listing, the message with the given identifier exists, is
    an offer, and its offer status was pending; the chat now holds that
    message with the response as its offer status, everything else in place.
    Any further valid response by the same caller to the same message is
    answered with the 400 error "This offer has already been responded to"
    and changes nothing. *)
Theorem respondToOffer_once db user chatId messageId status :
  orders (ChatController.respondToOffer db user chatId messageId status).1 = orders db ∧
  (succeeded (ChatController.respondToOffer db user chatId messageId status).2 = true →
   ∃ c l i m st,
     chats db !! chatId = Some c ∧
     listings db !! ChatModel.listing c = Some l ∧
     ListingModel.seller l = user_id user ∧
     ChatModel.messages c !! i = Some m ∧
     ChatModel._id m = messageId ∧
     ChatModel.type m = ChatModel.offer ∧
     ChatModel.offer_status (ChatModel.offer_payload m) = ChatModel.offer_pending ∧
     ((status = "accepted" ∧ st = ChatModel.offer_accepted) ∨
      (status = "rejected" ∧ st = ChatModel.offer_rejected)) ∧
     ∃ c',
       chats (ChatController.respondToOffer db user chatId messageId status).1 !! chatId
         = Some c' ∧
       ChatModel.messages c' = <[i := ChatController.setOfferStatus st m]> (ChatModel.messages c) ∧
       ChatModel.offer_status (ChatModel.offer_payload (ChatController.setOfferStatus st m)) = st ∧
       ∀ status2,
         status2 = "accepted" ∨ status2 = "rejected" →
         ChatController.respondToOffer
           (ChatController.respondToOffer db user chatId messageId status).1
           user chatId messageId status2
         = ((ChatController.respondToOffer db user chatId messageId status).1,
            fail "This offer has already been responded to" 400)).
Proof.
  split; [apply orders_respondToOffer|]. intros Hsucc.
  destruct (respondToOffer_success _ _ _ _ _ Hsucc)
    as (c & l & i & m & st & r & Hst & Hc & Hl & Hs & Hf & Ht & Hpend & Heq).
  rewrite Heq. simpl.
  pose proof Hf as (Hi & Hid & _)%list_find_Some.
  exists c, l, i, m, st. do 7 (split; [done|]).
  split; [by apply responseStatus_Some|].
  eexists. split; [apply lookup_insert_eq|]. split; [done|]. split; [done|].
  intros status2 Hs2.
  assert (∃ st2, ChatController.responseStatus status2 = Some st2) as [st2 Hst2].
  { destruct Hs2 as [-> | ->]; by eexists. }
  eapply (respondToOffer_resolved _ user chatId messageId status2 _ l i).
  - apply lookup_insert_eq.
  - done.
  - done.
  - simpl. by apply find_after_response.
  - done.
  - simpl. apply responseStatus_Some in Hst as [[_ ->]|[_ ->]]; done.
  - done.
Qed.

(** C7 on Bob accepting the offer Alice has made. *)
Lemma respondToOffer_once_witness :
  ∃ c l i m st,
     chats Scenario.offered !! "c1" = Some c ∧
     listings Scenario.offered !! ChatModel.listing c = Some l ∧
     ListingModel.seller l = user_id Scenario.bob ∧
     ChatModel.messages c !! i = Some m ∧
     ChatModel._id m = "m1" ∧
     ChatModel.type m = ChatModel.offer ∧
     ChatModel.offer_status (ChatModel.offer_payload m) = ChatModel.offer_pending ∧
     (("accepted" = "accepted" ∧ st = ChatModel.offer_accepted) ∨
      ("accepted" = "rejected" ∧ st = ChatModel.offer_rejected)) ∧
     ∃ c',
       chats (ChatController.respondToOffer Scenario.offered Scenario.bob "c1" "m1"
                "accepted").1 !! "c1" = Some c' ∧
       ChatModel.messages c' = <[i := ChatController.setOfferStatus st m]> (ChatModel.messages c) ∧
       ChatModel.offer_status (ChatModel.offer_payload (ChatController.setOfferStatus st m)) = st ∧
       ∀ status2,
         status2 = "accepted" ∨ status2 = "rejected" →
         ChatController.respondToOffer
           (ChatController.respondToOffer Scenario.offered Scenario.bob "c1" "m1" "accepted").1
           Scenario.bob "c1" "m1" status2
         = ((ChatController.respondToOffer Scenario.offered Scenario.bob "c1" "m1"
               "accepted").1,
            fail "This offer has already been responded to" 400).
Proof.
  apply (respondToOffer_once Scenario.offered Scenario.bob "c1" "m1" "accepted").
  vm_compute. reflexivity.
Defined.

(** * Further properties of the handlers *)

(** * Further properties of the order handlers *)

Section OrderMoves.
Import OrderModel.

Lemma same_identity_assign o st md tl rt cn dp nt :
  same_identity o (assign o st md tl rt cn dp nt).
Proof. by repeat split. Qed.

Lemma slot_moves_refl o s : slot_moves o s s.
Proof. by left. Qed.

Lemma evolves_keep o md cn dp nt :
  evolves o (assign o (status o) md (timeline o) (rating o) cn dp nt).
Proof.
  split; [apply same_identity_assign|]. split; [by left|]. split; apply slot_moves_refl.
Qed.

Lemma evolves_append o st md x cn dp nt :
  tl_status x = st → lawful (status o) st →
  evolves o (assign o st md (timeline o ++ [x]) (rating o) cn dp nt).
Proof.
  intros Hx Hl. split; [apply same_identity_assign|].
  split; [right; by exists x|]. split; apply slot_moves_refl.
Qed.

Lemma evolves_updateStatus o s note e :
  lawful (status o) s → evolves o (updateStatus o s note e).
Proof. intros Hl. by apply evolves_append. Qed.

Lemma evolves_meetup o md e :
  evolves o
    (if bool_decide (status o = confirmed)
     then updateStatus (assign o (status o) (Some md) (timeline o) (rating o)
                          (cancellation o) (dispute o) (notes o))
            meetup_scheduled (Some "Meetup details added") e
     else assign o (status o) (Some md) (timeline o) (rating o)
            (cancellation o) (dispute o) (notes o)).
Proof.
  case_bool_decide as Hc; [|apply evolves_keep].
  split; [by repeat split|]. split; [|split; apply slot_moves_refl].
  right. eexists. split; [done|]. split; [done|]. left. simpl. rewrite Hc. constructor.
Qed.

Lemma canBeCancelled_transition o :
  canBeCancelled o = true → transition (status o) cancelled.
Proof.
  intros Hin%bool_decide_eq_true. rewrite !elem_of_cons, elem_of_nil in Hin.
  destruct Hin as [-> | [-> | [-> | []]]]; constructor.
Qed.

Lemma evolves_cancel o u r e : canBeCancelled o = true → evolves o (cancel o u r e).
Proof. intros Hc. apply evolves_append; [done|]. left. by apply canBeCancelled_transition. Qed.

Lemma evolves_initiateDispute o u r e :
  status o ≠ disputed → evolves o (initiateDispute o u r e).
Proof. intros Hd. apply evolves_append; [done|]. by right. Qed.

Lemma evolves_setRatingSlot o (user : ReqUser) sc rv e :
  canBeRated o = true → score_valid sc = true →
  OrderController.hasScore (slotOf user o) = false →
  evolves o (setRatingSlot o (user_id user) sc rv e).
Proof.
  intros Hc%bool_decide_eq_true Hv%score_valid_spec Hs.
  split; [apply same_identity_assign|]. split; [by left|].
  unfold slotOf in Hs. unfold setRatingSlot. simpl.
  destruct (bool_decide (buyer o = user_id user)); simpl.
  - split; [|by left]. right. split_and!; [done..|]. by eexists.
  - split; [by left|]. right. split_and!; [done..|]. by eexists.
Qed.

Lemma created_orderToCreate user e b l :
  ListingModel.seller l ≠ user_id user →
  created (OrderController.orderToCreate user e b l).
Proof. intros Hne. split_and!; [by intros ?|by eexists|done]. Qed.

Lemma order_moves_save k o o' db :
  orders db !! k = Some o → evolves o o' → order_moves (orders db) (orders (saveOrder k o' db)).
Proof. intros Hk He. right. exists k, o'. by rewrite Hk. Qed.

Lemma created_pre_save e o : created o → created (pre_save e o).
Proof. by destruct o as [[n|]]. Qed.

Lemma createOrderWith_order_moves n db user e b :
  order_moves (orders db) (orders (OrderController.createOrderWith n db user e b).1).
Proof.
  unfold OrderController.createOrderWith.
  destruct (listings db !! _) as [l|]; [|by left].
  destruct (negb _); [by left|].
  destruct (users db !! _); [|by left].
  destruct (bool_decide (ListingModel.seller l = _)) eqn:Hs; [by left|].
  destruct (bool_decide (_ < _)%Qc); [by left|].
  destruct (create _ _ _) as [err|o] eqn:Hcr; [by left|].
  apply create_inr in Hcr as [-> _].
  destruct (negb (OrderController.insertable _ _ _)) eqn:Hi; [by left|].
  apply negb_false_iff, andb_true_iff in Hi as [Hi%bool_decide_eq_true _].
  apply bool_decide_eq_false in Hs.
  assert (order_moves (orders db)
            (<[newId e := pre_save e (OrderController.orderToCreate user e b l)]> (orders db))).
  { right. eexists _, _. split; [done|]. rewrite Hi.
    by apply created_pre_save, created_orderToCreate. }
  by destruct (negb (ListingModel.pre_save_ok l)).
Qed.

Lemma createOrder_order_moves db user e b :
  order_moves (orders db) (orders (OrderController.createOrder db user e b).1).
Proof. apply createOrderWith_order_moves. Qed.

Lemma updateOrderStatus_order_moves db user e id s note :
  order_moves (orders db) (orders (OrderController.updateOrderStatus db user e id s note).1).
Proof.
  unfold OrderController.updateOrderStatus.
  destruct (orders db !! id) as [o|] eqn:Ho; [|by left].
  destruct (negb _ && negb _ && negb _); [by left|].
  destruct (negb (bool_decide (s ∈ _))) eqn:Hv; [by left|].
  apply negb_false_iff, bool_decide_eq_true, transition_validTransitions in Hv.
  assert (order_moves (orders db) (orders (saveOrder id (updateStatus o s note e) db))).
  { eapply order_moves_save; [done|]. apply evolves_updateStatus. by left. }
  simpl. repeat case_match; done.
Qed.

Lemma updateMeetupDetails_order_moves db user e id md :
  order_moves (orders db) (orders (OrderController.updateMeetupDetails db user e id md).1).
Proof.
  unfold OrderController.updateMeetupDetails.
  destruct (orders db !! id) as [o|] eqn:Ho; [|by left].
  destruct (negb _ && negb _); [by left|].
  eapply order_moves_save; [done|]. exact (evolves_meetup o md e).
Qed.

Lemma addRating_order_moves db user e id sc rv :
  order_moves (orders db) (orders (OrderController.addRating db user e id sc rv).1).
Proof.
  destruct (succeeded (OrderController.addRating db user e id sc rv).2) eqn:Hs.
  - destruct (addRating_success _ _ _ _ _ _ Hs) as (o & us & Ho & Hc & _ & Hh & Hv & ->).
    right. eexists _, _. split; [done|]. rewrite Ho. by apply evolves_setRatingSlot.
  - left. revert Hs. unfold OrderController.addRating.
    repeat (case_match; try done).
Qed.

Lemma cancelOrder_order_moves db user e id r :
  order_moves (orders db) (orders (OrderController.cancelOrder db user e id r).1).
Proof.
  unfold OrderController.cancelOrder.
  destruct (bool_decide (r = _)); [by left|].
  destruct (orders db !! id) as [o|] eqn:Ho; [|by left].
  destruct (negb _ && negb _); [by left|].
  destruct (canBeCancelled o) eqn:Hc; [|by left]. simpl.
  by eapply order_moves_save, evolves_cancel.
Qed.

Lemma initiateDispute_order_moves db user e id r :
  order_moves (orders db) (orders (OrderController.initiateDispute db user e id r).1).
Proof.
  unfold OrderController.initiateDispute.
  destruct (bool_decide (r = _)); [by left|].
  destruct (orders db !! id) as [o|] eqn:Ho; [|by left].
  destruct (negb _ && negb _); [by left|].
  destruct (bool_decide (status o = disputed)) eqn:Hd; [by left|].
  apply bool_decide_eq_false in Hd.
  by eapply order_moves_save, evolves_initiateDispute.
Qed.

Lemma addNotes_order_moves db user id t :
  order_moves (orders db) (orders (OrderController.addNotes db user id t).1).
Proof.
  unfold OrderController.addNotes.
  destruct (bool_decide (t = _)); [by left|].
  destruct (orders db !! id) as [o|] eqn:Ho; [|by left].
  destruct (negb _ && negb _); [by left|].
  eapply order_moves_save; [done|]. apply evolves_keep.
Qed.

Lemma route_keeps_orders db user e rq :
  match rq with
  | PostChat _ _ | GetChat _ | PostChatMessage _ _ | PutChatRead _ | DeleteChat _
  | PutChatBlock _ | PutChatOffer _ _ _ => orders (route db user e rq).1 = orders db
  | _ => True
  end.
Proof.
  destruct rq; try done; simpl.
  - unfold ChatController.getOrCreateChat. repeat (case_match; try done).
  - by rewrite getChatById_refuses.
  - unfold ChatController.sendMessage, saveChat.
    repeat (case_match; simplify_eq/=; try done).
  - unfold ChatController.markChatAsRead, saveChat.
    repeat (case_match; simplify_eq/=; try done).
  - unfold ChatController.deleteChat, saveChat.
    repeat (case_match; simplify_eq/=; try done).
  - unfold ChatController.toggleBlockChat, saveChat.
    repeat (case_match; simplify_eq/=; try done).
  - apply orders_respondToOffer.
Qed.

Lemma route_order_moves db user e rq :
  order_moves (orders db) (orders (route db user e rq).1).
Proof.
  pose proof (route_keeps_orders db user e rq) as Hk.
  destruct rq; try (left; exact Hk); simpl.
  - case_match; [apply createOrder_order_moves|by left].
  - case_match; [apply updateOrderStatus_order_moves|by left].
  - apply updateMeetupDetails_order_moves.
  - case_match; [apply addRating_order_moves|by left].
  - apply cancelOrder_order_moves.
  - apply initiateDispute_order_moves.
  - apply addNotes_order_moves.
Qed.

Lemma order_moves_lookup os os' k o :
  order_moves os os' → os !! k = Some o →
  ∃ o', os' !! k = Some o' ∧ (o' = o ∨ evolves o o').
Proof.
  intros [->|(k' & o' & -> & Hk)] Ho; [exists o; auto|].
  destruct (decide (k' = k)) as [->|Hne].
  - rewrite Ho in Hk. exists o'. rewrite lookup_insert_eq. auto.
  - exists o. rewrite lookup_insert_ne by done. auto.
Qed.

Lemma same_identity_refl o : same_identity o o.
Proof. by repeat split. Qed.

Lemma chain_snoc l s t :
  chain l → list.last l = Some s → lawful s t → chain (l ++ [t]).
Proof.
  induction l as [|a l IH]; [done|]. intros [Ha Hl] Hlast Hst.
  destruct l as [|b l].
  - simpl in *. simplify_eq. done.
  - split; [done|]. apply IH; [done| |done]. by rewrite last_cons_cons in Hlast.
Qed.

Lemma order_wf_evolves o o' : order_ok o → order_wf o → evolves o o' → order_wf o'.
Proof.
  intros (Hlast & _) (Hne & (t & rest & Ht) & Hch) ((_ & Hb & Hs & _) & Htl & _).
  split; [congruence|]. unfold history in *.
  destruct Htl as [[_ ->]|(x & -> & Hx & Hl)]; [by split; [eauto|]|].
  split.
  - rewrite Ht. simpl. eauto.
  - rewrite fmap_app. simpl. rewrite Hx.
    eapply chain_snoc; [done| |done].
    unfold lastTimelineStatus in Hlast. by rewrite fmap_last.
Qed.

Lemma order_wf_created o : created o → order_wf o.
Proof.
  intros (Hne & (t & Ht) & _). split; [done|]. unfold history. rewrite Ht.
  split; [by eexists _, []|done].
Qed.

Lemma order_moves_wf os os' :
  map_Forall (λ _ o, order_ok o) os → map_Forall (λ _ o, order_wf o) os →
  order_moves os os' → map_Forall (λ _ o, order_wf o) os'.
Proof.
  intros Hok IH [->|(k & o' & -> & Hk)]; [done|].
  apply map_Forall_insert_2; [|done].
  destruct (os !! k) as [o|] eqn:Ho.
  - eapply order_wf_evolves; [exact (Hok k o Ho)|exact (IH k o Ho)|done].
  - by apply order_wf_created.
Qed.

Lemma reachable_order_wf db : reachable db → map_Forall (λ _ o, order_wf o) (orders db).
Proof.
  induction 1 as [ls us|db user e rq Hr IH|db user e b Hr IH|db ls us _ IH];
    [apply map_Forall_empty| | |done].
  - destruct (reachable_ok _ Hr) as [Hok _].
    eapply order_moves_wf; [exact Hok|exact IH|apply route_order_moves].
  - destruct (reachable_ok _ Hr) as [Hok _].
    eapply order_moves_wf; [exact Hok|exact IH|apply createOrderWith_order_moves].
Qed.

End OrderMoves.

(** X1. Whatever request is answered, an order that is stored is still
    stored afterwards with the same order number, buyer, seller, listing,
    listing snapshot and prices: these are assigned by [createOrder] and by
    no other handler. *)
Theorem order_identity_preserved db user e rq id o :
  orders db !! id = Some o →
  ∃ o', orders (route db user e rq).1 !! id = Some o' ∧ same_identity o o'.
Proof.
  intros Ho.
  destruct (order_moves_lookup _ _ _ _ (route_order_moves db user e rq) Ho)
    as (o' & Ho' & [Heq | [Hid _]]); exists o'; (split; [done|]); [|done].
  rewrite Heq. apply same_identity_refl.
Qed.

(** X1 on Bob confirming Alice's order of the lamp. *)
Lemma order_identity_preserved_witness :
  ∃ o, orders Scenario.ordered !! "o1" = Some o ∧
  ∃ o', orders (route Scenario.ordered Scenario.bob (Scenario.at_ 2000 "-")
                  (PutOrderStatus "o1" OrderModel.confirmed None)).1 !! "o1" = Some o' ∧
        same_identity o o'.
Proof.
  eexists. split; [vm_compute; reflexivity|].
  apply (order_identity_preserved Scenario.ordered Scenario.bob (Scenario.at_ 2000 "-")
           (PutOrderStatus "o1" OrderModel.confirmed None) "o1").
  vm_compute. reflexivity.
Defined.

(** X2. In every database the server can reach, the buyer and the seller of
    an order are different users: [createOrder] refuses the seller of the
    listing, and no handler reassigns a party. *)
Theorem order_parties_distinct db id o :
  reachable db → orders db !! id = Some o →
  OrderModel.buyer o ≠ OrderModel.seller o.
Proof. intros Hr Ho. by destruct (reachable_order_wf db Hr id o Ho). Qed.

(** X2 on the completed order of the lamp. *)
Lemma order_parties_distinct_witness :
  ∃ o, orders Scenario.completed1 !! "o1" = Some o ∧
       OrderModel.buyer o ≠ OrderModel.seller o.
Proof.
  eexists. split; [vm_compute; reflexivity|].
  apply (order_parties_distinct Scenario.completed1 "o1").
  - apply reachable_completed1.
  - vm_compute. reflexivity.
Defined.

Lemma chain_lookup l i s t :
  chain l → l !! i = Some s → l !! S i = Some t → lawful s t.
Proof.
  revert i. induction l as [|a l IH]; [done|]. intros [|i] [Ha Hl] Hs Ht.
  - simpl in *. destruct l; simplify_eq/=. done.
  - by eapply IH.
Qed.

(** X3. In every database the server can reach, the timeline of an order
    opens with the pending entry "Order created", and every two consecutive
    entries are a move the handlers perform: an edge of the transition table
    of [updateOrderStatus], or the opening of a dispute on an order that was
    not disputed. In particular the only entry that can follow completed or
    cancelled is disputed. *)
Theorem order_history_lawful db id o :
  reachable db → orders db !! id = Some o →
  (∃ t rest, OrderModel.timeline o =
             {| OrderModel.tl_status := OrderModel.pending; OrderModel.tl_timestamp := t;
                OrderModel.tl_note := "Order created" |} :: rest) ∧
  (∀ i s t, history o !! i = Some s → history o !! S i = Some t →
            transition s t ∨ (t = OrderModel.disputed ∧ s ≠ OrderModel.disputed)) ∧
  (∀ i s t, history o !! i = Some s → history o !! S i = Some t →
            s = OrderModel.completed ∨ s = OrderModel.cancelled → t = OrderModel.disputed).
Proof.
  intros Hr Ho. destruct (reachable_order_wf db Hr id o Ho) as (_ & Hfirst & Hch).
  split; [done|]. split.
  - intros i s t Hs Ht. exact (chain_lookup _ _ _ _ Hch Hs Ht).
  - intros i s t Hs Ht Hterm.
    destruct (chain_lookup _ _ _ _ Hch Hs Ht) as [Htr|[-> _]]; [|done].
    destruct Hterm as [-> | ->]; inversion Htr.
Qed.

(** X3 on the completed order of the lamp. *)
Lemma order_history_lawful_witness :
  ∃ o, orders Scenario.completed1 !! "o1" = Some o ∧
  (∃ t rest, OrderModel.timeline o =
             {| OrderModel.tl_status := OrderModel.pending; OrderModel.tl_timestamp := t;
                OrderModel.tl_note := "Order created" |} :: rest) ∧
  (∀ i s t, history o !! i = Some s → history o !! S i = Some t →
            transition s t ∨ (t = OrderModel.disputed ∧ s ≠ OrderModel.disputed)) ∧
  (∀ i s t, history o !! i = Some s → history o !! S i = Some t →
            s = OrderModel.completed ∨ s = OrderModel.cancelled → t = OrderModel.disputed).
Proof.
  eexists. split; [vm_compute; reflexivity|].
  apply (order_history_lawful Scenario.completed1 "o1").
  - apply reachable_completed1.
  - vm_compute. reflexivity.
Defined.

Lemma slot_moves_once o old new :
  slot_ok old → slot_moves o old new →
  (∀ r, old = Some r → new = Some r) ∧
  (old = None → new = None ∨
     (OrderModel.status o = OrderModel.completed ∧
      ∃ r, new = Some r ∧ 1 <= OrderModel.score r <= 5)).
Proof.
  intros Hok [-> | (Hh & Hc & r & -> & Hr)]; [by split; [|left]|].
  split; [|by right; eauto].
  intros r0 ->. specialize (Hok r0 eq_refl). simpl in Hh.
  apply negb_false_iff, Z.eqb_eq in Hh. lia.
Qed.

(** X4. Rating slots are written once. In a reachable database, whatever
    request is answered, a slot of a stored order that holds a rating holds
    the same rating afterwards; an empty slot stays empty unless the order is
    completed, in which case it may receive a rating with a score between 1
    and 5. *)
Theorem rating_slot_written_once db user e rq id o :
  reachable db → orders db !! id = Some o →
  ∃ o', orders (route db user e rq).1 !! id = Some o' ∧
    (∀ r, OrderModel.buyerRating (OrderModel.rating o) = Some r →
          OrderModel.buyerRating (OrderModel.rating o') = Some r) ∧
    (∀ r, OrderModel.sellerRating (OrderModel.rating o) = Some r →
          OrderModel.sellerRating (OrderModel.rating o') = Some r) ∧
    (OrderModel.buyerRating (OrderModel.rating o) = None →
     OrderModel.buyerRating (OrderModel.rating o') = None ∨
     (OrderModel.status o = OrderModel.completed ∧
      ∃ r, OrderModel.buyerRating (OrderModel.rating o') = Some r ∧
           1 <= OrderModel.score r <= 5)) ∧
    (OrderModel.sellerRating (OrderModel.rating o) = None →
     OrderModel.sellerRating (OrderModel.rating o') = None ∨
     (OrderModel.status o = OrderModel.completed ∧
      ∃ r, OrderModel.sellerRating (OrderModel.rating o') = Some r ∧
           1 <= OrderModel.score r <= 5)).
Proof.
  intros Hr Ho. destruct (reachable_ok _ Hr) as [Hok _].
  destruct (Hok id o Ho) as (_ & Hb & Hs).
  destruct (order_moves_lookup _ _ _ _ (route_order_moves db user e rq) Ho)
    as (o' & Ho' & [Heq | (_ & _ & Hmb & Hms)]); exists o'; (split; [done|]).
  - rewrite Heq. split_and!; auto.
  - destruct (slot_moves_once _ _ _ Hb Hmb), (slot_moves_once _ _ _ Hs Hms). by split_and!.
Qed.

(** X4 on Alice trying to rate the lamp order a second time. *)
Lemma rating_slot_written_once_witness :
  ∃ o, orders Scenario.twoOrders !! "o1" = Some o ∧
  ∃ o', orders (route Scenario.twoOrders Scenario.alice (Scenario.at_ 7000 "-")
                  (PostOrderRating "o1" 1 None)).1 !! "o1" = Some o' ∧
    (∀ r, OrderModel.buyerRating (OrderModel.rating o) = Some r →
          OrderModel.buyerRating (OrderModel.rating o') = Some r) ∧
    (∀ r, OrderModel.sellerRating (OrderModel.rating o) = Some r →
          OrderModel.sellerRating (OrderModel.rating o') = Some r) ∧
    (OrderModel.buyerRating (OrderModel.rating o) = None →
     OrderModel.buyerRating (OrderModel.rating o') = None ∨
     (OrderModel.status o = OrderModel.completed ∧
      ∃ r, OrderModel.buyerRating (OrderModel.rating o') = Some r ∧
           1 <= OrderModel.score r <= 5)) ∧
    (OrderModel.sellerRating (OrderModel.rating o) = None →
     OrderModel.sellerRating (OrderModel.rating o') = None ∨
     (OrderModel.status o = OrderModel.completed ∧
      ∃ r, OrderModel.sellerRating (OrderModel.rating o') = Some r ∧
           1 <= OrderModel.score r <= 5)).
Proof.
  eexists. split; [vm_compute; reflexivity|].
  apply (rating_slot_written_once Scenario.twoOrders Scenario.alice (Scenario.at_ 7000 "-")
           (PostOrderRating "o1" 1 None) "o1").
  - apply reachable_twoOrders.
  - vm_compute. reflexivity.
Defined.

Section OrderEdges.
Import OrderModel.

Lemma party_check user o :
  party user o →
  negb (bool_decide (buyer o = user_id user)) &&
  negb (bool_decide (seller o = user_id user)) = false.
Proof.
  intros [Hp|Hp]; rewrite (bool_decide_eq_true_2 _ Hp), ?andb_false_r; done.
Qed.

Lemma stranger_check user o :
  ¬ party user o →
  negb (bool_decide (buyer o = user_id user)) &&
  negb (bool_decide (seller o = user_id user)) = true.
Proof.
  intros Hn. rewrite !bool_decide_eq_false_2; [done|..]; intros ?; apply Hn; [by right|by left].
Qed.

End OrderEdges.

(** X5. [updateMeetupDetails] has no guard on the status. For the buyer or
    the seller of a stored order it always succeeds and stores the details
    given, on completed and cancelled orders as well; only a confirmed order
    changes status, to meetup-scheduled with one timeline entry "Meetup
    details added". In every other status, status and timeline are kept. *)
Theorem meetup_details_any_status db user e id md o :
  orders db !! id = Some o → party user o →
  ∃ o',
    (OrderController.updateMeetupDetails db user e id md).1 = saveOrder id o' db ∧
    succeeded (OrderController.updateMeetupDetails db user e id md).2 = true ∧
    OrderModel.meetupDetails o' = Some md ∧
    (OrderModel.status o = OrderModel.confirmed →
     OrderModel.status o' = OrderModel.meetup_scheduled ∧
     OrderModel.timeline o' =
       (OrderModel.timeline o ++
          [{| OrderModel.tl_status := OrderModel.meetup_scheduled;
              OrderModel.tl_timestamp := now e;
              OrderModel.tl_note := "Meetup details added" |}])%list) ∧
    (OrderModel.status o ≠ OrderModel.confirmed →
     OrderModel.status o' = OrderModel.status o ∧
     OrderModel.timeline o' = OrderModel.timeline o).
Proof.
  intros Ho Hp. unfold OrderController.updateMeetupDetails.
  rewrite Ho, (party_check _ _ Hp). simpl.
  eexists. split; [done|]. split; [done|].
  destruct (bool_decide (OrderModel.status o = OrderModel.confirmed)) eqn:Hc.
  - apply bool_decide_eq_true in Hc. by split_and!.
  - apply bool_decide_eq_false in Hc. by split_and!.
Qed.

(** X5 on Alice changing the meetup of her completed order. *)
Lemma meetup_details_any_status_witness :
  ∃ o, orders Scenario.completed1 !! "o1" = Some o ∧
  ∃ o',
    (OrderController.updateMeetupDetails Scenario.completed1 Scenario.alice
       (Scenario.at_ 9000 "-") "o1"
       {| OrderModel.location := Some "Library"; OrderModel.date := None;
          OrderModel.time := None; OrderModel.additionalInfo := None |}).1
      = saveOrder "o1" o' Scenario.completed1 ∧
    succeeded (OrderController.updateMeetupDetails Scenario.completed1 Scenario.alice
       (Scenario.at_ 9000 "-") "o1"
       {| OrderModel.location := Some "Library"; OrderModel.date := None;
          OrderModel.time := None; OrderModel.additionalInfo := None |}).2 = true ∧
    OrderModel.meetupDetails o' =
      Some {| OrderModel.location := Some "Library"; OrderModel.date := None;
              OrderModel.time := None; OrderModel.additionalInfo := None |} ∧
    (OrderModel.status o = OrderModel.confirmed →
     OrderModel.status o' = OrderModel.meetup_scheduled ∧
     OrderModel.timeline o' =
       (OrderModel.timeline o ++
          [{| OrderModel.tl_status := OrderModel.meetup_scheduled;
              OrderModel.tl_timestamp := now (Scenario.at_ 9000 "-");
              OrderModel.tl_note := "Meetup details added" |}])%list) ∧
    (OrderModel.status o ≠ OrderModel.confirmed →
     OrderModel.status o' = OrderModel.status o ∧
     OrderModel.timeline o' = OrderModel.timeline o).
Proof.
  eexists. split; [vm_compute; reflexivity|].
  apply (meetup_details_any_status Scenario.completed1 Scenario.alice (Scenario.at_ 9000 "-")
           "o1").
  - vm_compute. reflexivity.
  - left. vm_compute. reflexivity.
Defined.

Lemma route_rewrites_an_order db user e rq :
  orders (route db user e rq).1 = orders db ∨
  ∃ k o o', orders db !! k = Some o ∧ orders (route db user e rq).1 = <[k := o']> (orders db).
Proof.
  pose proof (route_keeps_orders db user e rq) as Hk.
  destruct rq; try (left; exact Hk); simpl.
  - case_match; [|by left]. left. by rewrite (proj1 (createOrder_writes_nothing _ _ _ _)).
  - case_match; [|by left]. unfold OrderController.updateOrderStatus.
    destruct (orders db !! id) as [ord|] eqn:Ho; [|by left].
    repeat (case_match; try by left); simpl; right; by eexists _, _, _.
  - unfold OrderController.updateMeetupDetails.
    destruct (orders db !! id) as [ord|] eqn:Ho; [|by left].
    repeat (case_match; try by left); simpl; right; by eexists _, _, _.
  - case_match; [|by left]. unfold OrderController.addRating, OrderModel.addRating.
    destruct (orders db !! id) as [ord|] eqn:Ho; [|by left].
    repeat (case_match; simplify_eq/=; try by left); right; by eexists _, _, _.
  - unfold OrderController.cancelOrder.
    case_match; [by left|]. destruct (orders db !! id) as [ord|] eqn:Ho; [|by left].
    repeat (case_match; try by left); simpl; right; by eexists _, _, _.
  - unfold OrderController.initiateDispute.
    case_match; [by left|]. destruct (orders db !! id) as [ord|] eqn:Ho; [|by left].
    repeat (case_match; try by left); simpl; right; by eexists _, _, _.
  - unfold OrderController.addNotes.
    case_match; [by left|]. destruct (orders db !! id) as [ord|] eqn:Ho; [|by left].
    repeat (case_match; try by left); simpl; right; by eexists _, _, _.
Qed.

(** X6. No request stores a new order. Whatever request of the order and
    chat routes is answered, the identifiers under which orders are stored
    are the same afterwards: [createOrder] stops at [Order.create], and the
    other handlers write only an order that they have found. A server that
    starts without orders therefore never has one. *)
Theorem no_request_stores_an_order db user e rq id :
  is_Some (orders (route db user e rq).1 !! id) ↔ is_Some (orders db !! id).
Proof.
  destruct (route_rewrites_an_order db user e rq) as [->|(k & o & o' & Hk & ->)]; [done|].
  rewrite lookup_insert_is_Some. split.
  - intros [<-|[_ H]]; [by eexists|done].
  - intros H. destruct (decide (k = id)); [by left|by right].
Qed.

(** X8. Who is neither the buyer nor the seller of a stored order is
    refused with 403, and nothing is written, by [updateMeetupDetails],
    [cancelOrder], [initiateDispute], [addNotes] and, on a completed order,
    [addRating]; the admin role makes no difference there. The admin role is
    honoured by two handlers only: [updateOrderStatus], which stores any
    move of the table on behalf of an admin, and [getOrderById], which shows
    the order when both parties' profiles exist. *)
Theorem admin_acts_through_status_only db user id o :
  orders db !! id = Some o → ¬ party user o →
  (∀ e md, OrderController.updateMeetupDetails db user e id md =
           (db, fail "Not authorized to update this order" 403)) ∧
  (∀ e (reason : Js.String), reason ≠ EmptyString →
     OrderController.cancelOrder db user e id reason =
     (db, fail "Not authorized to cancel this order" 403)) ∧
  (∀ e (reason : Js.String), reason ≠ EmptyString →
     OrderController.initiateDispute db user e id reason =
     (db, fail "Not authorized to dispute this order" 403)) ∧
  (∀ text : Js.String, text ≠ EmptyString →
     OrderController.addNotes db user id text =
     (db, fail "Not authorized to update this order" 403)) ∧
  (OrderModel.status o = OrderModel.completed →
   ∀ e sc rv, OrderController.addRating db user e id sc rv =
              (db, fail "Not authorized to rate this order" 403)) ∧
  (role user = admin →
   (∀ e s note, transition (OrderModel.status o) s →
      orders (OrderController.updateOrderStatus db user e id s note).1 !! id =
      Some (OrderModel.updateStatus o s note e)) ∧
   (is_Some (users db !! OrderModel.buyer o) → is_Some (users db !! OrderModel.seller o) →
    succeeded (Reads.getOrderById db user id) = true)) ∧
  (role user = student →
   (∀ e s note, OrderController.updateOrderStatus db user e id s note =
                (db, fail "Not authorized to update this order" 403)) ∧
   (is_Some (users db !! OrderModel.buyer o) → is_Some (users db !! OrderModel.seller o) →
    Reads.getOrderById db user id = fail "Not authorized to view this order" 403)).
Proof.
  intros Ho Hn. pose proof (stranger_check _ _ Hn) as Hs.
  assert (OrderModel.buyer o ≠ user_id user) as Hb by (intros ?; apply Hn; by left).
  assert (OrderModel.seller o ≠ user_id user) as Hsl by (intros ?; apply Hn; by right).
  split_and!.
  - intros e md. unfold OrderController.updateMeetupDetails. by rewrite Ho, Hs.
  - intros e reason Hr. unfold OrderController.cancelOrder.
    by rewrite (bool_decide_eq_false_2 _ Hr), Ho, Hs.
  - intros e reason Hr. unfold OrderController.initiateDispute.
    by rewrite (bool_decide_eq_false_2 _ Hr), Ho, Hs.
  - intros text Hr. unfold OrderController.addNotes.
    by rewrite (bool_decide_eq_false_2 _ Hr), Ho, Hs.
  - intros Hc e sc rv. unfold OrderController.addRating, OrderModel.canBeRated.
    by rewrite Ho, (bool_decide_eq_true_2 _ Hc), Hs.
  - intros Hadm. split.
    + intros e s note Ht%transition_validTransitions.
      unfold OrderController.updateOrderStatus, OrderController.isAdmin.
      rewrite Ho, Hadm, andb_false_r, (bool_decide_eq_true_2 _ Ht). simpl.
      repeat case_match; simpl; apply lookup_insert_eq.
    + intros [? Hu1] [? Hu2]. unfold Reads.getOrderById, OrderController.isAdmin.
      by rewrite Ho, Hu1, Hu2, Hadm, !bool_decide_eq_false_2.
  - intros Hst. split.
    + intros e s note. unfold OrderController.updateOrderStatus, OrderController.isAdmin.
      by rewrite Ho, Hst, Hs.
    + intros [? Hu1] [? Hu2]. unfold Reads.getOrderById, OrderController.isAdmin.
      by rewrite Ho, Hu1, Hu2, Hst, !bool_decide_eq_false_2.
Qed.

(** X8 on an admin and the pending order of the lamp. *)
Lemma admin_acts_through_status_only_witness :
  ∃ o, orders Scenario.ordered !! "o1" = Some o ∧
  ∀ e s note, transition (OrderModel.status o) s →
    orders (OrderController.updateOrderStatus Scenario.ordered Cases.root e "o1" s note).1
      !! "o1" = Some (OrderModel.updateStatus o s note e).
Proof.
  eexists. split; [vm_compute; reflexivity|].
  refine (proj1 (proj1 (proj2 (proj2 (proj2 (proj2 (proj2
    (admin_acts_through_status_only Scenario.ordered Cases.root "o1" _ _ _)))))) eq_refl)).
  - vm_compute. reflexivity.
  - intros [H|H]; vm_compute in H; discriminate.
Defined.

(** * Further properties of the chat handlers *)

Section ChatMoves.
Import ChatModel.
Implicit Types (c : Chat) (m : Message) (u : ObjectId).

Lemma same_message_refl m : same_message m m.
Proof. by repeat split. Qed.

Lemma message_moves_refl m : message_moves m m.
Proof. split; [apply same_message_refl|]. split; [done|by left]. Qed.

Lemma Forall2_message_moves_refl (ms : list Message) : Forall2 message_moves ms ms.
Proof. apply Forall_Forall2_diag, list.Forall_forall. intros m _. apply message_moves_refl. Qed.

Lemma message_moves_readBy u t m : message_moves m (readBy u t m).
Proof.
  unfold readBy. destruct (unreadFor u m) eqn:E; [|apply message_moves_refl].
  split; [by repeat split|]. split; [|by left].
  intros Hr. unfold unreadFor in E. by rewrite Hr in E.
Qed.

Lemma message_wf_readBy u t m : message_wf m → message_wf (readBy u t m).
Proof.
  unfold readBy. destruct (unreadFor u m); [|done].
  intros (Hc & _ & Ho & Ht). split_and!; try done.
Qed.

Lemma preview_readBy u t m : preview (readBy u t m) = preview m.
Proof. unfold readBy. by destruct (unreadFor u m). Qed.

Lemma preview_last_fmap (f : Message → Message) (ms : list Message) :
  (∀ m, preview (f m) = preview m) →
  preview <$> list.last (f <$> ms) = preview <$> list.last ms.
Proof.
  intros Hf. rewrite fmap_last, <- option_fmap_compose.
  destruct (list.last ms); simpl; [by rewrite Hf|done].
Qed.

Lemma chat_moves_assign c ms' tail lm uc act bl :
  Forall2 message_moves (messages c) ms' → (isActive c = false → act = false) →
  chat_moves c (assign c (ms' ++ tail) lm uc act bl).
Proof. intros Hms Hact. split_and!; try done. by exists ms', tail. Qed.

Lemma chat_moves_same_messages c lm uc act bl :
  (isActive c = false → act = false) →
  chat_moves c (assign c (messages c) lm uc act bl).
Proof.
  intros Hact. split_and!; try done. exists (messages c), [].
  split; [by rewrite app_nil_r|apply Forall2_message_moves_refl].
Qed.

Lemma chat_moves_markAsRead c u e : chat_moves c (markAsRead c u e).
Proof.
  split_and!; try done. exists (readBy u (now e) <$> messages c), [].
  split; [by rewrite app_nil_r|].
  apply Forall2_fmap_r, Forall_Forall2_diag, list.Forall_forall.
  intros m _. apply message_moves_readBy.
Qed.

Lemma chat_wf_markAsRead c u e : chat_wf c → chat_wf (markAsRead c u e).
Proof.
  intros [Hp Hw]. split.
  - rewrite markAsRead_messages, preview_last_fmap by apply preview_readBy. exact Hp.
  - rewrite markAsRead_messages. apply Forall_fmap.
    eapply list.Forall_impl; [exact Hw|]. intros m Hm. by apply message_wf_readBy.
Qed.

Lemma message_wf_newMessage user e b :
  valid_content (ChatController.body_content b) →
  message_wf (ChatController.newMessage user e b).
Proof.
  intros (Ht & Hne & Hlen). split_and!; simpl.
  - unfold valid_content. rewrite Ht. by rewrite Ht.
  - split; [done|]. by intros [? ?].
  - by repeat case_match.
  - by repeat case_match.
Qed.

Lemma preview_newMessage user e b :
  valid_content (ChatController.body_content b) →
  preview (ChatController.newMessage user e b) =
  {| last_content := Js.substring0 100 (ChatController.body_content b);
     last_sender := user_id user; last_createdAt := None |}.
Proof. intros (Ht & _). unfold preview, truncated. simpl. by rewrite Ht. Qed.

Lemma chat_moves_sent c user e b r : chat_moves c (sent c user e b r).
Proof.
  split_and!; try done. eexists (messages c), _. split; [done|].
  apply Forall2_message_moves_refl.
Qed.

Lemma chat_wf_sent c user e b r :
  valid_content (ChatController.body_content b) → chat_wf c → chat_wf (sent c user e b r).
Proof.
  intros Hv [Hp Hw]. split.
  - change (messages (sent c user e b r))
      with (messages c ++ [ChatController.newMessage user e b])%list.
    rewrite last_snoc. cbn [fmap option_fmap option_map].
    by rewrite (preview_newMessage user e b Hv).
  - simpl. apply Forall_app. split; [done|]. constructor; [|done]. by apply message_wf_newMessage.
Qed.

Lemma Forall2_insert_right {A} (R : A → A → Prop) (l : list A) i x y :
  (∀ z, R z z) → l !! i = Some x → R x y → Forall2 R l (<[i := y]> l).
Proof.
  intros Hrefl Hi Hxy. rewrite <- (list_insert_id l i x Hi) at 1.
  apply Forall2_insert; [|done]. apply Forall_Forall2_diag, list.Forall_forall. auto.
Qed.

Lemma message_moves_setOfferStatus st m :
  type m = offer → offer_status (offer_payload m) = offer_pending →
  st = offer_accepted ∨ st = offer_rejected →
  message_moves m (ChatController.setOfferStatus st m).
Proof. intros Ht Hp Hst. split; [by repeat split|]. split; [done|]. right. done. Qed.

Lemma message_wf_setOfferStatus st m :
  type m = offer → st = offer_accepted ∨ st = offer_rejected →
  message_wf m → message_wf (ChatController.setOfferStatus st m).
Proof.
  intros Ht Hst (Hc & Hr & _ & _). split_and!; try done; simpl.
  by destruct Hst as [-> | ->].
Qed.

Lemma preview_insert (ms : list Message) i m m' :
  ms !! i = Some m → preview m' = preview m →
  preview <$> list.last (<[i := m']> ms) = preview <$> list.last ms.
Proof.
  intros Hi Hp. rewrite <- !fmap_last, list_fmap_insert, Hp. f_equal.
  apply list_insert_id. by rewrite list_lookup_fmap, Hi.
Qed.

Lemma chat_writes_save k c c' db db1 :
  chats db !! k = Some c →
  (chat_ok c → chat_moves c c' ∧ (chat_wf c → chat_wf c')) →
  saveChat k c' db = Some db1 →
  chat_writes (chats db) (chats db1).
Proof. intros Hk Hc ->%saveChat_Some. right. exists k, c'. by rewrite Hk. Qed.

Lemma getOrCreateChat_chat_writes db user e l s :
  chat_writes (chats db) (chats (ChatController.getOrCreateChat db user e l s).1).
Proof.
  unfold ChatController.getOrCreateChat, findOrCreate.
  destruct (_ || _); [by left|].
  destruct (listings db !! l); [|by left].
  destruct (bool_decide (s = user_id user)) eqn:Hs; [by left|].
  destruct (negb _); [by left|].
  destruct (list_find _ _) as [?|] eqn:Hf; [by left|].
  destruct (chats db !! newId e) eqn:Hk; [by left|]. simpl.
  right. eexists _, _. split; [done|]. rewrite Hk.
  exists (user_id user), s, l. split; [done|].
  apply bool_decide_eq_false in Hs. split; [congruence|].
  intros k0 c0 Hc0. apply list_find_None in Hf.
  rewrite list.Forall_forall in Hf. specialize (Hf (k0, c0)). simpl in Hf.
  apply not_true_is_false, Hf. by apply elem_of_map_to_list.
Qed.

Lemma markChatAsRead_chat_writes db user e id :
  chat_writes (chats db) (chats (ChatController.markChatAsRead db user e id).1).
Proof.
  unfold ChatController.markChatAsRead.
  destruct (chats db !! id) as [c|] eqn:Hc; [|by left].
  destruct (isParticipant c (user_id user)); [|by left]. simpl.
  destruct (saveChat _ _ _) eqn:Hs; [|by left]. simpl.
  eapply chat_writes_save; [done| |done].
  intros _. split; [apply chat_moves_markAsRead|apply chat_wf_markAsRead].
Qed.

Lemma sendMessage_chat_writes db user e id b :
  valid_content (ChatController.body_content b) →
  chat_writes (chats db) (chats (ChatController.sendMessage db user e id b).1).
Proof.
  intros Hv.
  destruct (succeeded (ChatController.sendMessage db user e id b).2) eqn:Hs.
  - destruct (sendMessage_success _ _ _ _ _ Hs) as (c & r & Hc & _ & _ & _ & _ & ->).
    right. eexists _, _. split; [done|]. rewrite Hc. intros _.
    split; [apply chat_moves_sent|by apply chat_wf_sent].
  - revert Hs. unfold ChatController.sendMessage.
    destruct (chats db !! id) as [c|] eqn:Hc; [|by left].
    destruct (isParticipant c (user_id user)) eqn:Hp; [|by left]. simpl.
    apply isParticipant_spec in Hp.
    destruct (isBlockedBy c (user_id user)); [by left|].
    destruct (ChatController.otherParticipant c user) as [r|] eqn:Hr.
    + destruct (isBlockedBy c r); [by left|].
      destruct (saveChat _ _ db) as [db1|] eqn:Hs1; [|by left].
      destruct (saveChat _ _ db1) as [db2|] eqn:Hs2; [done|].
      exfalso. unfold saveChat, pre_save_ok in Hs1, Hs2. simpl in Hs1, Hs2.
      destruct (_ =? 2)%nat; simplify_eq.
    + destruct (blockedBy c); [|by left].
      destruct (saveChat _ _ db) as [db1|] eqn:Hs1; [|by left]. simpl. intros _.
      eapply chat_writes_save; [done| |done].
      intros Hok. destruct (otherParticipant_ok c user Hok Hp) as (r' & Hr' & _).
      congruence.
Qed.

Lemma deleteChat_chat_writes db user id :
  chat_writes (chats db) (chats (ChatController.deleteChat db user id).1).
Proof.
  unfold ChatController.deleteChat.
  destruct (chats db !! id) as [c|] eqn:Hc; [|by left].
  destruct (isParticipant c (user_id user)); [|by left]. simpl.
  destruct (validate c); [|by left]. simpl.
  destruct (saveChat _ _ _) eqn:Hs; [|by left]. simpl.
  eapply chat_writes_save; [done| |done].
  intros _. split; [by apply chat_moves_same_messages|done].
Qed.

Lemma toggleBlockChat_chat_writes db user id :
  chat_writes (chats db) (chats (ChatController.toggleBlockChat db user id).1).
Proof.
  unfold ChatController.toggleBlockChat.
  destruct (chats db !! id) as [c|] eqn:Hc; [|by left].
  destruct (isParticipant c (user_id user)); [|by left]. simpl.
  destruct (validate c); [|by left]. simpl.
  destruct (saveChat _ _ _) eqn:Hs; [|by left]. simpl.
  eapply chat_writes_save; [done| |done].
  intros _. split; [by apply chat_moves_same_messages|done].
Qed.

Lemma respondToOffer_chat_writes db user cid mid status :
  chat_writes (chats db) (chats (ChatController.respondToOffer db user cid mid status).1).
Proof.
  unfold ChatController.respondToOffer.
  destruct (ChatController.responseStatus status) as [st|] eqn:Hst; [|by left].
  apply responseStatus_Some in Hst.
  assert (st = offer_accepted ∨ st = offer_rejected) as Hst' by tauto.
  destruct (chats db !! cid) as [c|] eqn:Hc; [|by left].
  destruct (listings db !! listing c); [|by left].
  case_match; [by left|].
  destruct (list_find _ _) as [[i m]|] eqn:Hf; [|by left].
  apply list_find_Some in Hf as (Hi & _ & _).
  destruct (bool_decide (type m = offer)) eqn:Ht; [|by left].
  destruct (bool_decide (_ = offer_pending)) eqn:Hp; [|by left]. simpl.
  apply bool_decide_eq_true in Ht, Hp.
  destruct (validate c); [|by left]. simpl.
  destruct (saveChat _ _ _) as [db1|] eqn:Hs; [|by left].
  assert (chat_writes (chats db) (chats db1)).
  { eapply chat_writes_save; [done| |done]. intros _. split.
    - rewrite <- (app_nil_r (<[i:=_]> (messages c))). apply chat_moves_assign; [|done].
      eapply Forall2_insert_right; [apply message_moves_refl|done|].
      by apply message_moves_setOfferStatus.
    - intros [Hprev Hw]. split; simpl.
      + by rewrite (preview_insert _ _ m).
      + apply Forall_insert; [done|]. apply message_wf_setOfferStatus; [done..|].
        rewrite list.Forall_forall in Hw. apply Hw. by eapply list_elem_of_lookup_2. }
  by case_match.
Qed.

Lemma route_keeps_chats db user e rq :
  match rq with
  | PostOrder _ | PutOrderStatus _ _ _ | PutOrderMeetup _ _ | PostOrderRating _ _ _
  | PostOrderCancel _ _ | PostOrderDispute _ _ | PutOrderNotes _ _ =>
      chats (route db user e rq).1 = chats db
  | _ => True
  end.
Proof.
  destruct rq; try done; simpl.
  - case_match; [apply chats_createOrderWith|done].
  - unfold OrderController.updateOrderStatus. repeat (case_match; try done).
  - unfold OrderController.updateMeetupDetails. repeat (case_match; try done).
  - unfold OrderController.addRating. repeat (case_match; try done).
  - unfold OrderController.cancelOrder. repeat (case_match; try done).
  - unfold OrderController.initiateDispute. repeat (case_match; try done).
  - unfold OrderController.addNotes. repeat (case_match; try done).
Qed.

Lemma valid_content_sendMessageValidation (s t : Js.String) :
  Validation.sendMessageValidation s = Some t → t = Js.trim s ∧ valid_content t.
Proof.
  rewrite sendMessageValidation_spec. case_bool_decide as Hv; [|done].
  intros [= <-]. split; [done|]. destruct Hv. split_and!; [apply trim_idem|done..].
Qed.

Lemma route_chat_writes db user e rq :
  chat_writes (chats db) (chats (route db user e rq).1).
Proof.
  pose proof (route_keeps_chats db user e rq) as Hk.
  destruct rq; try (left; exact Hk); simpl.
  - apply getOrCreateChat_chat_writes.
  - rewrite getChatById_refuses. by left.
  - destruct (Validation.sendMessageValidation _) as [c|] eqn:Hv; [|by left].
    apply sendMessage_chat_writes. simpl.
    by destruct (valid_content_sendMessageValidation _ _ Hv).
  - apply markChatAsRead_chat_writes.
  - apply deleteChat_chat_writes.
  - apply toggleBlockChat_chat_writes.
  - apply respondToOffer_chat_writes.
Qed.

Lemma chat_wf_newChat b s l : chat_wf (newChat b s l).
Proof. split; [done|constructor]. Qed.

Lemma reachable_chat_wf db : reachable db → map_Forall (λ _ c, chat_wf c) (chats db).
Proof.
  induction 1 as [ls us|db user e rq Hr IH|db user e b Hr IH|db ls us _ IH];
    [apply map_Forall_empty| |by rewrite chats_createOrderWith|done].
  destruct (reachable_ok _ Hr) as [_ Hok].
  destruct (route_chat_writes db user e rq) as [->|(k & c' & -> & Hk)]; [done|].
  apply map_Forall_insert_2; [|done].
  destruct (chats db !! k) as [c|] eqn:Hc.
  - apply Hk; [exact (Hok k c Hc)|exact (IH k c Hc)].
  - destruct Hk as (b & s & l & -> & _). apply chat_wf_newChat.
Qed.

Lemma matches_spec b s l c :
  matches b s l c = true ↔ b ∈ participants c ∧ s ∈ participants c ∧ listing c = l.
Proof.
  unfold matches. rewrite !andb_true_iff, !bool_decide_eq_true. tauto.
Qed.

Lemma chats_unique_writes cs cs' :
  map_Forall (λ _ c, chat_ok c) cs → chat_writes cs cs' → chats_unique cs → chats_unique cs'.
Proof.
  intros Hok [->|(k & c' & -> & Hk)] Hu; [done|].
  destruct (cs !! k) as [c|] eqn:Hc.
  - destruct (Hk (Hok k c Hc)) as [(Hp & Hl & _) _].
    assert (∀ k0 c0, <[k:=c']> cs !! k0 = Some c0 →
              ∃ c1, cs !! k0 = Some c1 ∧ participants c0 = participants c1 ∧
                    listing c0 = listing c1) as Hold.
    { intros k0 c0. destruct (decide (k = k0)) as [->|Hne].
      - rewrite lookup_insert_eq. intros [= <-]. by exists c.
      - rewrite lookup_insert_ne by done. intros H. by exists c0. }
    intros k1 k2 c1 c2 H1 H2 [Hsl Hsp].
    destruct (Hold _ _ H1) as (d1 & Hd1 & Hp1 & Hl1).
    destruct (Hold _ _ H2) as (d2 & Hd2 & Hp2 & Hl2).
    apply (Hu k1 k2 d1 d2 Hd1 Hd2). split; [congruence|].
    intros u. rewrite <- Hp1, <- Hp2. apply Hsp.
  - destruct Hk as (b & s & l & -> & Hbs & Hnone).
    intros k1 k2 c1 c2 H1 H2 [Hsl Hsp].
    destruct (decide (k = k1)) as [<-|Hn1], (decide (k = k2)) as [<-|Hn2]; [done|..].
    + rewrite lookup_insert_eq in H1. rewrite lookup_insert_ne in H2 by done.
      simplify_eq. exfalso. specialize (Hnone k2 c2 H2).
      apply not_true_iff_false in Hnone. apply Hnone, matches_spec.
      split_and!; [apply Hsp|apply Hsp|done]; simpl; [left|right; left].
    + rewrite lookup_insert_eq in H2. rewrite lookup_insert_ne in H1 by done.
      simplify_eq. exfalso. specialize (Hnone k1 c1 H1).
      apply not_true_iff_false in Hnone. apply Hnone, matches_spec.
      split_and!; [apply Hsp|apply Hsp|done]; simpl; [left|right; left].
    + rewrite lookup_insert_ne in H1, H2 by done. by apply (Hu k1 k2 c1 c2).
Qed.

Lemma reachable_chats_unique db : reachable db → chats_unique (chats db).
Proof.
  induction 1 as [ls us|db user e rq Hr IH|db user e b Hr IH|db ls us _ IH];
    [| |by rewrite chats_createOrderWith|done].
  - intros k1 k2 c1 c2 H1. simpl in H1. by rewrite lookup_empty in H1.
  - destruct (reachable_ok _ Hr) as [_ Hok].
    eapply chats_unique_writes; [exact Hok|apply route_chat_writes|done].
Qed.

End ChatMoves.

Section ChatRoundTrips.
Import ChatModel.
Implicit Types (c : Chat) (u : ObjectId).

Lemma with_chats_same db : with_chats (chats db) db = db.
Proof. by destruct db. Qed.

Lemma with_chats_restore k c c' db :
  chats db !! k = Some c →
  with_chats (<[k := c]> (chats (with_chats (<[k := c']> (chats db)) db)))
    (with_chats (<[k := c']> (chats db)) db) = db.
Proof.
  intros Hk. destruct db as [ls us os cs]. unfold with_chats. simpl in *.
  by rewrite insert_insert_eq, insert_id.
Qed.

Lemma filter_others_snoc u (l : list ObjectId) :
  u ∉ l → filter (λ i, i ≠ u) (l ++ [u])%list = l.
Proof.
  induction l as [|x l IH]; intros Hu; simpl.
  - rewrite filter_cons, decide_False; [done|]. intros H. by apply H.
  - apply not_elem_of_cons in Hu as [Hx Hl].
    rewrite filter_cons, decide_True by done. by rewrite IH.
Qed.

Lemma toggleBlockChat_blocked db user id c :
  chat_ok c → chats db !! id = Some c → user_id user ∈ participants c →
  validate c = true →
  ∃ c', (ChatController.toggleBlockChat db user id).1 =
          with_chats (<[id := c']> (chats db)) db ∧
        c' = assign c (messages c) (lastMessage c) (unreadCount c) (isActive c) (blockedBy c') ∧
        blockedBy c' = (if bool_decide (user_id user ∈ blockedBy c)
                        then filter (λ i, i ≠ user_id user) (blockedBy c)
                        else (blockedBy c ++ [user_id user])%list).
Proof.
  intros Hok Hc Hp Hv. eexists. split; [by apply toggleBlockChat_participant|].
  simpl. destruct (isBlockedBy c (user_id user)) eqn:Hb.
  - apply isBlockedBy_spec in Hb. by rewrite (bool_decide_eq_true_2 _ Hb).
  - apply not_true_iff_false in Hb. rewrite isBlockedBy_spec in Hb.
    by rewrite (bool_decide_eq_false_2 _ Hb).
Qed.

End ChatRoundTrips.

(** X9. [toggleBlockChat] flips the caller's own entry of [blockedBy] and
    nobody else's. For a participant of a chat of a reachable database whose
    messages pass the validation of the schema (the handler saves with
    validation, and a stored content may exceed the 2000 code units of
    [maxlength]), the call stores the chat with every other field as it
    was; afterwards the caller is in the block list exactly when they were
    not before, and any other user is in it exactly when they were. When the
    caller was not blocking, toggling twice gives back the database
    unchanged. *)
Theorem block_toggle_round_trip db user id c :
  reachable db → chats db !! id = Some c → user_id user ∈ ChatModel.participants c →
  ChatModel.validate c = true →
  ∃ c',
    (ChatController.toggleBlockChat db user id).1 = with_chats (<[id := c']> (chats db)) db ∧
    c' = ChatModel.assign c (ChatModel.messages c) (ChatModel.lastMessage c)
           (ChatModel.unreadCount c) (ChatModel.isActive c) (ChatModel.blockedBy c') ∧
    (user_id user ∈ ChatModel.blockedBy c' ↔ user_id user ∉ ChatModel.blockedBy c) ∧
    (∀ v, v ≠ user_id user → v ∈ ChatModel.blockedBy c' ↔ v ∈ ChatModel.blockedBy c) ∧
    (user_id user ∉ ChatModel.blockedBy c →
     (ChatController.toggleBlockChat (ChatController.toggleBlockChat db user id).1 user id).1
     = db).
Proof.
  intros [_ Hok]%reachable_ok Hc Hp Hval. specialize (Hok id c Hc). simpl in Hok.
  destruct (toggleBlockChat_blocked db user id c Hok Hc Hp Hval) as (c' & Hdb & Hc' & Hbl).
  exists c'. split; [done|]. split; [done|]. split_and!.
  - rewrite Hbl. case_bool_decide as Hin.
    + rewrite list_elem_of_filter. split; [by intros [? _]|done].
    + rewrite elem_of_app, list_elem_of_singleton. split; [done|auto].
  - intros v Hv. rewrite Hbl. case_bool_decide.
    + rewrite list_elem_of_filter. tauto.
    + rewrite elem_of_app, list_elem_of_singleton. tauto.
  - intros Hnb. rewrite (bool_decide_eq_false_2 _ Hnb) in Hbl. rewrite Hdb.
    assert (chat_ok c') as Hok' by (rewrite Hc'; by apply chat_ok_same_shape).
    destruct (toggleBlockChat_blocked (with_chats (<[id:=c']> (chats db)) db) user id c' Hok')
      as (c2 & -> & Hc2 & Hbl2).
    { apply lookup_insert_eq. } { by rewrite Hc'. } { by rewrite Hc'. }
    assert (c2 = c) as ->; [|by apply with_chats_restore].
    rewrite Hc2, Hbl2, bool_decide_eq_true_2.
    + rewrite Hbl, filter_others_snoc by done. rewrite Hc'. by destruct c.
    + rewrite Hbl, elem_of_app, list_elem_of_singleton. by right.
Qed.

(** X9 on Bob blocking and unblocking the chat about the lamp. *)
Lemma block_toggle_round_trip_witness :
  ∃ c, chats Scenario.offered !! "c1" = Some c ∧
  ∃ c',
    (ChatController.toggleBlockChat Scenario.offered Scenario.bob "c1").1
      = with_chats (<["c1" := c']> (chats Scenario.offered)) Scenario.offered ∧
    c' = ChatModel.assign c (ChatModel.messages c) (ChatModel.lastMessage c)
           (ChatModel.unreadCount c) (ChatModel.isActive c) (ChatModel.blockedBy c') ∧
    (user_id Scenario.bob ∈ ChatModel.blockedBy c' ↔
     user_id Scenario.bob ∉ ChatModel.blockedBy c) ∧
    (∀ v, v ≠ user_id Scenario.bob →
          v ∈ ChatModel.blockedBy c' ↔ v ∈ ChatModel.blockedBy c) ∧
    (user_id Scenario.bob ∉ ChatModel.blockedBy c →
     (ChatController.toggleBlockChat
        (ChatController.toggleBlockChat Scenario.offered Scenario.bob "c1").1
        Scenario.bob "c1").1 = Scenario.offered).
Proof.
  eexists. split; [vm_compute; reflexivity|].
  apply (block_toggle_round_trip Scenario.offered Scenario.bob "c1").
  - apply reachable_offered.
  - vm_compute. reflexivity.
  - apply isParticipant_spec. vm_compute. reflexivity.
  - vm_compute. reflexivity.
Defined.

(** X10. Deleting a chat is a flag, and the flag is not looked at when a
    chat is looked up. For a participant of a chat of a reachable database
    whose messages pass the validation of the schema, [deleteChat] stores
    the chat inactive with its messages in place; a later [getOrCreateChat]
    for the same listing and seller then succeeds without writing anything:
    the inactive chat is found, no second chat is created and the chat
    stays inactive. *)
Theorem deleted_chat_is_found_again db user e id c l sellerId :
  reachable db → chats db !! id = Some c →
  ChatModel.validate c = true →
  user_id user ∈ ChatModel.participants c →
  sellerId ∈ ChatModel.participants c → sellerId ≠ user_id user →
  sellerId ≠ EmptyString → ChatModel.listing c ≠ EmptyString →
  listings db !! ChatModel.listing c = Some l → ListingModel.seller l = sellerId →
  ∃ c1,
    (ChatController.deleteChat db user id).1 = with_chats (<[id := c1]> (chats db)) db ∧
    ChatModel.isActive c1 = false ∧
    ChatModel.messages c1 = ChatModel.messages c ∧
    ChatController.getOrCreateChat (ChatController.deleteChat db user id).1 user e
      (ChatModel.listing c) sellerId
    = ((ChatController.deleteChat db user id).1, ok 200 EmptyString []).
Proof.
  intros [_ Hok]%reachable_ok Hc Hv Hu Hs Hne Hs0 Hl0 Hl Hsl.
  specialize (Hok id c Hc). simpl in Hok.
  unfold ChatController.deleteChat at 1 2 3.
  rewrite Hc, (proj2 (isParticipant_spec c _) Hu), Hv. simpl.
  rewrite (saveChat_same_participants _ c) by (done || by apply chat_ok_pre_save). simpl.
  eexists. split; [done|]. split; [done|]. split; [done|].
  unfold ChatController.getOrCreateChat, ChatModel.findOrCreate.
  rewrite (bool_decide_eq_false_2 _ Hs0), (bool_decide_eq_false_2 _ Hl0). simpl.
  rewrite Hl, (bool_decide_eq_false_2 _ Hne), (bool_decide_eq_true_2 _ Hsl). simpl.
  match goal with |- context [list_find ?P ?xs] =>
    destruct (list_find_elem_of P xs
      (id, ChatModel.assign c (ChatModel.messages c) (ChatModel.lastMessage c)
             (ChatModel.unreadCount c) false (ChatModel.blockedBy c))) as [x ->] end.
  - apply elem_of_map_to_list, lookup_insert_eq.
  - simpl. by apply matches_spec.
  - unfold with_chats. simpl. done.
Qed.

(** X10 on Alice deleting the chat about the lamp and opening it again. *)
Lemma deleted_chat_is_found_again_witness :
  ∃ c, chats Scenario.talking !! "c1" = Some c ∧
  ∃ c1,
    (ChatController.deleteChat Scenario.talking Scenario.alice "c1").1
      = with_chats (<["c1" := c1]> (chats Scenario.talking)) Scenario.talking ∧
    ChatModel.isActive c1 = false ∧
    ChatModel.messages c1 = ChatModel.messages c ∧
    ChatController.getOrCreateChat
      (ChatController.deleteChat Scenario.talking Scenario.alice "c1").1 Scenario.alice
      (Scenario.at_ 5000 "c2") (ChatModel.listing c) "bob"
    = ((ChatController.deleteChat Scenario.talking Scenario.alice "c1").1,
       ok 200 EmptyString []).
Proof.
  eexists. split; [vm_compute; reflexivity|].
  apply (deleted_chat_is_found_again Scenario.talking Scenario.alice (Scenario.at_ 5000 "c2")
           "c1" _ Scenario.lamp "bob").
  - apply reachable_talking.
  - vm_compute. reflexivity.
  - vm_compute. reflexivity.
  - apply isParticipant_spec. vm_compute. reflexivity.
  - apply isParticipant_spec. vm_compute. reflexivity.
  - discriminate.
  - discriminate.
  - discriminate.
  - vm_compute. reflexivity.
  - reflexivity.
Defined.

(** X11. In every database the server can reach there is at most one chat
    per conversation: two stored chats about the same listing between the
    same participants are stored under the same identifier. *)
Theorem one_chat_per_conversation db k1 k2 c1 c2 :
  reachable db → chats db !! k1 = Some c1 → chats db !! k2 = Some c2 →
  ChatModel.listing c1 = ChatModel.listing c2 →
  (∀ u, u ∈ ChatModel.participants c1 ↔ u ∈ ChatModel.participants c2) →
  k1 = k2.
Proof.
  intros Hr H1 H2 Hl Hp. by apply (reachable_chats_unique db Hr k1 k2 c1 c2).
Qed.

(** X11 on the chat about the lamp. *)
Lemma one_chat_per_conversation_witness :
  ∃ c, chats Scenario.offered !! "c1" = Some c ∧ "c1" = "c1".
Proof.
  eexists. split; [vm_compute; reflexivity|].
  eapply (one_chat_per_conversation Scenario.offered "c1" "c1").
  - apply reachable_offered.
  - vm_compute. reflexivity.
  - vm_compute. reflexivity.
  - reflexivity.
  - intros u. reflexivity.
Defined.

(** X12. [getOrCreateChat] creates at most once. After a call that
    succeeded, the same caller asking again for the same listing and seller
    is answered 200 and nothing is written, whatever identifier the second
    call would have used for a new chat. *)
Theorem getOrCreateChat_idempotent db user e l s :
  succeeded (ChatController.getOrCreateChat db user e l s).2 = true →
  ∀ e', ChatController.getOrCreateChat (ChatController.getOrCreateChat db user e l s).1
          user e' l s
        = ((ChatController.getOrCreateChat db user e l s).1, ok 200 EmptyString []).
Proof.
  unfold ChatController.getOrCreateChat at 1 3 4, ChatModel.findOrCreate.
  destruct (_ || _) eqn:H0; [done|].
  destruct (listings db !! l) as [li|] eqn:Hl; [|done].
  destruct (bool_decide (s = user_id user)) eqn:Hs; [done|].
  destruct (negb _) eqn:Hsl; [done|].
  destruct (list_find _ _) as [[k c]|] eqn:Hf.
  - simpl. intros _ e'. rewrite with_chats_same.
    unfold ChatController.getOrCreateChat, ChatModel.findOrCreate. cbn [fst].
    by rewrite H0, Hl, Hs, Hsl, Hf, with_chats_same.
  - destruct (chats db !! newId e) eqn:Hk; [done|]. simpl. intros _ e'.
    unfold ChatController.getOrCreateChat, ChatModel.findOrCreate.
    rewrite H0. simpl. rewrite Hl, Hs, Hsl.
    match goal with |- context [list_find ?P ?xs] =>
      destruct (list_find_elem_of P xs (newId e, ChatModel.newChat (user_id user) s l))
        as [x ->] end.
    + apply elem_of_map_to_list, lookup_insert_eq.
    + simpl. apply matches_spec. simpl. rewrite !elem_of_cons. auto.
    + unfold with_chats. simpl. done.
Qed.

(** X12 on Alice opening the chat about the lamp. *)
Lemma getOrCreateChat_idempotent_witness :
  ChatController.getOrCreateChat
    (ChatController.getOrCreateChat Scenario.start Scenario.alice
       (Scenario.at_ 1000 "c1") "L1" "bob").1 Scenario.alice (Scenario.at_ 2000 "c2") "L1" "bob"
  = ((ChatController.getOrCreateChat Scenario.start Scenario.alice
        (Scenario.at_ 1000 "c1") "L1" "bob").1, ok 200 EmptyString []).
Proof.
  apply (getOrCreateChat_idempotent Scenario.start Scenario.alice (Scenario.at_ 1000 "c1")
           "L1" "bob").
  vm_compute. reflexivity.
Defined.

Section UnreadTotals.
Import ChatModel.

Lemma foldl_unread_from u (a : Z) (cs : list Chat) :
  foldl (λ sum chat, sum + unreadOf chat u) a cs =
  a + foldl (λ sum chat, sum + unreadOf chat u) 0 cs.
Proof.
  revert a. induction cs as [|c cs IH]; intros a; simpl; [lia|].
  rewrite IH, (IH (0 + _)). lia.
Qed.

Lemma foldl_unread_exact u (cs : list Chat) :
  Forall (λ c, u ∈ participants c → chat_ok c) cs →
  foldl (λ sum chat, sum + unreadOf chat u) 0 (filter (Reads.activeChatOf u) cs) =
  foldr Z.add 0 ((λ c, unreadMessages u (messages c)) <$> filter (Reads.activeChatOf u) cs).
Proof.
  induction 1 as [|c cs Hc _ IH]; [done|].
  rewrite filter_cons. case_decide as Ha; [|done].
  simpl. rewrite foldl_unread_from, IH. destruct Ha as [Hu _].
  destruct (Hc Hu) as (_ & _ & Hcount). by rewrite (Hcount u Hu).
Qed.

Lemma docs_Forall {A} (P : A → Prop) (m : gmap ObjectId A) :
  map_Forall (λ _ x, P x) m → Forall P (docs m).
Proof.
  intros Hm. apply list.Forall_forall. intros x Hx. unfold docs in Hx.
  apply list_elem_of_fmap in Hx as ([k y] & -> & Hky%elem_of_map_to_list).
  by apply (Hm k).
Qed.

End UnreadTotals.

(** X13. The unread badge is exact. In every database the server can
    reach, the number [getUnreadCount] answers for a user is the number of
    messages written by the other participant and not yet read, summed over
    the user's active chats: the counters the handler adds up agree with the
    read flags of the messages. *)
Theorem unread_count_is_exact db user :
  reachable db →
  Reads.getUnreadCount db user = unreadTotal db (user_id user).
Proof.
  intros [_ Hok]%reachable_ok. apply foldl_unread_exact.
  apply docs_Forall. intros k c Hc _. exact (Hok k c Hc).
Qed.

(** X13 on Bob after Alice's offer. *)
Lemma unread_count_is_exact_witness :
  Reads.getUnreadCount Scenario.offered Scenario.bob
  = unreadTotal Scenario.offered (user_id Scenario.bob).
Proof.
  apply (unread_count_is_exact Scenario.offered Scenario.bob).
  apply reachable_offered.
Defined.

(** X14. The preview follows the messages. In every database the server
    can reach, a chat without messages has no [lastMessage], and otherwise
    [lastMessage] holds the first 100 code units and the sender of the last
    stored message, with no timestamp; this stays so when messages are read
    or an offer is answered. *)
Theorem preview_follows_messages db id c :
  reachable db → chats db !! id = Some c →
  ChatModel.lastMessage c =
    (λ m, {| ChatModel.last_content := Js.substring0 100 (ChatModel.content m);
             ChatModel.last_sender := ChatModel.sender m;
             ChatModel.last_createdAt := None |}) <$> list.last (ChatModel.messages c).
Proof. intros Hr Hc. by destruct (reachable_chat_wf db Hr id c Hc). Qed.

(** X14 on the chat in which Alice has made an offer. *)
Lemma preview_follows_messages_witness :
  ∃ c, chats Scenario.offered !! "c1" = Some c ∧
  ChatModel.lastMessage c =
    (λ m, {| ChatModel.last_content := Js.substring0 100 (ChatModel.content m);
             ChatModel.last_sender := ChatModel.sender m;
             ChatModel.last_createdAt := None |}) <$> list.last (ChatModel.messages c).
Proof.
  eexists. split; [vm_compute; reflexivity|].
  apply (preview_follows_messages Scenario.offered "c1").
  - apply reachable_offered.
  - vm_compute. reflexivity.
Defined.

(** X15. What is stored of a message. In every database the server can
    reach, every stored message has a content that is trimmed, not empty and
    at most 2000 characters long, as [isLength] counts characters (in code
    units it may be longer); it is flagged read exactly when it has a read
    time; its offer status is never withdrawn (no handler assigns it), and a
    message that is not an offer has the default status pending. *)
Theorem stored_messages_well_formed db id c m :
  reachable db → chats db !! id = Some c → m ∈ ChatModel.messages c →
  Js.trim (ChatModel.content m) = ChatModel.content m ∧
  ChatModel.content m ≠ EmptyString ∧
  Validation.charCount (ChatModel.content m) <= 2000 ∧
  (ChatModel.isRead m = true ↔ is_Some (ChatModel.readAt m)) ∧
  ChatModel.offer_status (ChatModel.offer_payload m) ≠ ChatModel.offer_withdrawn ∧
  (ChatModel.type m ≠ ChatModel.offer →
   ChatModel.offer_status (ChatModel.offer_payload m) = ChatModel.offer_pending).
Proof.
  intros Hr Hc Hm. destruct (reachable_chat_wf db Hr id c Hc) as [_ Hw].
  rewrite list.Forall_forall in Hw. destruct (Hw m Hm) as ((? & ? & ?) & ? & ? & ?).
  by split_and!.
Qed.

(** X15 on the offer Alice has made. *)
Lemma stored_messages_well_formed_witness :
  ∃ c m, chats Scenario.offered !! "c1" = Some c ∧ ChatModel.messages c !! 0%nat = Some m ∧
  Js.trim (ChatModel.content m) = ChatModel.content m ∧
  ChatModel.content m ≠ EmptyString ∧
  Validation.charCount (ChatModel.content m) <= 2000 ∧
  (ChatModel.isRead m = true ↔ is_Some (ChatModel.readAt m)) ∧
  ChatModel.offer_status (ChatModel.offer_payload m) ≠ ChatModel.offer_withdrawn ∧
  (ChatModel.type m ≠ ChatModel.offer →
   ChatModel.offer_status (ChatModel.offer_payload m) = ChatModel.offer_pending).
Proof.
  eexists _, _. split; [vm_compute; reflexivity|]. split; [vm_compute; reflexivity|].
  eapply (stored_messages_well_formed Scenario.offered "c1").
  - apply reachable_offered.
  - vm_compute. reflexivity.
  - apply list_elem_of_here.
Defined.

Lemma chat_writes_lookup cs cs' k c :
  chat_writes cs cs' → chat_ok c → cs !! k = Some c →
  ∃ c', cs' !! k = Some c' ∧ (c' = c ∨ chat_moves c c').
Proof.
  intros [->|(k' & c' & -> & Hk)] Hok Hc; [exists c; auto|].
  destruct (decide (k' = k)) as [->|Hne].
  - rewrite Hc in Hk. exists c'. rewrite lookup_insert_eq. split; [done|].
    right. by apply Hk.
  - exists c. rewrite lookup_insert_ne by done. auto.
Qed.

Lemma chat_moves_refl c : chat_moves c c.
Proof.
  split_and!; try done. exists (ChatModel.messages c), [].
  split; [by rewrite app_nil_r|apply Forall2_message_moves_refl].
Qed.

(** X16. Messages are appended and never rewritten. In a reachable
    database, whatever request is answered, a stored chat is still stored
    with the same participants and listing, an inactive chat stays inactive,
    and each of its messages is at the same position with the same
    identifier, sender, content, type, image, offer amount and creation
    time. A message that was read stays read with the same time, and an
    offer status changes only from pending to accepted or rejected. *)
Theorem messages_append_only db user e rq id c :
  reachable db → chats db !! id = Some c →
  ∃ c', chats (route db user e rq).1 !! id = Some c' ∧
    ChatModel.participants c' = ChatModel.participants c ∧
    ChatModel.listing c' = ChatModel.listing c ∧
    (ChatModel.isActive c = false → ChatModel.isActive c' = false) ∧
    ∀ i m, ChatModel.messages c !! i = Some m →
      ∃ m', ChatModel.messages c' !! i = Some m' ∧ message_moves m m'.
Proof.
  intros Hr Hc. destruct (reachable_ok _ Hr) as [_ Hok].
  destruct (chat_writes_lookup _ _ _ _ (route_chat_writes db user e rq) (Hok id c Hc) Hc)
    as (c' & Hc' & Hmv).
  assert (chat_moves c c') as (Hp & Hl & Ha & ms & tail & Hms & Hall).
  { destruct Hmv as [-> | ?]; [apply chat_moves_refl|done]. }
  exists c'. split_and!; try done.
  intros i m Hi. destruct (Forall2_lookup_l _ _ _ _ _ Hall Hi) as (m' & Hi' & Hmm).
  exists m'. split; [|done]. rewrite Hms. by apply lookup_app_l_Some.
Qed.

(** X16 on Bob accepting the offer Alice has made. *)
Lemma messages_append_only_witness :
  ∃ c, chats Scenario.offered !! "c1" = Some c ∧
  ∃ c', chats (route Scenario.offered Scenario.bob (Scenario.at_ 3000 "-")
                 (PutChatOffer "c1" "m1" "accepted")).1 !! "c1" = Some c' ∧
    ChatModel.participants c' = ChatModel.participants c ∧
    ChatModel.listing c' = ChatModel.listing c ∧
    (ChatModel.isActive c = false → ChatModel.isActive c' = false) ∧
    ∀ i m, ChatModel.messages c !! i = Some m →
      ∃ m', ChatModel.messages c' !! i = Some m' ∧ message_moves m m'.
Proof.
  eexists. split; [vm_compute; reflexivity|].
  apply (messages_append_only Scenario.offered Scenario.bob (Scenario.at_ 3000 "-")
           (PutChatOffer "c1" "m1" "accepted") "c1").
  - apply reachable_offered.
  - vm_compute. reflexivity.
Defined.

Section UnreadBadge.
Import ChatModel.

Lemma getUnreadCount_badges db user :
  Reads.getUnreadCount db user = foldr Z.add 0 (badge (user_id user) <$> docs (chats db)).
Proof.
  unfold Reads.getUnreadCount. generalize (docs (chats db)) as cs.
  induction cs as [|c cs IH]; [done|].
  rewrite filter_cons, fmap_cons. unfold badge at 1. simpl. case_decide.
  - simpl. rewrite foldl_unread_from, IH. lia.
  - by rewrite IH.
Qed.

Lemma badges_permutation u (l1 l2 : list Chat) :
  l1 ≡ₚ l2 → foldr Z.add 0 (badge u <$> l1) = foldr Z.add 0 (badge u <$> l2).
Proof.
  induction 1 as [|x l l' _ IH|x y l|l l' l'' _ IH1 _ IH2]; rewrite ?fmap_cons; simpl.
  - done.
  - by rewrite IH.
  - lia.
  - by rewrite IH1.
Qed.

Lemma docs_insert {A} (m : gmap ObjectId A) k x :
  docs (<[k := x]> m) ≡ₚ x :: docs (delete k m).
Proof.
  unfold docs. rewrite <- insert_delete_eq.
  rewrite map_to_list_insert by apply lookup_delete_eq. done.
Qed.

Lemma docs_lookup {A} (m : gmap ObjectId A) k x :
  m !! k = Some x → docs m ≡ₚ x :: docs (delete k m).
Proof.
  intros Hk. rewrite <- (insert_id m k x) at 1 by done. apply docs_insert.
Qed.

Lemma getUnreadCount_write db who k c c' :
  chats db !! k = Some c →
  Reads.getUnreadCount (with_chats (<[k := c']> (chats db)) db) who
  = Reads.getUnreadCount db who - badge (user_id who) c + badge (user_id who) c'.
Proof.
  intros Hk. rewrite !getUnreadCount_badges. simpl.
  rewrite (badges_permutation _ _ _ (docs_insert (chats db) k c')).
  rewrite (badges_permutation _ _ _ (docs_lookup (chats db) k c Hk)).
  simpl. lia.
Qed.

Lemma badge_sent u c user e b r :
  r ∈ participants c →
  badge u (sent c user e b r) =
  badge u c + (if bool_decide (u = r) then if isActive c then 1 else 0 else 0).
Proof.
  intros Hr. unfold badge.
  assert (Reads.activeChatOf u (sent c user e b r) ↔ Reads.activeChatOf u c) as Hact by done.
  assert (unreadOf (sent c user e b r) u =
          unreadOf c u + (if bool_decide (u = r) then 1 else 0)) as Hn.
  { unfold sent, incrementUnread, unreadOf. simpl. case_bool_decide as Hu.
    - subst u. by rewrite lookup_insert_eq.
    - rewrite lookup_insert_ne by done. lia. }
  destruct (decide (Reads.activeChatOf u c)) as [Ha|Ha].
  - rewrite decide_True by by apply Hact. rewrite Hn. destruct Ha as [_ ->].
    by case_bool_decide.
  - rewrite decide_False by (by rewrite Hact). case_bool_decide as Hu; [|lia].
    subst u. destruct (isActive c) eqn:Hi; [|lia]. by destruct Ha.
Qed.

End UnreadBadge.

(** X17. A message and the unread badge. A successful [sendMessage] raises
    what [getUnreadCount] answers to the recipient by exactly one when the
    chat is active, and leaves it as it was when the chat has been deleted
    ([sendMessage] does not look at [isActive], so the message is stored all
    the same); what it answers to anybody else, the sender included, does
    not change. *)
Theorem message_raises_recipient_badge db user e id b :
  succeeded (ChatController.sendMessage db user e id b).2 = true →
  ∃ c r,
    chats db !! id = Some c ∧
    ChatController.otherParticipant c user = Some r ∧ r ≠ user_id user ∧
    ∀ who,
      Reads.getUnreadCount (ChatController.sendMessage db user e id b).1 who =
      Reads.getUnreadCount db who +
      (if bool_decide (user_id who = r)
       then if ChatModel.isActive c then 1 else 0 else 0).
Proof.
  intros (c & r & Hc & _ & _ & Hr & _ & ->)%sendMessage_success.
  exists c, r. split; [done|]. split; [done|].
  unfold ChatController.otherParticipant in Hr.
  destruct (list_find _ _) as [[i p]|] eqn:Hf; [|done]. simpl in Hr.
  injection Hr as ->. apply list_find_Some in Hf as (Hi & Hne & _).
  split; [done|]. intros who. simpl.
  rewrite (getUnreadCount_write db who id c _ Hc), badge_sent; [lia|].
  by eapply list_elem_of_lookup_2.
Qed.

(** X17 on Alice writing to Bob, for Bob's badge. *)
Lemma message_raises_recipient_badge_witness :
  ∃ c r,
    chats Scenario.talking !! "c1" = Some c ∧
    ChatController.otherParticipant c Scenario.alice = Some r ∧ r ≠ user_id Scenario.alice ∧
    ∀ who,
      Reads.getUnreadCount
        (ChatController.sendMessage Scenario.talking Scenario.alice (Scenario.at_ 2000 "m1")
           "c1" (Scenario.say "hello" None)).1 who =
      Reads.getUnreadCount Scenario.talking who +
      (if bool_decide (user_id who = r)
       then if ChatModel.isActive c then 1 else 0 else 0).
Proof.
  apply (message_raises_recipient_badge Scenario.talking Scenario.alice
           (Scenario.at_ 2000 "m1") "c1" (Scenario.say "hello" None)).
  vm_compute. reflexivity.
Defined.
